(** * stream-buffer: a shallow embedding of [stream-buffer.c]

    The program copies standard input to standard output one byte per
    SIGALRM tick, holding the bytes not yet written in a queue, and
    rescales the tick interval by 5% steps when the queue drifts.

    The definitions come in six modules:
    - [Fp]: the binary floating-point arithmetic the C expressions
      [interval * resize_factor], [1e6 / bytes_read] and
      [new_interval > 1e6] are evaluated in;
    - [Sys]: the process state (stdin, stdout, stderr, the interval timer,
      [received_signal], [errno], the queue) and the monad the C functions
      run in;
    - [Libc]: [strtoll];
    - [StreamBuffer]: the functions of [stream-buffer.c], one definition
      each;
    - [Spec]: the predicates and sample states the theorems are stated
      with;
    - [Props]: further predicates, on pacing, the timer settings, numerals
      and the diagnostics.

    The lemmas follow: [FpFacts] on the arithmetic, [Facts] on the
    functions and their loops, then the theorems on the behaviour of the
    program; [MoreFacts] and the theorems after it cover what is left of
    the code: reading ahead, the drain, the start-up checks, the exits and
    whole runs.

    What the model assumes of the platform:
    - [float] and [double] are IEEE 754 binary32 and binary64 with
      round-to-nearest-even, each operation rounded once;
    - asserts are enabled;
    - SIGALRM is the only signal, and its handler may run before or during
      any [getchar] and ends every [pause];
    - writing to stdout and stderr does not fail;
    - [setitimer] follows POSIX: a [tv_usec] outside [0, 999999] is refused
      with [EINVAL] and the timer stays as it was. *)

From Stdlib Require Import ZArith List Bool Lia String Ascii.
From Stdlib Require Import Init.Byte.
Import ListNotations.

Local Open Scope Z_scope.

(* ================================================================== *)
(** ** Binary floating point *)
(* ================================================================== *)

Module Fp.

(** A finite binary floating-point number [mant * 2 ^ expo].  A [float] is
    such a number with a 24-bit significand, a [double] one with 53 bits.
    Every value the program computes is far inside the normal range of
    both formats, so exponent overflow and subnormals are not modelled. *)
Record dyadic : Type := Dy { mant : Z; expo : Z }.

Definition prec_float : Z := 24.
Definition prec_double : Z := 53.

(** [scale a b e] is the fraction [a / (b * 2 ^ e)] as a pair of integers. *)
Definition scale (a b e : Z) : Z * Z :=
  if 0 <=? e then (a, b * 2 ^ e) else (a * 2 ^ (- e), b).

(** [ilog2 a b] is [floor (log2 (a / b))] for positive [a] and [b]. *)
Definition ilog2 (a b : Z) : Z :=
  let d := Z.log2 a - Z.log2 b in
  let '(n, dn) := scale a b d in
  if n <? dn then d - 1 else d.

(** Quotient of [n] by [dn] rounded to the nearest integer, ties to even:
    the IEEE 754 default rounding. *)
Definition div_nearest_even (n dn : Z) : Z :=
  let q := n / dn in
  let r := n mod dn in
  if 2 * r <? dn then q
  else if dn <? 2 * r then q + 1
  else if Z.even q then q else q + 1.

(** [rnd p a b] is the [p]-bit floating-point number nearest to the
    rational [a / b] ([0 < b]). *)
Definition rnd (p a b : Z) : dyadic :=
  if a =? 0 then Dy 0 0
  else
    let e := ilog2 (Z.abs a) b - (p - 1) in
    let '(n, dn) := scale (Z.abs a) b e in
    Dy (Z.sgn a * div_nearest_even n dn) e.

(** Conversion of an integer to floating point. *)
Definition of_Z (p n : Z) : dyadic := rnd p n 1.

(** The exact product and quotient of two dyadics as fractions, then
    rounded once. *)
Definition mul (p : Z) (x y : dyadic) : dyadic :=
  let '(n, dn) := scale (mant x * mant y) 1 (- (expo x + expo y)) in
  rnd p n dn.

Definition div (p : Z) (x y : dyadic) : dyadic :=
  let '(n, dn) := scale (mant x) (Z.abs (mant y)) (expo y - expo x) in
  rnd p (Z.sgn (mant y) * n) dn.

Definition add (p : Z) (x y : dyadic) : dyadic :=
  let e := Z.min (expo x) (expo y) in
  let s := mant x * 2 ^ (expo x - e) + mant y * 2 ^ (expo y - e) in
  let '(n, dn) := scale s 1 (- e) in
  rnd p n dn.

(** Conversion of a floating-point number to an integer type discards the
    fractional part (truncation toward zero, C11 6.3.1.4). *)
Definition trunc (x : dyadic) : Z :=
  if 0 <=? expo x then mant x * 2 ^ expo x
  else Z.quot (mant x) (2 ^ (- expo x)).

(** [x < y]. *)
Definition ltb (x y : dyadic) : bool :=
  let e := Z.min (expo x) (expo y) in
  mant x * 2 ^ (expo x - e) <? mant y * 2 ^ (expo y - e).

(** Nearest integer, halfway cases away from zero (C's [round]).  The
    program never calls it; it is what the specification's
    [round(current_interval * factor)] denotes. *)
Definition round_half_away (x : dyadic) : Z :=
  if 0 <=? expo x then mant x * 2 ^ expo x
  else
    let d := 2 ^ (- expo x) in
    Z.sgn (mant x) * ((2 * Z.abs (mant x) + d) / (2 * d)).

(** A decimal constant [n / d] of the C source, of type [double]. *)
Definition double_lit (n d : Z) : dyadic := rnd prec_double n d.

(** A [double] passed where a [float] is expected is rounded again. *)
Definition float_of_double (x : dyadic) : dyadic :=
  let '(n, dn) := scale (mant x) 1 (- expo x) in
  rnd prec_float n dn.

End Fp.

(* ================================================================== *)
(** ** The process and its environment *)
(* ================================================================== *)

Module Sys.

(** What SIGALRM does around one call of [getchar]:
    - [Quiet]: no signal is delivered;
    - [Pending]: the handler runs, the read itself completes;
    - [Interrupted]: the handler runs while [read] is blocked, and
      [getchar] returns [EOF] with [errno = EINTR]. *)
Inductive alarm : Type := Quiet | Pending | Interrupted.

(** Result of [fstat] on standard input. *)
Inductive fstat_result : Type :=
| FstatError (msg : string)
| FstatMode (isreg : bool).

(** The state of the process together with the part of the environment it
    will still observe.  [stdin_data], [stdin_stat], [sigaction_error],
    [alarms] and [pauses] belong to the environment; the other fields are
    written by the program. *)
Record world : Type := World {
  stdin_data : list byte;         (* bytes not yet read from fd 0 *)
  stdin_stat : fstat_result;      (* what fstat(0) answers *)
  sigaction_error : option string;(* Some e: sigaction fails with e *)
  alarms : list alarm;            (* one entry per coming getchar *)
  pauses : nat;                   (* ticks delivered to pause() *)
  stdout_data : list byte;        (* bytes written and flushed *)
  stderr_data : string;           (* text written to stderr *)
  itimer : list (Z * Z);          (* setitimer calls (value, interval),
                                     refused ones included *)
  received_signal : bool;         (* the global sig_atomic_t *)
  errno_EINTR : bool;             (* errno == EINTR *)
  ring : list byte                (* the queue behind [rb] *)
}.

Definition with_stdin (l : list byte) (w : world) : world :=
  World l (stdin_stat w) (sigaction_error w) (alarms w) (pauses w)
        (stdout_data w) (stderr_data w) (itimer w) (received_signal w)
        (errno_EINTR w) (ring w).

Definition with_alarms (l : list alarm) (w : world) : world :=
  World (stdin_data w) (stdin_stat w) (sigaction_error w) l (pauses w)
        (stdout_data w) (stderr_data w) (itimer w) (received_signal w)
        (errno_EINTR w) (ring w).

Definition with_pauses (n : nat) (w : world) : world :=
  World (stdin_data w) (stdin_stat w) (sigaction_error w) (alarms w) n
        (stdout_data w) (stderr_data w) (itimer w) (received_signal w)
        (errno_EINTR w) (ring w).

Definition with_stdout (l : list byte) (w : world) : world :=
  World (stdin_data w) (stdin_stat w) (sigaction_error w) (alarms w)
        (pauses w) l (stderr_data w) (itimer w) (received_signal w)
        (errno_EINTR w) (ring w).

Definition with_stderr (s : string) (w : world) : world :=
  World (stdin_data w) (stdin_stat w) (sigaction_error w) (alarms w)
        (pauses w) (stdout_data w) s (itimer w) (received_signal w)
        (errno_EINTR w) (ring w).

Definition with_itimer (l : list (Z * Z)) (w : world) : world :=
  World (stdin_data w) (stdin_stat w) (sigaction_error w) (alarms w)
        (pauses w) (stdout_data w) (stderr_data w) l (received_signal w)
        (errno_EINTR w) (ring w).

Definition with_signal (b : bool) (w : world) : world :=
  World (stdin_data w) (stdin_stat w) (sigaction_error w) (alarms w)
        (pauses w) (stdout_data w) (stderr_data w) (itimer w) b
        (errno_EINTR w) (ring w).

Definition with_errno (b : bool) (w : world) : world :=
  World (stdin_data w) (stdin_stat w) (sigaction_error w) (alarms w)
        (pauses w) (stdout_data w) (stderr_data w) (itimer w)
        (received_signal w) b (ring w).

Definition with_ring (l : list byte) (w : world) : world :=
  World (stdin_data w) (stdin_stat w) (sigaction_error w) (alarms w)
        (pauses w) (stdout_data w) (stderr_data w) (itimer w)
        (received_signal w) (errno_EINTR w) l.

(** How a computation stops without returning. *)
Inductive stop : Type :=
| Exited (status : Z)     (* exit (status) *)
| Aborted                 (* a failed assert *)
| Blocked                 (* pause () that never returns *)
| OutOfFuel.              (* the loop bound of the model ran out *)

Inductive outcome (A : Type) : Type :=
| Ret (a : A) (w : world)
| Stop (s : stop) (w : world).

Arguments Ret {A} a w.
Arguments Stop {A} s w.

Definition M (A : Type) : Type := world -> outcome A.

Definition ret {A} (a : A) : M A := fun w => Ret a w.

Definition bind {A B} (m : M A) (k : A -> M B) : M B :=
  fun w =>
    match m w with
    | Ret a w' => k a w'
    | Stop s w' => Stop s w'
    end.

Declare Scope prog_scope.
Delimit Scope prog_scope with prog.
Notation "x <- m ;; k" := (bind m (fun x => k))
  (at level 61, m at next level, right associativity) : prog_scope.
Notation "m ;; k" := (bind m (fun _ => k))
  (at level 61, right associativity) : prog_scope.
Notation "' p <- m ;; k" := (bind m (fun p => k))
  (at level 61, p pattern, m at next level, right associativity) : prog_scope.

(** The world an outcome ends in. *)
Definition final {A} (o : outcome A) : world :=
  match o with
  | Ret _ w | Stop _ w => w
  end.

(** *** Library calls *)

Definition exit {A} (status : Z) : M A := fun w => Stop (Exited status) w.

(** [assert (b)]. *)
Definition assert (b : bool) : M unit :=
  fun w => if b then Ret tt w else Stop Aborted w.

Definition newline : string := String (ascii_of_nat 10) EmptyString.

(** [fprintf (stderr, s)] and [fputs (s, stderr)]. *)
Definition eprint (s : string) : M unit :=
  fun w => Ret tt (with_stderr (stderr_data w ++ s) w).

(** [perror (name)]. *)
Definition perror (name msg : string) : M unit :=
  eprint (name ++ ": " ++ msg ++ newline).

(** The signal handler [handle] of the source: [received_signal = 1]. *)
Definition handle (w : world) : world := with_signal true w.

(** A [read] that completes: the next byte, or end of input.  [errno] is
    left as it is. *)
Definition read_byte : M (option byte) :=
  fun w =>
    match stdin_data w with
    | b :: bs => Ret (Some b) (with_stdin bs w)
    | [] => Ret None w
    end.

(** [getchar ()]: [Some b] for a byte, [None] for [EOF].  Once the
    schedule of alarms is used up no further signal arrives. *)
Definition getchar : M (option byte) :=
  fun w =>
    match alarms w with
    | [] => read_byte w
    | Quiet :: l => read_byte (with_alarms l w)
    | Pending :: l => read_byte (handle (with_alarms l w))
    | Interrupted :: l =>
        Ret None (with_errno true (handle (with_alarms l w)))
    end.

(** [putchar (c); fflush (stdout)]. *)
Definition putchar_flush (c : byte) : M unit :=
  fun w => Ret tt (with_stdout (stdout_data w ++ [c]) w).

(** [pause ()] returns (-1, with [errno = EINTR]) after the handler ran;
    when no tick comes any more it never returns. *)
Definition pause : M Z :=
  fun w =>
    match pauses w with
    | O => Stop Blocked w
    | S n => Ret (-1) (with_errno true (handle (with_pauses n w)))
    end.

(** A [struct timeval] with [tv_sec = 0] is in canonical form when its
    [tv_usec] lies in [0, 999999]. *)
Definition canonical_usec (usec : Z) : bool := (0 <=? usec) && (usec <=? 999999).

(** Whether the kernel takes the setting of a call. *)
Definition accepted (call : Z * Z) : bool :=
  canonical_usec (fst call) && canonical_usec (snd call).

(** The settings the timer has had: the calls of the trace that were not
    refused. *)
Definition armed (calls : list (Z * Z)) : list (Z * Z) := filter accepted calls.

(** [setitimer (ITIMER_REAL, &t, NULL)] with both [tv_sec = 0].  The call
    goes into the trace.  A setting that is not in canonical form is
    refused: the timer stays as it was (see [armed]) and [errno] becomes
    [EINVAL], hence is no longer [EINTR].  The program ignores the
    result. *)
Definition setitimer (value_usec interval_usec : Z) : M unit :=
  fun w =>
    Ret tt (with_errno (if accepted (value_usec, interval_usec)
                        then errno_EINTR w else false)
              (with_itimer (itimer w ++ [(value_usec, interval_usec)]) w)).

Definition get_signal : M bool := fun w => Ret (received_signal w) w.
Definition set_signal (b : bool) : M unit := fun w => Ret tt (with_signal b w).
Definition get_errno_EINTR : M bool := fun w => Ret (errno_EINTR w) w.
(** [errno = 0]. *)
Definition clear_errno : M unit := fun w => Ret tt (with_errno false w).

(** *** The queue of [ring-buffer.h] *)

(** Modelled from the spec: [ring-buffer.h] and its implementation
    ([rb_create], [rb_xpush], [rb_pop]) are not part of the sources.  The
    specification's GrowableByteQueue is a FIFO of unbounded capacity:
    push appends at the tail and never fails or discards, pop removes the
    head or answers the EMPTY marker ([EOF] in the program, [None] here). *)
Definition rb_create (size : Z) : M unit :=
  fun w => Ret tt (with_ring [] w).

(** Modelled from the spec: [rb_xpush], the push of the queue missing
    from the sources; it appends at the tail. *)
Definition rb_xpush (c : byte) : M unit :=
  fun w => Ret tt (with_ring (ring w ++ [c]) w).

(** Modelled from the spec: [rb_pop], the pop of the queue missing from
    the sources; it removes the head, or answers [None] for the EMPTY
    marker. *)
Definition rb_pop : M (option byte) :=
  fun w =>
    match ring w with
    | [] => Ret None w
    | b :: l => Ret (Some b) (with_ring l w)
    end.

End Sys.

(* ================================================================== *)
(** ** [strtoll] *)
(* ================================================================== *)

Module Libc.

Definition LLONG_MAX : Z := 2 ^ 63 - 1.
Definition LLONG_MIN : Z := - 2 ^ 63.

Definition isspace (c : ascii) : bool :=
  let n := Z.of_nat (nat_of_ascii c) in
  (n =? 32) || ((9 <=? n) && (n <=? 13)).

(** Value of a character as a digit in bases up to 36. *)
Definition digit_value (c : ascii) : option Z :=
  let n := Z.of_nat (nat_of_ascii c) in
  if (48 <=? n) && (n <=? 57) then Some (n - 48)
  else if (97 <=? n) && (n <=? 122) then Some (n - 87)
  else if (65 <=? n) && (n <=? 90) then Some (n - 55)
  else None.

Definition is_digit (base : Z) (c : ascii) : bool :=
  match digit_value c with
  | Some d => d <? base
  | None => false
  end.

Fixpoint skip_space (s : string) : string :=
  match s with
  | String c r => if isspace c then skip_space r else s
  | EmptyString => s
  end.

(** Longest run of digits of [base], accumulated into [acc]. *)
Fixpoint digits (base acc : Z) (s : string) : Z * string :=
  match s with
  | String c r =>
      match digit_value c with
      | Some d => if d <? base then digits base (acc * base + d) r
                  else (acc, s)
      | None => (acc, s)
      end
  | EmptyString => (acc, s)
  end.

(** [strtoll (s, &end, 0)] as the pair of the result and what [end] points
    to: optional white space, an optional sign, an optional [0x] or [0]
    prefix choosing the base, then digits; the result saturates at
    [LLONG_MIN] and [LLONG_MAX]; when there is no digit the result is 0 and
    [end] is the whole of [s]. *)
Definition strtoll (s : string) : Z * string :=
  let s1 := skip_space s in
  let '(neg, s2) :=
    match s1 with
    | String "-"%char r => (true, r)
    | String "+"%char r => (false, r)
    | _ => (false, s1)
    end in
  let '(base, s3) :=
    match s2 with
    | String "0"%char (String x (String h r)) =>
        if ((x =? "x")%char || (x =? "X")%char) && is_digit 16 h
        then (16, String h r) else (8, s2)
    | String "0"%char _ => (8, s2)
    | _ => (10, s2)
    end in
  match s3 with
  | String c _ =>
      if is_digit base c then
        let '(v, rest) := digits base 0 s3 in
        let v := if neg : bool then - v else v in
        (Z.max LLONG_MIN (Z.min LLONG_MAX v), rest)
      else (0, s)
  | EmptyString => (0, s)
  end.

End Libc.

(* ================================================================== *)
(** ** The program *)
(* ================================================================== *)

Module StreamBuffer.

Import Sys.
Local Open Scope string_scope.
Local Open Scope Z_scope.
Local Open Scope prog_scope.

Definition DELAY_SIZE : Z := 1024.
Definition STDIN_FILENO : Z := 0.

(** [size_t] arithmetic wraps at [2 ^ 64]. *)
Definition SIZE_MOD : Z := 2 ^ 64.

(** The literals [1.05] and [.95] are [double]s converted to the [float]
    parameter [resize_factor] at the call; [1e6] stays a [double]. *)
Definition factor_1_05 : Fp.dyadic := Fp.float_of_double (Fp.double_lit 105 100).
Definition factor_0_95 : Fp.dyadic := Fp.float_of_double (Fp.double_lit 95 100).
Definition double_1e6 : Fp.dyadic := Fp.double_lit 1000000 1.

Definition msg : list string :=
  [ "If given, the first argument must be an integer greater than 0";
    "and less than 1e6 which specifies the number of microseconds ";
    "between bytes of output." ].

Definition set_timer (value_usec interval_usec : Z) : M unit :=
  setitimer value_usec interval_usec.

Definition is_regular (fd : Z) (name : string) : M bool :=
  fun w =>
    match stdin_stat w with
    | FstatError e => (perror name e ;; exit 1) w
    | FstatMode isreg => Ret isreg w
    end.

(** [interval * resize_factor] is a [float] product of the converted
    [interval]; initialising the [long long] truncates it. *)
Definition scaled (interval : Z) (resize_factor : Fp.dyadic) : Z :=
  Fp.trunc (Fp.mul Fp.prec_float (Fp.of_Z Fp.prec_float interval) resize_factor).

Definition reset_timer (interval : Z) (resize_factor : Fp.dyadic) : M Z :=
  r <- is_regular STDIN_FILENO "stdin" ;;
  if r : bool then
    (* When the input stream is a regular file, we rely solely on the
       command line argument and do not adjust the timer. *)
    ret interval
  else
    let new_interval := scaled interval resize_factor in
    if new_interval <? 10 then
      eprint ("maximum output rate is 100KB/sec" ++ newline) ;; exit 1
    else if Fp.ltb double_1e6 (Fp.of_Z Fp.prec_double new_interval) then
      eprint ("minimum output rate is 1B/sec" ++ newline) ;; exit 1
    else
      set_timer new_interval new_interval ;;
      ret new_interval.

(** One turn of the first loop of [stream_data], after [getchar] gave [c]. *)
Definition stream_body (c : option byte) (interval bytes_buffered : Z)
  : M (Z * Z) :=
  sig <- get_signal ;;
  '(interval, bytes_buffered) <-
    (if sig : bool then
       let bytes_buffered := bytes_buffered - 1 in
       d <- rb_pop ;;
       interval <- match d with
                   | None => reset_timer interval factor_1_05
                   | Some b => putchar_flush b ;; ret interval
                   end ;;
       set_signal false ;;
       clear_errno ;;
       ret (interval, bytes_buffered)
     else ret (interval, bytes_buffered)) ;;
  bytes_buffered <-
    match c with
    | Some b => rb_xpush b ;; ret (bytes_buffered + 1)
    | None => ret bytes_buffered
    end ;;
  '(interval, bytes_buffered) <-
    (if DELAY_SIZE <? bytes_buffered then
       interval <- reset_timer interval factor_0_95 ;;
       ret (interval, 0)
     else ret (interval, bytes_buffered)) ;;
  if bytes_buffered <? - DELAY_SIZE then
    interval <- reset_timer interval factor_1_05 ;;
    ret (interval, 0)
  else ret (interval, bytes_buffered).

(** [while ((c = getchar ()) != EOF || errno == EINTR) { ... }]; the result
    is the pair of [interval] and [bytes_buffered] at the end. *)
Fixpoint stream_loop (fuel : nat) (interval bytes_buffered : Z) : M (Z * Z) :=
  match fuel with
  | O => fun w => Stop OutOfFuel w
  | S fuel =>
      c <- getchar ;;
      e <- get_errno_EINTR ;;
      match c, e with
      | None, false => ret (interval, bytes_buffered)
      | _, _ =>
          '(interval, bytes_buffered) <- stream_body c interval bytes_buffered ;;
          stream_loop fuel interval bytes_buffered
      end
  end.

(** [while (pause () && errno == EINTR && (c = rb_pop (rb)) != EOF) { ... }] *)
Fixpoint drain_loop (fuel : nat) : M unit :=
  match fuel with
  | O => fun w => Stop OutOfFuel w
  | S fuel =>
      r <- pause ;;
      if r =? 0 then ret tt
      else
        e <- get_errno_EINTR ;;
        if e : bool then
          c <- rb_pop ;;
          match c with
          | Some b => putchar_flush b ;; drain_loop fuel
          | None => ret tt
          end
        else ret tt
  end.

Definition stream_data (fuel : nat) (interval : Z) : M unit :=
  set_timer interval interval ;;
  clear_errno ;;
  stream_loop fuel interval 0 ;;
  (* input is finished, clear out the ring buffer *)
  clear_errno ;;
  drain_loop fuel.

Definition set_handler : M unit :=
  fun w =>
    match sigaction_error w with
    | Some e => (perror "sigaction" e ;; exit 1) w
    | None => Ret tt w
    end.

Fixpoint print_lines (m : list string) : M unit :=
  match m with
  | [] => ret tt
  | l :: m => eprint l ;; eprint newline ;; print_lines m
  end.

Definition parse_argument_for_interval (arg : string) : M Z :=
  let '(rv, rest) := Libc.strtoll arg in
  (if (rv <? 0) || (999999 <? rv) || negb (rest =? EmptyString)%string then
     eprint "Invalid argument.  " ;;
     print_lines msg
   else ret tt) ;;
  ret rv.

(** [while ((c = getchar ()) != EOF) { bytes_read += 1; rb_xpush (rb, c); }] *)
Fixpoint estimate_loop (fuel : nat) (bytes_read : Z) : M Z :=
  match fuel with
  | O => fun w => Stop OutOfFuel w
  | S fuel =>
      c <- getchar ;;
      match c with
      | Some b =>
          let bytes_read := (bytes_read + 1) mod SIZE_MOD in
          rb_xpush b ;;
          estimate_loop fuel bytes_read
      | None => ret bytes_read
      end
  end.

(** The first half of [estimate_input_rate], up to the end of its loop:
    the value is [bytes_read]. *)
Definition estimate_window (fuel : nat) : M Z :=
  (* Read one byte of data before starting the timer to allow for
     upstream initializations *)
  c <- getchar ;;
  match c with Some b => rb_xpush b | None => ret tt end ;;
  set_timer 999999 0 ;;
  clear_errno ;;
  estimate_loop fuel 0.

(** The second half: the checks on [bytes_read] and the division. *)
Definition estimate_result (bytes_read : Z) : M Z :=
  sig <- get_signal ;;
  (if negb sig || (bytes_read <? 1) then
     eprint ("not enough input to estimate data rate" ++ newline) ;; exit 1
   else ret tt) ;;
  e <- get_errno_EINTR ;;
  assert ((0 <? bytes_read) || e) ;;
  set_signal false ;;
  (if 999999 <? bytes_read then
     eprint ("input data rate is too high" ++ newline) ;; exit 1
   else ret tt) ;;
  ret (Fp.trunc (Fp.div Fp.prec_double double_1e6
                        (Fp.of_Z Fp.prec_double bytes_read))).

Definition estimate_input_rate (fuel : nat) : M Z :=
  bytes_read <- estimate_window fuel ;;
  estimate_result bytes_read.

(** [while (count-- > 0 && (c = getchar ()) != EOF) rb_xpush (rb, c);] *)
Fixpoint read_loop (count : nat) : M unit :=
  match count with
  | O => ret tt
  | S count =>
      c <- getchar ;;
      match c with
      | Some b => rb_xpush b ;; read_loop count
      | None => ret tt
      end
  end.

(** [count] is computed before the asserts; for [interval = 0] the C
    division gives an infinity whose conversion is undefined, and the
    value is never used since the first assert fails. *)
Definition read_one_second (interval : Z) : M unit :=
  let count :=
    Fp.trunc (Fp.add Fp.prec_double
                (Fp.div Fp.prec_double double_1e6
                        (Fp.of_Z Fp.prec_double interval))
                (Fp.of_Z Fp.prec_double 1)) in
  assert (0 <? interval) ;;
  assert (Fp.ltb (Fp.of_Z Fp.prec_double interval) double_1e6) ;;
  read_loop (Z.to_nat count).

Definition main (fuel : nat) (argv : list string) : M Z :=
  rb_create 2048 ;;
  set_handler ;;
  interval <-
    match argv with
    | _ :: arg :: _ =>
        interval <- parse_argument_for_interval arg ;;
        read_one_second interval ;;
        ret interval
    | _ =>
        r <- is_regular STDIN_FILENO "stdin" ;;
        if r : bool then
          eprint "Interval *must* be given if reading from " ;;
          eprint ("a regular file!!" ++ newline) ;;
          exit 1
        else estimate_input_rate fuel
    end ;;
  stream_data fuel interval ;;
  ret 0.

End StreamBuffer.

(* ================================================================== *)
(** ** Predicates and sample states for the theorems *)
(* ================================================================== *)

Module Spec.

Import Sys StreamBuffer.

(** *** Outcomes *)

(** [wp m Q E w]: run from [w], [m] returns a value and a state in [Q] or
    stops in a way and a state in [E]. *)
Definition wp {A} (m : M A) (Q : A -> world -> Prop) (E : stop -> world -> Prop)
  (w : world) : Prop :=
  match m w with
  | Ret a w' => Q a w'
  | Stop s w' => E s w'
  end.

(** What [reset_timer] leaves as it is: all but stderr and the timer;
    [errno] stays, or stops being [EINTR] when the setting is refused. *)
Definition frame (w w' : world) : Prop :=
  stdin_data w' = stdin_data w /\ stdin_stat w' = stdin_stat w /\
  alarms w' = alarms w /\ pauses w' = pauses w /\
  stdout_data w' = stdout_data w /\ received_signal w' = received_signal w /\
  (errno_EINTR w' = errno_EINTR w \/ errno_EINTR w' = false) /\
  ring w' = ring w.

(** The bytes in flight are untouched. *)
Definition same_data (w w' : world) : Prop :=
  stdin_data w' = stdin_data w /\ stdout_data w' = stdout_data w /\
  ring w' = ring w.

(** What the environment answers stays the same. *)
Definition same_env (w w' : world) : Prop :=
  stdin_stat w' = stdin_stat w /\ pauses w' = pauses w.

(** *** Order of the bytes *)

(** The byte [getchar] just returned, if any. *)
Definition opt_list (c : option byte) : list byte :=
  match c with Some b => [b] | None => [] end.

(** [T] is the whole stream: what is written, then what is queued, then
    what is still to be read. *)
Definition inv (T : list byte) (w : world) : Prop :=
  stdout_data w ++ ring w ++ stdin_data w = T.

(** What is written is a prefix of [T]. *)
Definition emitted_prefix (T : list byte) (w : world) : Prop :=
  exists rest, stdout_data w ++ rest = T.

(** [m] keeps [inv] when it returns, and a prefix on stdout when it
    stops. *)
Definition keeps (T : list byte) {A} (m : M A) : Prop :=
  forall w, inv T w ->
    wp m (fun _ w' => inv T w') (fun _ w' => emitted_prefix T w') w.

(** *** Progress *)

(** Standard input is a regular file. *)
Definition regular (w : world) : Prop := stdin_stat w = FstatMode true.

(** What the environment still holds for [getchar]. *)
Definition pending_reads (w : world) : nat :=
  List.length (alarms w) + List.length (stdin_data w).

(** The same, with the bytes already queued. *)
Definition in_flight (w : world) : nat :=
  pending_reads w + List.length (ring w).

(** The only stop inside the first loop of [stream_data] is the exit of a
    rescale, and that needs a source that is not a regular file. *)
Definition stops_live (w : world) (s : stop) (w' : world) : Prop :=
  s = Exited 1 /\ ~ regular w.

(** One turn of the first loop of [stream_data]. *)
Definition body_post (c : option byte) (interval : Z) (w : world)
  (r : Z * Z) (w' : world) : Prop :=
  same_env w w' /\ alarms w' = alarms w /\ stdin_data w' = stdin_data w /\
  (List.length (ring w') <= List.length (ring w) + List.length (opt_list c))%nat /\
  ((errno_EINTR w = true -> received_signal w = true) -> errno_EINTR w' = false) /\
  (regular w -> fst r = interval /\ itimer w' = itimer w).

(** The whole first loop. *)
Definition loop_post (interval : Z) (w : world) (r : Z * Z) (w' : world) : Prop :=
  same_env w w' /\ stdin_data w' = [] /\
  (List.length (ring w') <= List.length (ring w) + List.length (stdin_data w))%nat /\
  (regular w -> fst r = interval /\ itimer w' = itimer w).

(** How [stream_data] can stop: a rescale of a live source exits, or the
    ticks run out while bytes are queued. *)
Definition stream_stops (w : world) (s : stop) : Prop :=
  (s = Exited 1 /\ ~ regular w) \/
  (s = Blocked /\
   (pauses w <= List.length (ring w) + List.length (stdin_data w))%nat).

(** [m] does not stop for lack of fuel, and adds nothing to what is in
    flight. *)
Definition fueled {A} (m : M A) (w : world) : Prop :=
  wp m (fun _ w' => (in_flight w' <= in_flight w)%nat)
       (fun s _ => s <> OutOfFuel) w.

Local Open Scope string_scope.
Local Open Scope Z_scope.

(** *** What the program writes to stderr *)

Definition low_msg : string := "not enough input to estimate data rate" ++ newline.
Definition high_msg : string := "input data rate is too high" ++ newline.
Definition fast_msg : string := "maximum output rate is 100KB/sec" ++ newline.
Definition slow_msg : string := "minimum output rate is 1B/sec" ++ newline.

(** The lines of [msg], each followed by a newline. *)
Fixpoint lines_text (m : list string) : string :=
  match m with
  | [] => EmptyString
  | l :: m => l ++ newline ++ lines_text m
  end.

(** What the parser writes for an argument it rejects. *)
Definition usage_text : string := "Invalid argument.  " ++ lines_text msg.

(** The process exits with status 1 after writing [msg] to stderr. *)
Definition fatal_with (msg : string) (w : world) (o : outcome Z) : Prop :=
  exists w', o = Stop (Exited 1) w' /\ stderr_data w' = stderr_data w ++ msg.

(** *** The words of the specification *)

(** Modelled on the words of the specification, not on the source:
    [rescale] as [round (current_interval * factor)]. *)
Definition spec_rescale (interval : Z) (factor : Fp.dyadic) : Z :=
  Fp.round_half_away
    (Fp.mul Fp.prec_float (Fp.of_Z Fp.prec_float interval) factor).

(** *** Sample states *)

(** A process about to enter [main]: nothing written, no timer armed. *)
Definition start_world (input : list byte) (stat : fstat_result)
  (sched : list alarm) (ticks : nat) : world :=
  World input stat None sched ticks [] EmptyString [] false false [].

(** A pipe with nothing in it. *)
Definition live_world : world := start_world [] (FstatMode false) [] 0.

(** A pipe that delivers four bytes: three before the sampling window
    expires, the fourth along with a tick; one more tick interrupts the
    next read, then the input ends and five ticks are left to drain. *)
Definition paced_live_world : world :=
  start_world [x61; x62; x63; x64] (FstatMode false)
              [Quiet; Quiet; Quiet; Interrupted; Pending; Interrupted] 5.

(** The same pipe up to the end of the sampling window. *)
Definition sampled_world : world :=
  start_world [x61; x62; x63; x64] (FstatMode false)
              [Quiet; Quiet; Quiet; Interrupted] 0.

(** A regular file of three bytes; a tick interrupts the first read,
    another comes with the second, and four are left to drain. *)
Definition regular_world : world :=
  start_world [x61; x62; x63] (FstatMode true) [Interrupted; Pending] 4.

End Spec.

(* ================================================================== *)
(** ** Further predicates *)
(* ================================================================== *)

Module Props.

Import Sys StreamBuffer Spec.

(** *** Signals and pacing *)

(** A schedule entry that delivers SIGALRM. *)
Definition is_tick (a : alarm) : bool :=
  match a with Quiet => false | Pending | Interrupted => true end.

(** The signals the environment has still to deliver. *)
Definition signals_to_come (w : world) : nat :=
  List.length (filter is_tick (alarms w)) + pauses w.

(** The same, with the one delivered and not yet served. *)
Definition ticks_left (w : world) : nat :=
  signals_to_come w + (if received_signal w then 1 else 0).

(** No byte is written without a tick to pay for it. *)
Definition paced (w w' : world) : Prop :=
  (List.length (stdout_data w') + ticks_left w' <=
   List.length (stdout_data w) + ticks_left w)%nat.

(** No entry of the schedule interrupts a read. *)
Definition uninterrupted (l : list alarm) : bool :=
  forallb (fun a => match a with Interrupted => false | _ => true end) l.

(** *** The timer *)

(** The calls of [set_timer] that may follow [interval]: each is periodic,
    asks for the one before rescaled by 1.05 or by 0.95, and lies in
    [10, 1000000].  Which of them the kernel takes is [Sys.armed]. *)
Fixpoint rescale_chain (interval : Z) (l : list (Z * Z)) : bool :=
  match l with
  | [] => true
  | (value, period) :: l =>
      (value =? period)%Z &&
      ((value =? scaled interval factor_1_05)%Z ||
       (value =? scaled interval factor_0_95)%Z) &&
      (10 <=? value)%Z && (value <=? 1000000)%Z &&
      rescale_chain value l
  end.

(** The interval the program holds after the calls [l]. *)
Definition last_interval (interval : Z) (l : list (Z * Z)) : Z :=
  last (map fst l) interval.

(** *** A stalled source *)

(** A lower bound of the interval after one slow-down from [i >= 20]: it
    grows by at least 1, and to more than [21 * i / 20 - 2]. *)
Definition slow_down_floor (i : Z) : Z := Z.max (i + 1) ((21 * i - 20) / 20).

(** Slow-downs in a row that no interval from 20 up survives. *)
Definition stall_limit : nat := 253.

(** *** The argument *)

(** The character of a digit and the numeral of a list of digits, most
    significant first. *)
Definition digit_char (d : nat) : ascii := ascii_of_nat (48 + d).

Fixpoint digits_string (ds : list nat) : string :=
  match ds with
  | [] => EmptyString
  | d :: ds => String (digit_char d) (digits_string ds)
  end.

(** The number a numeral denotes in [base]. *)
Definition digits_value (base : Z) (ds : list nat) : Z :=
  fold_left (fun acc d => acc * base + Z.of_nat d)%Z ds 0%Z.

(** *** Fatal exits *)

Local Open Scope string_scope.

Definition regular_msg : string :=
  "Interval *must* be given if reading from " ++ "a regular file!!" ++ newline.

(** [s] ends with [suffix]. *)
Definition ends_with (suffix s : string) : Prop := exists pre, s = pre ++ suffix.

(** The last thing on stderr is one of the diagnostics of the program:
    a message of its own, or [perror]'s line for the system call that
    failed. *)
Definition diagnosed (w : world) : Prop :=
  ends_with low_msg (stderr_data w) \/ ends_with high_msg (stderr_data w) \/
  ends_with fast_msg (stderr_data w) \/ ends_with slow_msg (stderr_data w) \/
  ends_with regular_msg (stderr_data w) \/
  (exists e, sigaction_error w = Some e /\
             ends_with ("sigaction: " ++ e ++ newline) (stderr_data w)) \/
  (exists e, stdin_stat w = FstatError e /\
             ends_with ("stdin: " ++ e ++ newline) (stderr_data w)).

(** How the functions other than [read_one_second] may stop: with exit
    status 1 after a diagnostic, or for lack of ticks or fuel; never on a
    failed assert. *)
Definition fatal_ok (s : stop) (w : world) : Prop :=
  match s with
  | Exited status => status = 1%Z /\ diagnosed w
  | Aborted => False
  | Blocked | OutOfFuel => True
  end.

(** [m] stops only in those ways. *)
Definition loud {A} (m : M A) : Prop :=
  forall w, wp m (fun _ _ => True) fatal_ok w.

End Props.

(* ================================================================== *)
(** ** Facts on the floating-point arithmetic *)
(* ================================================================== *)

Module FpFacts.

Import Fp StreamBuffer.

(** The rounded quotient is within half a unit of the exact one. *)
Lemma dne_bounds (n dn : Z) :
  0 < dn ->
  - dn <= 2 * (div_nearest_even n dn * dn - n) <= dn.
Proof.
  intros Hdn. unfold div_nearest_even.
  pose proof (Z.div_mod n dn ltac:(lia)) as Hn.
  pose proof (Z.mod_pos_bound n dn Hdn) as Hr.
  destruct (2 * (n mod dn) <? dn) eqn:E1; [apply Z.ltb_lt in E1; nia|].
  apply Z.ltb_ge in E1.
  destruct (dn <? 2 * (n mod dn)) eqn:E2; [apply Z.ltb_lt in E2; nia|].
  apply Z.ltb_ge in E2.
  destruct (Z.even (n / dn)); nia.
Qed.

Lemma dne_nonneg (n dn : Z) : 0 <= n -> 0 < dn -> 0 <= div_nearest_even n dn.
Proof.
  intros Hn Hdn. unfold div_nearest_even.
  pose proof (Z.div_pos n dn Hn Hdn).
  repeat match goal with |- context [if ?c then _ else _] => destruct c end; lia.
Qed.

Lemma dne_lower (n dn : Z) : 0 < dn -> n / dn <= div_nearest_even n dn.
Proof.
  intros Hdn. unfold div_nearest_even.
  repeat match goal with |- context [if ?c then _ else _] => destruct c end; lia.
Qed.

Lemma dne_one (n : Z) : div_nearest_even n 1 = n.
Proof.
  unfold div_nearest_even. rewrite Z.div_1_r, Z.mod_1_r. reflexivity.
Qed.

(** Rounding sees the fraction, not its representation. *)
Lemma dne_scale (n dn g : Z) :
  0 < dn -> 0 < g ->
  div_nearest_even (n * g) (dn * g) = div_nearest_even n dn.
Proof.
  intros Hdn Hg. unfold div_nearest_even.
  rewrite Z.div_mul_cancel_r by lia.
  rewrite Z.mul_mod_distr_r by lia.
  replace (2 * (n mod dn * g) <? dn * g) with (2 * (n mod dn) <? dn).
  2:{ apply eq_true_iff_eq. rewrite !Z.ltb_lt. nia. }
  replace (dn * g <? 2 * (n mod dn * g)) with (dn <? 2 * (n mod dn)).
  2:{ apply eq_true_iff_eq. rewrite !Z.ltb_lt. nia. }
  reflexivity.
Qed.

Lemma scale_nonneg (a b e : Z) : 0 <= e -> scale a b e = (a, b * 2 ^ e).
Proof. intros H. unfold scale. apply Z.leb_le in H. now rewrite H. Qed.

Lemma scale_neg (a b e : Z) : e < 0 -> scale a b e = (a * 2 ^ (- e), b).
Proof. intros H. unfold scale. apply Z.leb_gt in H. now rewrite H. Qed.

Lemma scale_scale2 (a b e j : Z) :
  0 <= j ->
  scale (a * 2 ^ j) (b * 2 ^ j) e =
  (fst (scale a b e) * 2 ^ j, snd (scale a b e) * 2 ^ j).
Proof.
  intros Hj. unfold scale. destruct (0 <=? e); simpl; f_equal; ring.
Qed.

Lemma scale_pos (a b e : Z) :
  0 < a -> 0 < b -> 0 < fst (scale a b e) /\ 0 < snd (scale a b e).
Proof.
  intros Ha Hb. unfold scale. destruct (0 <=? e) eqn:E; simpl.
  - apply Z.leb_le in E. pose proof (Z.pow_pos_nonneg 2 e). nia.
  - apply Z.leb_gt in E. pose proof (Z.pow_pos_nonneg 2 (- e)). nia.
Qed.

(** A common power of two changes neither the exponent nor the rounding. *)
Lemma ilog2_scale2 (a b j : Z) :
  0 < a -> 0 < b -> 0 <= j -> ilog2 (a * 2 ^ j) (b * 2 ^ j) = ilog2 a b.
Proof.
  intros Ha Hb Hj. unfold ilog2.
  rewrite !Z.log2_mul_pow2 by lia.
  replace (j + Z.log2 a - (j + Z.log2 b)) with (Z.log2 a - Z.log2 b) by ring.
  rewrite scale_scale2 by lia.
  destruct (scale a b (Z.log2 a - Z.log2 b)) as [n dn] eqn:E. simpl.
  replace (n * 2 ^ j <? dn * 2 ^ j) with (n <? dn); [reflexivity|].
  apply eq_true_iff_eq. rewrite !Z.ltb_lt.
  pose proof (Z.pow_pos_nonneg 2 j). nia.
Qed.

Lemma rnd_scale2 (p a b j : Z) :
  0 < a -> 0 < b -> 0 <= j -> rnd p (a * 2 ^ j) (b * 2 ^ j) = rnd p a b.
Proof.
  intros Ha Hb Hj. unfold rnd.
  pose proof (Z.pow_pos_nonneg 2 j ltac:(lia) Hj) as Hp.
  replace (a * 2 ^ j =? 0) with (a =? 0).
  2:{ apply eq_true_iff_eq. rewrite !Z.eqb_eq. nia. }
  destruct (a =? 0); [reflexivity|].
  rewrite (Z.abs_eq a), (Z.abs_eq (a * 2 ^ j)) by nia.
  rewrite ilog2_scale2 by lia.
  rewrite scale_scale2 by lia.
  pose proof (scale_pos a b (ilog2 a b - (p - 1)) Ha Hb) as [Hn Hd].
  destruct (scale a b (ilog2 a b - (p - 1))) as [n dn]. simpl in *.
  rewrite dne_scale by lia.
  rewrite !Z.sgn_pos by nia. reflexivity.
Qed.

(** [ilog2] is the exponent of the binade of [a / b], for [a / b >= 1]. *)
Lemma ilog2_spec (a b : Z) :
  0 < b <= a ->
  0 <= ilog2 a b /\ b * 2 ^ ilog2 a b <= a < 2 * (b * 2 ^ ilog2 a b).
Proof.
  intros [Hb Hab]. unfold ilog2.
  pose proof (Z.log2_spec a ltac:(lia)) as [La Ua].
  pose proof (Z.log2_spec b Hb) as [Lb Ub].
  pose proof (Z.log2_le_mono b a Hab) as Hmono.
  pose proof (Z.log2_nonneg b) as Hnb.
  set (la := Z.log2 a) in *. set (lb := Z.log2 b) in *.
  assert (Hd : 0 <= la - lb) by lia.
  rewrite scale_nonneg by lia.
  assert (E2 : 2 ^ la = 2 ^ lb * 2 ^ (la - lb)).
  { rewrite <- Z.pow_add_r by lia. f_equal. ring. }
  replace (Z.succ la) with (la + 1) in Ua by lia.
  replace (Z.succ lb) with (lb + 1) in Ub by lia.
  rewrite Z.pow_add_r in Ua, Ub by lia. change (2 ^ 1) with 2 in *.
  pose proof (Z.pow_pos_nonneg 2 (la - lb) ltac:(lia) Hd) as Hpd.
  pose proof (Z.pow_pos_nonneg 2 lb ltac:(lia) Hnb) as Hpb.
  destruct (a <? b * 2 ^ (la - lb)) eqn:E.
  - apply Z.ltb_lt in E.
    assert (Hd1 : 1 <= la - lb).
    { destruct (Z.eq_dec (la - lb) 0) as [Z0|]; [|lia].
      rewrite Z0 in E. change (2 ^ 0) with 1 in E. lia. }
    assert (E3 : 2 ^ (la - lb) = 2 * 2 ^ (la - lb - 1)).
    { replace (la - lb) with (1 + (la - lb - 1)) at 1 by ring.
      rewrite Z.pow_add_r by lia. reflexivity. }
    pose proof (Z.pow_pos_nonneg 2 (la - lb - 1) ltac:(lia) ltac:(lia)).
    split; [lia|]. nia.
  - apply Z.ltb_ge in E. split; [lia|]. nia.
Qed.

(** Rounding a positive fraction, unfolded. *)
Lemma rnd_pos (p a b : Z) :
  0 < a -> 0 < b ->
  rnd p a b =
  Dy (div_nearest_even (fst (scale a b (ilog2 a b - (p - 1))))
                       (snd (scale a b (ilog2 a b - (p - 1)))))
     (ilog2 a b - (p - 1)).
Proof.
  intros Ha Hb. unfold rnd.
  destruct (a =? 0) eqn:E; [apply Z.eqb_eq in E; lia|].
  rewrite Z.abs_eq, Z.sgn_pos by lia.
  destruct (scale a b (ilog2 a b - (p - 1))) as [n dn]. cbn [fst snd].
  now rewrite Z.mul_1_l.
Qed.

Lemma ilog2_int (n : Z) : 0 < n -> ilog2 n 1 = Z.log2 n.
Proof.
  intros Hn. unfold ilog2. change (Z.log2 1) with 0. rewrite Z.sub_0_r.
  pose proof (Z.log2_nonneg n). rewrite scale_nonneg by lia.
  pose proof (Z.log2_spec n Hn) as [L _].
  destruct (n <? 1 * 2 ^ Z.log2 n) eqn:E; [apply Z.ltb_lt in E; lia|reflexivity].
Qed.

(** An integer below [2 ^ p] converts exactly. *)
Lemma of_Z_small (p n : Z) :
  0 < n < 2 ^ p -> 0 < p ->
  of_Z p n = Dy (n * 2 ^ (p - 1 - Z.log2 n)) (Z.log2 n - (p - 1)).
Proof.
  intros [Hn Hp] Hp0. unfold of_Z. rewrite rnd_pos by lia.
  rewrite ilog2_int by lia.
  assert (Hl : Z.log2 n < p) by (apply Z.log2_lt_pow2; lia).
  pose proof (Z.log2_nonneg n).
  destruct (Z.eq_dec (Z.log2 n) (p - 1)) as [E|E].
  - rewrite E. replace (p - 1 - (p - 1)) with 0 by ring.
    rewrite scale_nonneg by lia. cbn [fst snd].
    change (2 ^ 0) with 1. rewrite Z.mul_1_r, dne_one. f_equal. ring.
  - rewrite scale_neg by lia. cbn [fst snd]. rewrite dne_one. do 3 f_equal. ring.
Qed.

(** The sign of the fraction is the sign of the result. *)
Lemma rnd_opp_mant (p a b : Z) : a < 0 -> 0 < b -> mant (rnd p a b) <= 0.
Proof.
  intros Ha Hb. unfold rnd.
  destruct (a =? 0) eqn:E; [simpl; lia|].
  pose proof (scale_pos (Z.abs a) b (ilog2 (Z.abs a) b - (p - 1)) ltac:(lia) Hb) as [Hn Hd].
  destruct (scale (Z.abs a) b (ilog2 (Z.abs a) b - (p - 1))) as [n dn].
  cbn [fst snd mant] in *.
  pose proof (dne_nonneg n dn ltac:(lia) Hd).
  rewrite Z.sgn_neg by lia. lia.
Qed.

(** An integer from [2 ^ p] on converts to a normalised significand. *)
Lemma of_Z_large (p n : Z) :
  0 < p -> 2 ^ p <= n ->
  1 <= expo (of_Z p n) /\ 2 ^ (p - 1) <= mant (of_Z p n).
Proof.
  intros Hp Hn.
  pose proof (Z.pow_pos_nonneg 2 p ltac:(lia) ltac:(lia)) as Hpp.
  unfold of_Z. rewrite rnd_pos by lia. rewrite ilog2_int by lia.
  assert (Hl : p <= Z.log2 n) by (apply Z.log2_le_pow2; lia).
  rewrite scale_nonneg by lia. cbn [fst snd mant expo]. split; [lia|].
  rewrite Z.mul_1_l.
  etransitivity; [|apply dne_lower].
  2:{ pose proof (Z.pow_pos_nonneg 2 (Z.log2 n - (p - 1))). lia. }
  apply Z.div_le_lower_bound.
  { pose proof (Z.pow_pos_nonneg 2 (Z.log2 n - (p - 1))). lia. }
  rewrite <- Z.pow_add_r by lia.
  replace (Z.log2 n - (p - 1) + (p - 1)) with (Z.log2 n) by ring.
  apply Z.log2_spec. lia.
Qed.

Lemma double_1e6_eq : double_1e6 = Dy (1000000 * 2 ^ 33) (-33).
Proof. vm_compute. reflexivity. Qed.

(** [(double) n > 1e6] is the comparison of the integers. *)
Lemma gt_1e6 (n : Z) :
  ltb double_1e6 (of_Z prec_double n) = (1000000 <? n).
Proof.
  rewrite double_1e6_eq. unfold prec_double.
  destruct (Z_lt_le_dec 0 n) as [Hpos|Hneg].
  - destruct (Z_lt_le_dec n (2 ^ 53)) as [Hs|Hl].
    + rewrite of_Z_small by lia. unfold ltb. cbn [mant expo].
      assert (Hlog : Z.log2 n < 53) by (apply Z.log2_lt_pow2; lia).
      pose proof (Z.log2_nonneg n).
      set (s := 53 - 1 - Z.log2 n).
      replace (Z.log2 n - (53 - 1)) with (- s) by (unfold s; ring).
      assert (Hs0 : 0 <= s <= 52) by (unfold s; lia).
      apply eq_true_iff_eq. rewrite !Z.ltb_lt.
      destruct (Z_le_gt_dec s 33).
      * rewrite Z.min_l by lia.
        replace (-33 - -33) with 0 by ring.
        replace (- s - -33) with (33 - s) by ring.
        change (2 ^ 0) with 1.
        replace (n * 2 ^ s * 2 ^ (33 - s)) with (n * 2 ^ 33).
        2:{ rewrite <- Z.mul_assoc, <- Z.pow_add_r by lia. do 2 f_equal. ring. }
        lia.
      * rewrite Z.min_r by lia.
        replace (- s - - s) with 0 by ring.
        replace (-33 - - s) with (s - 33) by ring.
        change (2 ^ 0) with 1.
        replace (1000000 * 2 ^ 33 * 2 ^ (s - 33)) with (1000000 * 2 ^ s).
        2:{ rewrite <- Z.mul_assoc, <- Z.pow_add_r by lia. do 2 f_equal. ring. }
        pose proof (Z.pow_pos_nonneg 2 s ltac:(lia) ltac:(lia)) as Hps.
        rewrite Z.mul_1_r. symmetry. apply Z.mul_lt_mono_pos_r. exact Hps.
    + pose proof (of_Z_large 53 n ltac:(lia) Hl) as [He Hm].
      unfold ltb. cbn [mant expo]. rewrite Z.min_l by lia.
      replace (-33 - -33) with 0 by ring. change (2 ^ 0) with 1.
      replace (expo (of_Z 53 n) - -33) with (expo (of_Z 53 n) + 33) by ring.
      rewrite Z.pow_add_r by lia.
      pose proof (Z.pow_le_mono_r 2 1 (expo (of_Z 53 n)) ltac:(lia) He).
      change (2 ^ 1) with 2 in *.
      transitivity true; [|symmetry; apply Z.ltb_lt; lia].
      apply Z.ltb_lt.
      assert (2 ^ (53 - 1) * 2 * 2 ^ 33 <= mant (of_Z 53 n) * (2 ^ expo (of_Z 53 n) * 2 ^ 33)).
      { pose proof (Z.pow_pos_nonneg 2 33 ltac:(lia) ltac:(lia)). nia. }
      change (2 ^ (53 - 1) * 2 * 2 ^ 33) with 77371252455336267181195264 in *. lia.
  - transitivity false; [|symmetry; apply Z.ltb_ge; lia].
    apply Z.ltb_ge. unfold ltb. cbn [mant expo].
    assert (Hm : mant (of_Z 53 n) <= 0 /\ (n = 0 -> expo (of_Z 53 n) = 0)).
    { destruct (Z.eq_dec n 0) as [->|]; [vm_compute; split; [discriminate|reflexivity]|].
      split; [apply rnd_opp_mant; lia|lia]. }
    destruct Hm as [Hm _].
    set (e := Z.min (-33) (expo (of_Z 53 n))).
    assert (0 <= -33 - e) by (unfold e; lia).
    assert (0 <= expo (of_Z 53 n) - e) by (unfold e; lia).
    pose proof (Z.pow_pos_nonneg 2 (-33 - e) ltac:(lia) ltac:(lia)).
    pose proof (Z.pow_pos_nonneg 2 (expo (of_Z 53 n) - e) ltac:(lia) ltac:(lia)).
    nia.
Qed.

(** [(double) n < 1e06] is the comparison of the integers. *)
Lemma lt_1e6 (n : Z) :
  ltb (of_Z prec_double n) double_1e6 = (n <? 1000000).
Proof.
  rewrite double_1e6_eq. unfold prec_double.
  destruct (Z_lt_le_dec 0 n) as [Hpos|Hneg].
  - destruct (Z_lt_le_dec n (2 ^ 53)) as [Hs|Hl].
    + rewrite of_Z_small by lia. unfold ltb. cbn [mant expo].
      assert (Hlog : Z.log2 n < 53) by (apply Z.log2_lt_pow2; lia).
      pose proof (Z.log2_nonneg n).
      set (s := 53 - 1 - Z.log2 n).
      replace (Z.log2 n - (53 - 1)) with (- s) by (unfold s; ring).
      assert (Hs0 : 0 <= s <= 52) by (unfold s; lia).
      apply eq_true_iff_eq. rewrite !Z.ltb_lt.
      destruct (Z_le_gt_dec s 33).
      * rewrite Z.min_r by lia.
        replace (-33 - -33) with 0 by ring.
        replace (- s - -33) with (33 - s) by ring.
        change (2 ^ 0) with 1.
        replace (n * 2 ^ s * 2 ^ (33 - s)) with (n * 2 ^ 33).
        2:{ rewrite <- Z.mul_assoc, <- Z.pow_add_r by lia. do 2 f_equal. ring. }
        lia.
      * rewrite Z.min_l by lia.
        replace (- s - - s) with 0 by ring.
        replace (-33 - - s) with (s - 33) by ring.
        change (2 ^ 0) with 1.
        replace (1000000 * 2 ^ 33 * 2 ^ (s - 33)) with (1000000 * 2 ^ s).
        2:{ rewrite <- Z.mul_assoc, <- Z.pow_add_r by lia. do 2 f_equal. ring. }
        pose proof (Z.pow_pos_nonneg 2 s ltac:(lia) ltac:(lia)) as Hps.
        rewrite Z.mul_1_r. symmetry. apply Z.mul_lt_mono_pos_r. exact Hps.
    + pose proof (of_Z_large 53 n ltac:(lia) Hl) as [He Hm].
      unfold ltb. cbn [mant expo]. rewrite Z.min_r by lia.
      replace (-33 - -33) with 0 by ring. change (2 ^ 0) with 1.
      replace (expo (of_Z 53 n) - -33) with (expo (of_Z 53 n) + 33) by ring.
      rewrite Z.pow_add_r by lia.
      pose proof (Z.pow_le_mono_r 2 1 (expo (of_Z 53 n)) ltac:(lia) He).
      change (2 ^ 1) with 2 in *.
      change (2 ^ 53) with 9007199254740992 in Hl.
      transitivity false; [|symmetry; apply Z.ltb_ge; lia].
      apply Z.ltb_ge.
      assert (2 ^ (53 - 1) * 2 * 2 ^ 33 <= mant (of_Z 53 n) * (2 ^ expo (of_Z 53 n) * 2 ^ 33)).
      { pose proof (Z.pow_pos_nonneg 2 33 ltac:(lia) ltac:(lia)). nia. }
      change (2 ^ (53 - 1) * 2 * 2 ^ 33) with 77371252455336267181195264 in *. lia.
  - transitivity true; [|symmetry; apply Z.ltb_lt; lia].
    apply Z.ltb_lt. unfold ltb. cbn [mant expo].
    assert (Hm : mant (of_Z 53 n) <= 0).
    { destruct (Z.eq_dec n 0) as [->|]; [vm_compute; discriminate|].
      apply rnd_opp_mant; lia. }
    set (e := Z.min (expo (of_Z 53 n)) (-33)).
    assert (0 <= -33 - e) by (unfold e; lia).
    assert (0 <= expo (of_Z 53 n) - e) by (unfold e; lia).
    pose proof (Z.pow_pos_nonneg 2 (-33 - e) ltac:(lia) ltac:(lia)).
    pose proof (Z.pow_pos_nonneg 2 (expo (of_Z 53 n) - e) ltac:(lia) ltac:(lia)).
    nia.
Qed.


(** Truncating a rounded quotient below [2 ^ (p - 1)]: with
    [t = p - 1 - ilog2 a b] fractional bits, the integer part [N] is within
    half a unit in the last place of [a / b]. *)
Lemma trunc_rnd (p a b : Z) :
  0 < b <= a -> a < b * 2 ^ (p - 1) -> 0 < p ->
  let t := p - 1 - ilog2 a b in
  let N := trunc (rnd p a b) in
  0 < t <= p - 1 /\ 0 <= N /\
  2 * N * 2 ^ t * b <= 2 * a * 2 ^ t + b <= 2 * (N + 1) * 2 ^ t * b.
Proof.
  intros Hab Hlt Hp t N.
  pose proof (ilog2_spec a b Hab) as (Hl0 & Hlo & Hhi).
  assert (Hl : ilog2 a b < p - 1).
  { apply (Z.pow_lt_mono_r_iff 2); [lia|lia|].
    pose proof (Z.pow_pos_nonneg 2 (p - 1) ltac:(lia) ltac:(lia)).
    pose proof (Z.pow_pos_nonneg 2 (ilog2 a b) ltac:(lia) ltac:(lia)).
    nia. }
  assert (Ht : 0 < t <= p - 1) by (unfold t; lia).
  pose proof (Z.pow_pos_nonneg 2 t ltac:(lia) ltac:(lia)) as HP.
  assert (EN : N = div_nearest_even (a * 2 ^ t) b / 2 ^ t).
  { unfold N. rewrite rnd_pos by lia. rewrite scale_neg by lia.
    unfold trunc. cbn [fst snd mant expo].
    destruct (0 <=? ilog2 a b - (p - 1)) eqn:E; [apply Z.leb_le in E; lia|].
    replace (- (ilog2 a b - (p - 1))) with t by (unfold t; ring).
    apply Z.quot_div_nonneg; [|lia].
    apply dne_nonneg; nia. }
  set (m := div_nearest_even (a * 2 ^ t) b) in *.
  pose proof (dne_bounds (a * 2 ^ t) b ltac:(lia)) as Hm. fold m in Hm.
  assert (Hm0 : 0 <= m) by (apply dne_nonneg; nia).
  pose proof (Z.mul_div_le m (2 ^ t) HP) as HN1.
  pose proof (Z.mul_succ_div_gt m (2 ^ t) HP) as HN2.
  rewrite <- EN in HN1, HN2.
  assert (0 <= N) by (rewrite EN; apply Z.div_pos; lia).
  split; [exact Ht|]. split; [assumption|].
  split; nia.
Qed.

(** [1e6 / bytes_read] converted to an integer is the integer quotient. *)
Lemma div_1e6_floor (n : Z) :
  1 <= n <= 1000000 ->
  trunc (div prec_double double_1e6 (of_Z prec_double n)) = 1000000 / n.
Proof.
  intros Hn. unfold prec_double.
  assert (Hlog : Z.log2 n < 20) by (apply Z.log2_lt_pow2; lia).
  pose proof (Z.log2_nonneg n) as Hlog0.
  assert (E : div 53 double_1e6 (of_Z 53 n) = rnd 53 1000000 n).
  { rewrite double_1e6_eq, of_Z_small by lia.
    unfold div. cbn [mant expo].
    set (s := 53 - 1 - Z.log2 n).
    pose proof (Z.pow_pos_nonneg 2 s ltac:(unfold s; lia) ltac:(unfold s; lia)) as Hs.
    rewrite Z.abs_eq, Z.sgn_pos by nia.
    assert (Es : scale (1000000 * 2 ^ 33) (n * 2 ^ s) (Z.log2 n - (53 - 1) - -33)
                 = (1000000 * 2 ^ s, n * 2 ^ s)).
    { unfold scale. destruct (0 <=? Z.log2 n - (53 - 1) - -33) eqn:E0.
      - apply Z.leb_le in E0. assert (Z.log2 n = 19) as -> by lia.
        assert (s = 33) as -> by (unfold s; lia).
        change (2 ^ (19 - (53 - 1) - -33)) with 1. f_equal. ring.
      - apply Z.leb_gt in E0. f_equal.
        rewrite <- Z.mul_assoc, <- Z.pow_add_r by lia.
        do 2 f_equal. unfold s. ring. }
    rewrite Es. rewrite Z.mul_1_l.
    apply rnd_scale2; unfold s; lia. }
  rewrite E.
  pose proof (trunc_rnd 53 1000000 n ltac:(lia)) as H.
  assert (Hlt : 1000000 < n * 2 ^ (53 - 1)) by (change (2 ^ (53 - 1)) with 4503599627370496; lia).
  specialize (H Hlt ltac:(lia)). cbv zeta in H.
  destruct H as (Ht & HN0 & Hlo & Hhi).
  pose proof (ilog2_spec 1000000 n ltac:(lia)) as (Hl0 & Hl1 & _).
  set (l := ilog2 1000000 n) in *.
  assert (Hl : l < 20).
  { apply (Z.pow_lt_mono_r_iff 2); [lia|lia|].
    pose proof (Z.pow_pos_nonneg 2 l ltac:(lia) ltac:(lia)).
    change (2 ^ 20) with 1048576. nia. }
  set (t := 53 - 1 - l) in *.
  assert (HP : 2 ^ 33 <= 2 ^ t) by (apply Z.pow_le_mono_r; unfold t; lia).
  change (2 ^ 33) with 8589934592 in HP.
  set (P := 2 ^ t) in *.
  set (N := trunc (rnd 53 1000000 n)) in *.
  assert (U : N * n <= 1000000) by nia.
  assert (L : 1000000 < (N + 1) * n) by nia.
  apply Z.div_unique with (r := 1000000 - n * N); lia.
Qed.

Lemma factor_1_05_eq : factor_1_05 = Dy 8808038 (-23).
Proof. vm_compute. reflexivity. Qed.

Lemma factor_0_95_eq : factor_0_95 = Dy 15938355 (-24).
Proof. vm_compute. reflexivity. Qed.

(** The product of an interval below [2 ^ 24] with a float [c * 2 ^ - k]
    is one rounding of the exact product. *)
Lemma scaled_eq (i c k : Z) :
  0 < i < 2 ^ 24 -> 0 < c -> 0 <= k ->
  scaled i (Dy c (- k)) = trunc (rnd 24 (i * c) (2 ^ k)).
Proof.
  intros Hi Hc Hk. unfold scaled, prec_float.
  rewrite of_Z_small by lia.
  assert (Hlog : Z.log2 i < 24) by (apply Z.log2_lt_pow2; lia).
  pose proof (Z.log2_nonneg i) as Hlog0.
  set (u := 24 - 1 - Z.log2 i).
  unfold mul. cbn [mant expo].
  replace (- (Z.log2 i - (24 - 1) + - k)) with (u + k) by (unfold u; ring).
  rewrite scale_nonneg by (unfold u; lia).
  rewrite Z.mul_1_l, Z.pow_add_r by (unfold u; lia).
  replace (i * 2 ^ u * c) with (i * c * 2 ^ u) by ring.
  rewrite (Z.mul_comm (2 ^ u) (2 ^ k)).
  rewrite rnd_scale2; [reflexivity|nia| |unfold u; lia].
  apply Z.pow_pos_nonneg; lia.
Qed.

(** Rescaling by 1.05 truncates: the result is never above the exact
    product [21 * i / 20], and less than 2 below it. *)
Lemma scaled_1_05_bounds (i : Z) :
  1 <= i <= 1000000 ->
  20 * scaled i factor_1_05 <= 21 * i < 20 * (scaled i factor_1_05 + 2).
Proof.
  intros Hi. rewrite factor_1_05_eq.
  change (-23) with (- (23)).
  rewrite scaled_eq by (change (2 ^ 24) with 16777216; lia).
  change (2 ^ 23) with 8388608.
  pose proof (trunc_rnd 24 (i * 8808038) 8388608 ltac:(lia)) as H.
  change (2 ^ (24 - 1)) with 8388608 in H.
  specialize (H ltac:(lia) ltac:(lia)). cbv zeta in H.
  destruct H as (Ht & HN0 & Hlo & Hhi).
  pose proof (ilog2_spec (i * 8808038) 8388608 ltac:(lia)) as (Hl0 & Hl1 & _).
  set (l := ilog2 (i * 8808038) 8388608) in *.
  set (N := trunc (rnd 24 (i * 8808038) 8388608)) in *.
  assert (EP : 2 ^ (24 - 1 - l) * 2 ^ l = 8388608).
  { rewrite <- Z.pow_add_r by lia. replace (24 - 1 - l + l) with 23 by ring. reflexivity. }
  pose proof (Z.pow_pos_nonneg 2 l ltac:(lia) ltac:(lia)) as HL.
  pose proof (Z.pow_pos_nonneg 2 (24 - 1 - l) ltac:(lia) ltac:(lia)) as HP.
  set (P := 2 ^ (24 - 1 - l)) in *. set (Lw := 2 ^ l) in *.
  assert (U : 2 * N * 8388608 * 8388608 <= 2 * (i * 8808038) * 8388608 + 8388608 * Lw) by nia.
  assert (L : 2 * (i * 8808038) * 8388608 + 8388608 * Lw <= 2 * (N + 1) * 8388608 * 8388608) by nia.
  lia.
Qed.

Lemma scaled_0_95_bounds (i : Z) :
  1 <= i <= 1000000 ->
  20 * scaled i factor_0_95 <= 19 * i < 20 * (scaled i factor_0_95 + 2).
Proof.
  intros Hi.
  destruct (Z.eq_dec i 1) as [->|Hi1]; [vm_compute; split; [discriminate|reflexivity]|].
  rewrite factor_0_95_eq.
  change (-24) with (- (24)).
  rewrite scaled_eq by (change (2 ^ 24) with 16777216; lia).
  change (2 ^ 24) with 16777216.
  pose proof (trunc_rnd 24 (i * 15938355) 16777216 ltac:(lia)) as H.
  change (2 ^ (24 - 1)) with 8388608 in H.
  specialize (H ltac:(lia) ltac:(lia)). cbv zeta in H.
  destruct H as (Ht & HN0 & Hlo & Hhi).
  pose proof (ilog2_spec (i * 15938355) 16777216 ltac:(lia)) as (Hl0 & Hl1 & _).
  set (l := ilog2 (i * 15938355) 16777216) in *.
  set (N := trunc (rnd 24 (i * 15938355) 16777216)) in *.
  assert (EP : 2 ^ (24 - 1 - l) * 2 ^ l = 8388608).
  { rewrite <- Z.pow_add_r by lia. replace (24 - 1 - l + l) with 23 by ring. reflexivity. }
  pose proof (Z.pow_pos_nonneg 2 l ltac:(lia) ltac:(lia)) as HL.
  pose proof (Z.pow_pos_nonneg 2 (24 - 1 - l) ltac:(lia) ltac:(lia)) as HP.
  set (P := 2 ^ (24 - 1 - l)) in *. set (Lw := 2 ^ l) in *.
  assert (U : 2 * N * 8388608 * 16777216 <= 2 * (i * 15938355) * 8388608 + 16777216 * Lw) by nia.
  assert (L : 2 * (i * 15938355) * 8388608 + 16777216 * Lw <= 2 * (N + 1) * 8388608 * 16777216) by nia.
  lia.
Qed.


End FpFacts.

(* ================================================================== *)
(** ** Facts on the loops *)
(* ================================================================== *)

Module Facts.

Import Sys StreamBuffer Spec FpFacts.

(** ** Reasoning about outcomes *)

(** Sequencing and weakening. *)
Lemma wp_bind {A B} (m : M A) (k : A -> M B) Q E w :
  wp m (fun a w' => wp (k a) Q E w') E w -> wp (bind m k) Q E w.
Proof. unfold wp, bind. destruct (m w); auto. Qed.

Lemma wp_mono {A} (m : M A) (Q Q' : A -> world -> Prop) (E E' : stop -> world -> Prop) w :
  wp m Q E w ->
  (forall a w', Q a w' -> Q' a w') -> (forall s w', E s w' -> E' s w') ->
  wp m Q' E' w.
Proof. unfold wp. destruct (m w); auto. Qed.

Lemma frame_refl w : frame w w.
Proof. unfold frame. tauto. Qed.

(** [is_regular] exits on an [fstat] error and otherwise answers the mode. *)
Lemma is_regular_cases fd name w :
  (exists e, stdin_stat w = FstatError e /\
     is_regular fd name w = Stop (Exited 1) (with_stderr (stderr_data w ++ (name ++ ": " ++ e ++ newline)) w)) \/
  (exists r, stdin_stat w = FstatMode r /\ is_regular fd name w = Ret r w).
Proof.
  unfold is_regular. destruct (stdin_stat w) as [e|r]; [left|right]; eauto.
Qed.

Lemma reset_timer_frame interval f w :
  wp (reset_timer interval f) (fun _ w' => frame w w') (fun _ w' => frame w w') w.
Proof.
  unfold wp, reset_timer, bind.
  destruct (is_regular_cases STDIN_FILENO "stdin" w) as [(e & _ & ->)|(r & _ & ->)].
  - unfold frame. cbn. tauto.
  - destruct r; [apply frame_refl|].
    destruct (scaled interval f <? 10); [unfold frame; cbn; tauto|].
    destruct (Fp.ltb _ _); unfold frame; cbn; [tauto|].
    destruct (accepted _); tauto.
Qed.

(** ** Order preservation *)

Section Order.

Variable T : list byte.

Lemma inv_prefix w : inv T w -> emitted_prefix T w.
Proof. intros H. now exists (ring w ++ stdin_data w). Qed.

Lemma keeps_bind {A B} (m : M A) (k : A -> M B) :
  keeps T m -> (forall a, keeps T (k a)) -> keeps T (bind m k).
Proof.
  intros Hm Hk w Hw. apply wp_bind. eapply wp_mono; [apply Hm, Hw| |auto].
  intros a w' Hw'. apply Hk, Hw'.
Qed.

Lemma keeps_ret {A} (a : A) : keeps T (ret a).
Proof. intros w Hw. exact Hw. Qed.

Lemma keeps_same {A} (m : M A) :
  (forall w, wp m (fun _ w' => same_data w w') (fun _ w' => same_data w w') w) ->
  keeps T m.
Proof.
  intros H w Hw. eapply wp_mono; [apply H| |]; cbv beta.
  - intros _ w' (E1 & E2 & E3). unfold inv. now rewrite E1, E2, E3.
  - intros _ w' (E1 & E2 & E3). apply inv_prefix.
    unfold inv. now rewrite E1, E2, E3.
Qed.

(** [getchar] moves a byte out of the input, or none; [EOF] without
    [EINTR] means the input is exhausted. *)
Lemma getchar_spec w :
  inv T w ->
  wp getchar
     (fun c w' => stdout_data w' ++ ring w' ++ opt_list c ++ stdin_data w' = T /\
                  (c = None -> errno_EINTR w' = false -> stdin_data w' = []))
     (fun _ _ => False) w.
Proof.
  unfold inv, wp, getchar, read_byte.
  destruct (alarms w) as [|[] l]; cbn.
  1-3: destruct (stdin_data w) eqn:Es; cbn; rewrite ?Es; intros H;
       (split; [exact H|]); intros; congruence.
  intros H. split; [exact H|discriminate].
Qed.

(** One turn of the loop puts the byte just read into the queue and moves
    at most one byte from the queue to stdout. *)
Lemma stream_body_spec c interval bytes_buffered w :
  stdout_data w ++ ring w ++ opt_list c ++ stdin_data w = T ->
  wp (stream_body c interval bytes_buffered)
     (fun _ w' => inv T w' /\ stdin_data w' = stdin_data w)
     (fun _ w' => emitted_prefix T w') w.
Proof.
  intros H. unfold stream_body.
  apply wp_bind. unfold wp at 1. cbn [get_signal].
  apply wp_bind.
  assert (Hfirst :
    wp (if received_signal w
        then d <- rb_pop;;
             interval0 <- match d with
                          | Some b => putchar_flush b;; ret interval
                          | None => reset_timer interval factor_1_05
                          end;;
             set_signal false;; clear_errno;; ret (interval0, bytes_buffered - 1)
        else ret (interval, bytes_buffered))%prog
       (fun _ w' => stdout_data w' ++ ring w' ++ opt_list c ++ stdin_data w' = T /\
                    stdin_data w' = stdin_data w)
       (fun _ w' => emitted_prefix T w') w).
  { destruct (received_signal w); [|split; [exact H|reflexivity]].
    apply wp_bind. unfold wp at 1, rb_pop.
    destruct (ring w) as [|b l] eqn:Er.
    - apply wp_bind.
      eapply wp_mono; [apply reset_timer_frame| |]; cbv beta.
      + intros n w' (E1 & _ & _ & _ & E2 & _ & _ & E3). cbn.
        rewrite E1, E2, E3, Er. split; [exact H|reflexivity].
      + intros _ w' (E1 & _ & _ & _ & E2 & _ & _ & E3).
        exists (opt_list c ++ stdin_data w). rewrite E2. exact H.
    - cbn. split; [|reflexivity]. rewrite <- H, <- app_assoc.
      reflexivity. }
  eapply wp_mono; [exact Hfirst| |auto]. cbv beta.
  intros [i1 b1] w1 [H1 S1].
  apply wp_bind.
  assert (Hpush :
    wp (match c with
        | Some b => rb_xpush b;; ret (b1 + 1)
        | None => ret b1
        end)%prog
       (fun _ w' => inv T w' /\ stdin_data w' = stdin_data w)
       (fun _ _ => False) w1).
  { destruct c as [b|]; cbn; unfold inv; cbn.
    - split; [|exact S1]. rewrite <- H1. now rewrite <- !app_assoc.
    - split; [exact H1|exact S1]. }
  eapply wp_mono; [exact Hpush| |intros ? ? []]. cbv beta.
  intros b2 w2 [H2 S2].
  assert (Hreset : forall f w0, inv T w0 /\ stdin_data w0 = stdin_data w ->
     wp (reset_timer i1 f) (fun _ w' => inv T w' /\ stdin_data w' = stdin_data w)
        (fun _ w' => emitted_prefix T w') w0).
  { intros f w0 [I0 S0]. eapply wp_mono; [apply reset_timer_frame| |]; cbv beta.
    - intros _ w' (E1 & _ & _ & _ & E2 & _ & _ & E3). unfold inv.
      rewrite E1, E2, E3. split; assumption.
    - intros _ w' (E1 & _ & _ & _ & E2 & _ & _ & E3). apply inv_prefix. unfold inv.
      now rewrite E1, E2, E3. }
  apply wp_bind.
  assert (Hup :
    wp (if DELAY_SIZE <? b2
        then interval0 <- reset_timer i1 factor_0_95;; ret (interval0, 0)
        else ret (i1, b2))%prog
       (fun _ w' => inv T w' /\ stdin_data w' = stdin_data w)
       (fun _ w' => emitted_prefix T w') w2).
  { destruct (DELAY_SIZE <? b2); [|split; assumption].
    apply wp_bind. eapply wp_mono; [apply Hreset; split; assumption| |auto].
    cbv beta. intros; assumption. }
  eapply wp_mono; [exact Hup| |auto]. cbv beta.
  intros [i3 b3] w3 [H3 S3].
  destruct (b3 <? - DELAY_SIZE); [|split; assumption].
  apply wp_bind.
  assert (Hreset3 : forall f w0, inv T w0 /\ stdin_data w0 = stdin_data w ->
     wp (reset_timer i3 f) (fun _ w' => inv T w' /\ stdin_data w' = stdin_data w)
        (fun _ w' => emitted_prefix T w') w0).
  { intros f w0 [I0 S0]. eapply wp_mono; [apply reset_timer_frame| |]; cbv beta.
    - intros _ w' (E1 & _ & _ & _ & E2 & _ & _ & E3). unfold inv.
      rewrite E1, E2, E3. split; assumption.
    - intros _ w' (E1 & _ & _ & _ & E2 & _ & _ & E3). apply inv_prefix. unfold inv.
      now rewrite E1, E2, E3. }
  eapply wp_mono; [apply Hreset3; split; assumption| |auto].
  cbv beta. intros; assumption.
Qed.

(** The first loop of [stream_data] returns only at the end of the input. *)
Lemma stream_loop_spec fuel : forall interval bytes_buffered w,
  inv T w ->
  wp (stream_loop fuel interval bytes_buffered)
     (fun _ w' => inv T w' /\ stdin_data w' = [])
     (fun _ w' => emitted_prefix T w') w.
Proof.
  induction fuel as [|fuel IH]; intros interval bb w Hw.
  - apply inv_prefix, Hw.
  - cbn [stream_loop]. apply wp_bind.
    eapply wp_mono; [apply getchar_spec, Hw| |intros ? ? []]. cbv beta.
    intros c w1 [H1 Heof].
    apply wp_bind. unfold wp at 1. cbn [get_errno_EINTR].
    assert (Hgo :
      wp ('(interval0, bytes_buffered0) <- stream_body c interval bb;;
          stream_loop fuel interval0 bytes_buffered0)%prog
         (fun _ w' => inv T w' /\ stdin_data w' = [])
         (fun _ w' => emitted_prefix T w') w1).
    { apply wp_bind.
      eapply wp_mono; [apply stream_body_spec, H1| |auto]. cbv beta.
      intros [i2 b2] w2 [H2 _]. apply IH, H2. }
    destruct c as [b|]; [exact Hgo|].
    destruct (errno_EINTR w1) eqn:Ee; [exact Hgo|].
    split; [exact H1|]. apply Heof; reflexivity || assumption.
Qed.

(** The second loop returns only with the queue empty. *)
Lemma drain_loop_spec fuel : forall w,
  inv T w -> stdin_data w = [] ->
  wp (drain_loop fuel) (fun _ w' => stdout_data w' = T)
     (fun _ w' => emitted_prefix T w') w.
Proof.
  induction fuel as [|fuel IH]; intros w Hw Hin.
  - apply inv_prefix, Hw.
  - cbn [drain_loop]. apply wp_bind. unfold wp at 1, pause.
    destruct (pauses w) as [|n]; [apply inv_prefix, Hw|].
    change (-1 =? 0) with false. cbv iota.
    apply wp_bind. unfold wp at 1. cbn [get_errno_EINTR errno_EINTR with_errno].
    apply wp_bind. unfold wp at 1, rb_pop. cbn [ring handle with_errno with_pauses with_signal].
    destruct (ring w) as [|b l] eqn:Er.
    + unfold wp, ret. cbn. unfold inv in Hw. rewrite Er, Hin, !app_nil_r in Hw. exact Hw.
    + apply wp_bind. unfold wp at 1, putchar_flush. apply IH.
      * unfold inv in *. cbn. rewrite Er in Hw. rewrite <- Hw, <- app_assoc. reflexivity.
      * cbn. exact Hin.
Qed.

Lemma stream_data_spec fuel interval w :
  inv T w ->
  wp (stream_data fuel interval) (fun _ w' => stdout_data w' = T)
     (fun _ w' => emitted_prefix T w') w.
Proof.
  intros Hw. unfold stream_data.
  apply wp_bind. unfold wp at 1, set_timer, setitimer.
  apply wp_bind. unfold wp at 1, clear_errno.
  apply wp_bind.
  eapply wp_mono; [apply stream_loop_spec; exact Hw| |auto]. cbv beta.
  intros _ w1 [H1 S1].
  apply wp_bind. unfold wp at 1, clear_errno.
  apply drain_loop_spec; [exact H1|exact S1].
Qed.

Lemma keeps_parse arg : keeps T (parse_argument_for_interval arg).
Proof.
  apply keeps_same. intros w. unfold parse_argument_for_interval.
  destruct (Libc.strtoll arg) as [rv rest].
  destruct ((rv <? 0) || (999999 <? rv) || negb (rest =? EmptyString)%string); repeat split.
Qed.

Lemma keeps_read_loop count : keeps T (read_loop count).
Proof.
  induction count as [|count IH]; intros w Hw; [exact Hw|].
  cbn [read_loop]. apply wp_bind.
  eapply wp_mono; [apply getchar_spec, Hw| |intros ? ? []]. cbv beta.
  intros [b|] w1 [H1 _].
  - apply wp_bind. unfold wp at 1, rb_xpush. apply IH.
    unfold inv. cbn. rewrite <- H1, <- !app_assoc. reflexivity.
  - exact H1.
Qed.

Lemma keeps_assert b : keeps T (assert b).
Proof. intros w Hw. unfold wp, assert. destruct b; [exact Hw|apply inv_prefix, Hw]. Qed.

Lemma keeps_read_one_second interval : keeps T (read_one_second interval).
Proof.
  unfold read_one_second.
  apply keeps_bind; [apply keeps_assert|intros _].
  apply keeps_bind; [apply keeps_assert|intros _].
  apply keeps_read_loop.
Qed.

Lemma keeps_estimate_loop fuel : forall n, keeps T (estimate_loop fuel n).
Proof.
  induction fuel as [|fuel IH]; intros n w Hw; [apply inv_prefix, Hw|].
  cbn [estimate_loop]. apply wp_bind.
  eapply wp_mono; [apply getchar_spec, Hw| |intros ? ? []]. cbv beta.
  intros [b|] w1 [H1 _].
  - apply wp_bind. unfold wp at 1, rb_xpush. apply IH.
    unfold inv. cbn. rewrite <- H1, <- !app_assoc. reflexivity.
  - exact H1.
Qed.

Lemma keeps_estimate_window fuel : keeps T (estimate_window fuel).
Proof.
  intros w Hw. unfold estimate_window. apply wp_bind.
  eapply wp_mono; [apply getchar_spec, Hw| |intros ? ? []]. cbv beta.
  intros c w1 [H1 _].
  apply wp_bind.
  assert (Hpush : wp (match c with Some b => rb_xpush b | None => ret tt end)
                     (fun _ w' => inv T w') (fun _ _ => False) w1).
  { destruct c as [b|]; unfold wp, inv; cbn; [|exact H1].
    rewrite <- H1, <- !app_assoc. reflexivity. }
  eapply wp_mono; [exact Hpush| |intros ? ? []]. cbv beta.
  intros _ w2 H2.
  apply wp_bind. unfold wp at 1, set_timer, setitimer.
  apply wp_bind. unfold wp at 1, clear_errno.
  apply keeps_estimate_loop. exact H2.
Qed.

Lemma keeps_estimate_result n : keeps T (estimate_result n).
Proof.
  apply keeps_same. intros w. unfold estimate_result, wp, bind. cbn [get_signal].
  destruct (negb (received_signal w) || (n <? 1)); [repeat split|].
  cbn. unfold assert.
  destruct ((0 <? n) || errno_EINTR w); [|repeat split].
  cbn. destruct (999999 <? n); repeat split.
Qed.

Lemma keeps_is_regular fd name : keeps T (is_regular fd name).
Proof.
  apply keeps_same. intros w. unfold wp.
  destruct (is_regular_cases fd name w) as [(e & _ & ->)|(r & _ & ->)]; repeat split.
Qed.

Lemma keeps_set_handler : keeps T set_handler.
Proof.
  apply keeps_same. intros w. unfold wp, set_handler.
  destruct (sigaction_error w); repeat split.
Qed.

Lemma keeps_eprint s : keeps T (eprint s).
Proof. apply keeps_same. intros w. repeat split. Qed.

Lemma keeps_exit {A} n : keeps T (@exit A n).
Proof. intros w Hw. apply inv_prefix, Hw. Qed.

(** The whole program: the input is on stdout when [main] returns, and a
    prefix of it wherever [main] stops. *)
Lemma main_spec fuel argv w :
  stdout_data w ++ stdin_data w = T ->
  wp (main fuel argv) (fun _ w' => stdout_data w' = T)
     (fun _ w' => emitted_prefix T w') w.
Proof.
  intros Hw. unfold main.
  apply wp_bind. unfold wp at 1, rb_create.
  assert (H0 : inv T (with_ring [] w)) by exact Hw.
  revert H0. generalize (with_ring [] w). clear w Hw. intros w Hw.
  apply wp_bind. eapply wp_mono; [apply keeps_set_handler, Hw| |auto]. cbv beta.
  intros _ w1 H1. apply wp_bind.
  assert (Hint : keeps T
    (match argv with
     | _ :: arg :: _ =>
         interval <- parse_argument_for_interval arg;;
         read_one_second interval;; ret interval
     | _ =>
         r <- is_regular STDIN_FILENO "stdin";;
         (if r : bool
          then eprint "Interval *must* be given if reading from ";;
               eprint ("a regular file!!" ++ newline);; exit 1
          else estimate_input_rate fuel)
     end)%prog).
  { assert (Hno : keeps T (r <- is_regular STDIN_FILENO "stdin";;
         (if r : bool
          then eprint "Interval *must* be given if reading from ";;
               eprint ("a regular file!!" ++ newline);; exit 1
          else estimate_input_rate fuel))%prog).
    { apply keeps_bind; [apply keeps_is_regular|intros [|]].
      - apply keeps_bind; [apply keeps_eprint|intros _].
        apply keeps_bind; [apply keeps_eprint|intros _]. apply keeps_exit.
      - unfold estimate_input_rate.
        apply keeps_bind; [apply keeps_estimate_window|intros n].
        apply keeps_estimate_result. }
    destruct argv as [|a0 [|arg rest]]; try exact Hno.
    apply keeps_bind; [apply keeps_parse|intros interval].
    apply keeps_bind; [apply keeps_read_one_second|intros _]. apply keeps_ret. }
  eapply wp_mono; [apply Hint, H1| |auto]. cbv beta.
  intros interval w2 H2.
  apply wp_bind. eapply wp_mono; [apply stream_data_spec, H2| |auto]. cbv beta.
  intros _ w3 H3. exact H3.
Qed.

End Order.


(** ** Progress: the loops end, and a regular source is never rescaled *)

(** Each [getchar] uses up a schedule entry or a byte, unless the input
    is exhausted; [EINTR] comes with the signal flag set. *)
Lemma getchar_progress w :
  wp getchar
     (fun c w' =>
        same_env w w' /\ itimer w' = itimer w /\ ring w' = ring w /\
        stdin_data w = (opt_list c ++ stdin_data w')%list /\
        (c = None -> errno_EINTR w' = false -> stdin_data w' = []) /\
        (List.length (alarms w') <= List.length (alarms w))%nat /\
        ((c = None /\ errno_EINTR w' = errno_EINTR w) \/
         (pending_reads w' < pending_reads w)%nat) /\
        (errno_EINTR w = false -> errno_EINTR w' = true ->
         received_signal w' = true))
     (fun _ _ => False) w.
Proof.
  unfold wp, getchar, read_byte, pending_reads, same_env.
  destruct (alarms w) as [|[] l] eqn:Ea; cbn;
    try (destruct (stdin_data w) eqn:Es; cbn; rewrite ?Ea, ?Es; cbn);
    repeat match goal with |- _ /\ _ => split end;
    first [ reflexivity | lia | left; split; reflexivity | right; cbn; lia
          | intros; congruence ].
Qed.

(** On a regular file a rescale does nothing. *)
Lemma reset_timer_regular interval f w :
  regular w -> reset_timer interval f w = Ret interval w.
Proof.
  unfold regular, reset_timer, bind, is_regular. intros ->. reflexivity.
Qed.

Lemma reset_timer_progress interval f w :
  wp (reset_timer interval f)
     (fun r w' => frame w w' /\ (regular w -> r = interval /\ itimer w' = itimer w))
     (stops_live w) w.
Proof.
  unfold stops_live.
  destruct (stdin_stat w) as [e|[|]] eqn:Es.
  - unfold wp, reset_timer, bind, is_regular. rewrite Es. cbn.
    split; [reflexivity|]. unfold regular. congruence.
  - unfold wp. rewrite (reset_timer_regular _ _ _ Es). split; [apply frame_refl|auto].
  - unfold wp, reset_timer, bind, is_regular. rewrite Es.
    assert (Hn : ~ regular w) by (unfold regular; congruence).
    destruct (scaled interval f <? 10); [cbn; auto|].
    destruct (Fp.ltb _ _); cbn; [auto|].
    split; [|intros; contradiction].
    unfold frame. cbn. destruct (accepted _); tauto.
Qed.

(** One turn of the loop returns, unless a rescale of a live source
    exits; it clears [errno] when [EINTR] came with the flag set. *)
Lemma stream_body_progress c interval bytes_buffered w :
  wp (stream_body c interval bytes_buffered) (body_post c interval w)
     (stops_live w) w.
Proof.
  unfold stream_body.
  apply wp_bind. unfold wp at 1. cbn [get_signal].
  (* the three places where a rescale can happen share one step *)
  assert (Hreset : forall i f w0,
     same_env w w0 -> (regular w -> itimer w0 = itimer w) ->
     wp (reset_timer i f)
        (fun r w' => frame w0 w' /\ (regular w -> r = i /\ itimer w' = itimer w))
        (stops_live w) w0).
  { intros i f w0 [Hs _] Hi.
    eapply wp_mono; [apply reset_timer_progress| |]; cbv beta.
    - intros r w' [Hf Hr]. split; [exact Hf|]. intros Hreg.
      assert (regular w0) by (unfold regular in *; congruence).
      destruct (Hr H) as [-> ->]. auto.
    - intros s w' [-> Hn]. split; [reflexivity|].
      unfold regular in *. congruence. }
  apply wp_bind.
  assert (Hfirst :
    wp (if received_signal w
        then d <- rb_pop;;
             interval0 <- match d with
                          | Some b => putchar_flush b;; ret interval
                          | None => reset_timer interval factor_1_05
                          end;;
             set_signal false;; clear_errno;; ret (interval0, bytes_buffered - 1)
        else ret (interval, bytes_buffered))%prog
       (fun r w' =>
          same_env w w' /\ alarms w' = alarms w /\ stdin_data w' = stdin_data w /\
          (List.length (ring w') <= List.length (ring w))%nat /\
          ((errno_EINTR w = true -> received_signal w = true) -> errno_EINTR w' = false) /\
          (regular w -> fst r = interval /\ itimer w' = itimer w))
       (stops_live w) w).
  { destruct (received_signal w) eqn:Esig.
    2:{ unfold wp, ret, same_env. repeat split; auto.
        intros H. destruct (errno_EINTR w); [discriminate H; reflexivity|reflexivity]. }
    apply wp_bind. unfold wp at 1, rb_pop.
    destruct (ring w) as [|b l] eqn:Er.
    - apply wp_bind.
      eapply wp_mono; [apply (Hreset interval factor_1_05 w); [split; reflexivity|auto]| |auto].
      cbv beta. intros r w' [(E1 & E2 & E3 & E4 & E5 & E6 & E7 & E8) Hr].
      unfold wp, same_env. cbn. rewrite Er in E8. rewrite E8. repeat split; auto.
      all: apply Hr; assumption.
    - unfold wp, same_env. cbn. repeat split; auto. }
  eapply wp_mono; [exact Hfirst| |auto]. cbv beta.
  intros [i1 b1] w1 (Hs1 & Ha1 & Hi1 & Hr1 & He1 & Hreg1). cbn [fst] in Hreg1.
  apply wp_bind.
  assert (Hpush :
    wp (match c with
        | Some b => rb_xpush b;; ret (b1 + 1)
        | None => ret b1
        end)%prog
       (fun _ w' =>
          same_env w w' /\ alarms w' = alarms w /\ stdin_data w' = stdin_data w /\
          (List.length (ring w') <= List.length (ring w) + List.length (opt_list c))%nat /\
          ((errno_EINTR w = true -> received_signal w = true) -> errno_EINTR w' = false) /\
          (regular w -> itimer w' = itimer w))
       (fun _ _ => False) w1).
  { destruct c as [b|]; unfold wp, same_env in *; cbn; repeat split; try tauto.
    - rewrite List.length_app. cbn. lia.
    - lia. }
  eapply wp_mono; [exact Hpush| |intros ? ? []]. cbv beta.
  intros b2 w2 (Hs2 & Ha2 & Hi2 & Hr2 & He2 & Hreg2).
  assert (Hstep : forall i b0 w0 f,
     (same_env w w0 /\ alarms w0 = alarms w /\ stdin_data w0 = stdin_data w /\
      (List.length (ring w0) <= List.length (ring w) + List.length (opt_list c))%nat /\
      ((errno_EINTR w = true -> received_signal w = true) -> errno_EINTR w0 = false) /\
      (regular w -> i = interval /\ itimer w0 = itimer w)) ->
     forall cond : bool,
     wp (if cond
         then interval0 <- reset_timer i f;; ret (interval0, 0)
         else ret (i, b0))%prog
        (body_post c interval w) (stops_live w) w0).
  { intros i b0 w0 f (Hs0 & Ha0 & Hi0 & Hr0 & He0 & Hreg0) [|].
    - apply wp_bind.
      eapply wp_mono; [apply (Hreset i f w0); [exact Hs0|tauto]| |auto].
      cbv beta. intros r w' [(E1 & E2 & E3 & E4 & E5 & E6 & E7 & E8) Hr].
      unfold wp, ret, body_post, same_env in *. cbn [fst].
      assert (He' : (errno_EINTR w = true -> received_signal w = true) ->
                    errno_EINTR w' = false)
        by (intros Hc; destruct E7 as [E7|E7]; rewrite E7; [apply He0, Hc|reflexivity]).
      rewrite E1, E2, E3, E4, E8. repeat split; try tauto.
      all: match goal with H : regular _ |- _ => destruct (Hr H) as [-> ?]; tauto end.
    - unfold wp, ret, body_post. cbn [fst]. tauto. }
  apply wp_bind.
  eapply wp_mono;
    [apply (Hstep i1 b2 w2 factor_0_95); tauto| |auto].
  cbv beta. intros [i3 b3] w3 (Hs3 & Ha3 & Hi3 & Hr3 & He3 & Hreg3). cbn [fst] in Hreg3.
  apply (Hstep i3 b3 w3 factor_1_05); tauto.
Qed.


Lemma regular_same_env w w' : same_env w w' -> regular w -> regular w'.
Proof. unfold same_env, regular. intros [-> _]. auto. Qed.

Lemma stops_live_env w w1 s w' : same_env w w1 -> stops_live w1 s w' -> stops_live w s w'.
Proof.
  unfold stops_live, same_env, regular. intros [E _] [-> H]. split; [reflexivity|].
  congruence.
Qed.

(** With fuel for every read to come, the first loop returns at the end
    of the input unless a rescale of a live source exits. *)
Lemma stream_loop_progress fuel : forall interval bytes_buffered w,
  (pending_reads w < fuel)%nat -> errno_EINTR w = false ->
  wp (stream_loop fuel interval bytes_buffered) (loop_post interval w)
     (stops_live w) w.
Proof.
  induction fuel as [|fuel IH]; intros interval bb w Hf He; [lia|].
  cbn [stream_loop]. apply wp_bind.
  eapply wp_mono; [apply getchar_progress| |intros ? ? []]. cbv beta.
  intros c w1 (Hs1 & Ht1 & Hr1 & Hl1 & Heof & Ha1 & Hdec & Hsig).
  apply wp_bind. unfold wp at 1. cbn [get_errno_EINTR].
  assert (Hgo : (pending_reads w1 < pending_reads w)%nat ->
    wp ('(interval0, bytes_buffered0) <- stream_body c interval bb;;
        stream_loop fuel interval0 bytes_buffered0)%prog
       (loop_post interval w) (stops_live w) w1).
  { intros Hlt. apply wp_bind.
    eapply wp_mono; [apply stream_body_progress| |].
    2:{ intros s w' H. eapply stops_live_env; eauto. }
    cbv beta. intros [i2 b2] w2 (Hs2 & Ha2 & Hi2 & Hr2 & He2 & Hreg2).
    cbn [fst] in Hreg2.
    assert (He2' : errno_EINTR w2 = false).
    { apply He2. intros Ht. apply Hsig; assumption. }
    assert (Hp2 : pending_reads w2 = pending_reads w1).
    { unfold pending_reads. now rewrite Ha2, Hi2. }
    eapply wp_mono; [apply (IH i2 b2 w2); [lia|exact He2']| |].
    - cbv beta. intros r w3 (Hs3 & Hi3 & Hr3 & Hreg3).
      unfold loop_post. split.
      { unfold same_env in *. destruct Hs1, Hs2, Hs3. split; congruence. }
      split; [exact Hi3|]. split.
      { rewrite Hi2 in Hr3. rewrite Hr1 in Hr2. rewrite Hl1, List.length_app. lia. }
      intros Hreg.
      assert (R1 : regular w1) by (eapply regular_same_env; eauto).
      assert (R2 : regular w2) by (eapply regular_same_env; eauto).
      destruct (Hreg2 R1) as [-> E2]. destruct (Hreg3 R2) as [-> E3].
      split; [reflexivity|]. congruence.
    - intros s w3 H. eapply stops_live_env; [exact Hs1|].
      eapply stops_live_env; [exact Hs2|exact H]. }
  destruct c as [b|].
  { apply Hgo. destruct Hdec as [[Hc _]|Hlt]; [discriminate|exact Hlt]. }
  destruct (errno_EINTR w1) eqn:Ee1.
  { apply Hgo. destruct Hdec as [[_ Hc]|Hlt]; [congruence|exact Hlt]. }
  unfold wp, ret, loop_post. cbn [fst].
  split; [exact Hs1|]. split; [apply Heof; reflexivity|].
  split; [rewrite Hr1; lia|]. intros _. split; [reflexivity|exact Ht1].
Qed.

(** A regular source: the interval and the timer stay as they are, at
    every point the first loop can stop at. *)
Lemma stream_loop_regular fuel : forall interval bytes_buffered w,
  regular w ->
  wp (stream_loop fuel interval bytes_buffered)
     (fun r w' => fst r = interval /\ itimer w' = itimer w)
     (fun s w' => s = OutOfFuel /\ itimer w' = itimer w) w.
Proof.
  induction fuel as [|fuel IH]; intros interval bb w Hreg; [split; reflexivity|].
  cbn [stream_loop]. apply wp_bind.
  eapply wp_mono; [apply getchar_progress| |intros ? ? []]. cbv beta.
  intros c w1 (Hs1 & Ht1 & _).
  assert (R1 : regular w1) by (eapply regular_same_env; eauto).
  apply wp_bind. unfold wp at 1. cbn [get_errno_EINTR].
  assert (Hgo :
    wp ('(interval0, bytes_buffered0) <- stream_body c interval bb;;
        stream_loop fuel interval0 bytes_buffered0)%prog
       (fun r w' => fst r = interval /\ itimer w' = itimer w)
       (fun s w' => s = OutOfFuel /\ itimer w' = itimer w) w1).
  { apply wp_bind.
    eapply wp_mono; [apply stream_body_progress| |].
    2:{ intros s w' [_ Hn]. contradiction. }
    cbv beta. intros [i2 b2] w2 (Hs2 & _ & _ & _ & _ & Hreg2).
    cbn [fst] in Hreg2. destruct (Hreg2 R1) as [-> E2].
    assert (R2 : regular w2) by (eapply regular_same_env; eauto).
    eapply wp_mono; [apply (IH interval b2 w2 R2)| |]; cbv beta.
    - intros r w3 [-> E3]. split; [reflexivity|congruence].
    - intros s w3 [-> E3]. split; [reflexivity|congruence]. }
  destruct c as [b|]; [exact Hgo|].
  destruct (errno_EINTR w1); [exact Hgo|].
  split; [reflexivity|exact Ht1].
Qed.

Lemma drain_loop_itimer fuel : forall w,
  itimer (final (drain_loop fuel w)) = itimer w.
Proof.
  induction fuel as [|fuel IH]; intros w; [reflexivity|].
  cbn [drain_loop]. unfold bind at 1, pause.
  destruct (pauses w) as [|n]; [reflexivity|].
  change (-1 =? 0) with false. cbv iota.
  unfold bind at 1. cbn [get_errno_EINTR errno_EINTR with_errno].
  unfold bind at 1, rb_pop. cbn [ring handle with_errno with_pauses with_signal].
  destruct (ring w) as [|b l]; [reflexivity|].
  unfold bind at 1, putchar_flush. rewrite IH. reflexivity.
Qed.

(** With a tick for every queued byte and one more, the drain returns. *)
Lemma drain_loop_progress fuel : forall w,
  (List.length (ring w) < fuel)%nat ->
  wp (drain_loop fuel) (fun _ _ => True)
     (fun s _ => s = Blocked /\ (pauses w <= List.length (ring w))%nat) w.
Proof.
  induction fuel as [|fuel IH]; intros w Hf; [lia|].
  cbn [drain_loop]. apply wp_bind. unfold wp at 1, pause.
  destruct (pauses w) as [|n] eqn:Ep; [split; [reflexivity|lia]|].
  change (-1 =? 0) with false. cbv iota.
  apply wp_bind. unfold wp at 1. cbn [get_errno_EINTR errno_EINTR with_errno].
  apply wp_bind. unfold wp at 1, rb_pop. cbn [ring handle with_errno with_pauses with_signal].
  destruct (ring w) as [|b l] eqn:Er; [exact I|].
  apply wp_bind. unfold wp at 1, putchar_flush.
  eapply wp_mono; [apply IH| |]; cbn in *; try lia; auto.
  intros s _ [-> H]. split; [reflexivity|lia].
Qed.

Lemma stream_data_progress fuel interval w :
  (pending_reads w + List.length (ring w) < fuel)%nat ->
  wp (stream_data fuel interval) (fun _ _ => True)
     (fun s _ => stream_stops w s) w.
Proof.
  intros Hf. unfold stream_data.
  apply wp_bind. unfold wp at 1, set_timer, setitimer.
  apply wp_bind. unfold wp at 1, clear_errno.
  apply wp_bind.
  eapply wp_mono; [apply stream_loop_progress| |].
  - unfold pending_reads in *. cbn. lia.
  - reflexivity.
  - cbv beta. intros r w1 ([Hs1 Hp1] & Hi1 & Hr1 & _). cbn in Hs1, Hp1, Hr1.
    apply wp_bind. unfold wp at 1, clear_errno.
    eapply wp_mono; [apply drain_loop_progress| |]; cbn.
    + unfold pending_reads in Hf. lia.
    + auto.
    + intros s _ [-> H]. right. split; [reflexivity|]. lia.
  - intros s w1 [-> H]. left. split; [reflexivity|exact H].
Qed.

Lemma stream_data_itimer fuel interval w :
  regular w ->
  itimer (final (stream_data fuel interval w)) = (itimer w ++ [(interval, interval)])%list.
Proof.
  intros Hreg. unfold stream_data.
  unfold bind at 1, set_timer, setitimer.
  unfold bind at 1, clear_errno. unfold bind at 1.
  match goal with |- context [stream_loop fuel interval 0 ?x] => set (w0 := x) end.
  assert (R0 : regular w0) by exact Hreg.
  pose proof (stream_loop_regular fuel interval 0 w0 R0) as H.
  unfold wp in H.
  destruct (stream_loop fuel interval 0 w0) as [r w1|s w1].
  - destruct H as [_ H]. unfold bind at 1, clear_errno.
    rewrite drain_loop_itimer. exact H.
  - destruct H as [_ H]. exact H.
Qed.

(** ** The loops before [stream_data] never run out of fuel *)

Lemma read_loop_progress count : forall w,
  wp (read_loop count) (fun _ w' => (in_flight w' <= in_flight w)%nat)
     (fun _ _ => False) w.
Proof.
  induction count as [|count IH]; intros w; [unfold wp; cbn [read_loop ret]; lia|].
  cbn [read_loop]. apply wp_bind.
  eapply wp_mono; [apply getchar_progress| |intros ? ? []]. cbv beta.
  intros c w1 (_ & _ & Hr1 & Hl1 & _ & Ha1 & _).
  destruct c as [b|].
  - apply wp_bind. unfold wp at 1, rb_xpush.
    eapply wp_mono; [apply IH| |auto]. cbv beta. intros _ w2 H2.
    unfold in_flight, pending_reads in *. cbn in H2.
    rewrite List.length_app in H2. cbn in H2, Hl1.
    rewrite Hl1, Hr1 in *. cbn. lia.
  - unfold wp, ret, in_flight, pending_reads. cbn in Hl1. rewrite Hl1, Hr1. lia.
Qed.

Lemma estimate_loop_progress fuel : forall n w,
  (pending_reads w < fuel)%nat ->
  wp (estimate_loop fuel n) (fun _ w' => (in_flight w' <= in_flight w)%nat)
     (fun _ _ => False) w.
Proof.
  induction fuel as [|fuel IH]; intros n w Hf; [lia|].
  cbn [estimate_loop]. apply wp_bind.
  eapply wp_mono; [apply getchar_progress| |intros ? ? []]. cbv beta.
  intros c w1 (_ & _ & Hr1 & Hl1 & _ & Ha1 & Hdec & _).
  destruct c as [b|].
  - apply wp_bind. unfold wp at 1, rb_xpush.
    destruct Hdec as [[Hc _]|Hlt]; [discriminate|].
    eapply wp_mono; [apply IH| |auto].
    + unfold pending_reads in *. cbn. lia.
    + cbv beta. intros _ w2 H2.
      unfold in_flight, pending_reads in *. cbn in H2.
      rewrite List.length_app in H2. cbn in H2, Hl1.
      rewrite Hl1, Hr1 in *. cbn. lia.
  - unfold wp, ret, in_flight, pending_reads. cbn in Hl1. rewrite Hl1, Hr1. lia.
Qed.

Lemma estimate_window_progress fuel w :
  (pending_reads w < fuel)%nat ->
  wp (estimate_window fuel) (fun _ w' => (in_flight w' <= in_flight w)%nat)
     (fun _ _ => False) w.
Proof.
  intros Hf. unfold estimate_window. apply wp_bind.
  eapply wp_mono; [apply getchar_progress| |intros ? ? []]. cbv beta.
  intros c w1 (_ & _ & Hr1 & Hl1 & _ & Ha1 & Hdec & _).
  apply wp_bind.
  assert (Hpush : wp (match c with Some b => rb_xpush b | None => ret tt end)
            (fun _ w' => (in_flight w' <= in_flight w)%nat /\
                         (pending_reads w' < fuel)%nat)
            (fun _ _ => False) w1).
  { pose proof (f_equal (@List.length byte) Hl1) as HL.
    rewrite List.length_app in HL.
    unfold in_flight, pending_reads in *.
    destruct c as [b|]; unfold wp; cbn; rewrite ?List.length_app; cbn in *;
      rewrite Hr1; lia. }
  eapply wp_mono; [exact Hpush| |intros ? ? []]. cbv beta.
  intros _ w2 [H2 F2].
  apply wp_bind. unfold wp at 1, set_timer, setitimer.
  apply wp_bind. unfold wp at 1, clear_errno.
  eapply wp_mono; [apply estimate_loop_progress| |auto].
  - exact F2.
  - cbv beta. intros _ w3 H3. unfold in_flight, pending_reads in *. cbn in H3. lia.
Qed.

Lemma fueled_bind {A B} (m : M A) (k : A -> M B) w :
  fueled m w ->
  (forall a w', (in_flight w' <= in_flight w)%nat -> fueled (k a) w') ->
  fueled (bind m k) w.
Proof.
  intros Hm Hk. apply wp_bind. eapply wp_mono; [exact Hm| |auto]. cbv beta.
  intros a w' Hw'. eapply wp_mono; [apply Hk, Hw'| |auto]. cbv beta.
  intros _ w2 H2. lia.
Qed.

Lemma fueled_same {A} (m : M A) w :
  wp m (fun _ w' => same_data w w' /\ alarms w' = alarms w)
       (fun s _ => s <> OutOfFuel) w ->
  fueled m w.
Proof.
  intros H. eapply wp_mono; [exact H| |auto]. cbv beta.
  intros _ w' [(E1 & _ & E3) E4]. unfold in_flight, pending_reads.
  rewrite E1, E3, E4. lia.
Qed.

(** With fuel for every read to come, [main] never runs out of it. *)
Lemma main_fueled fuel argv w :
  (pending_reads w < fuel)%nat ->
  wp (main fuel argv) (fun _ _ => True) (fun s _ => s <> OutOfFuel) w.
Proof.
  intros Hf. unfold main.
  apply wp_bind. unfold wp at 1, rb_create.
  assert (H0 : (in_flight (with_ring [] w) < fuel)%nat).
  { unfold in_flight, pending_reads in *. cbn. lia. }
  revert H0. generalize (with_ring [] w). clear w Hf. intros w Hf.
  apply wp_bind.
  assert (Hh : fueled set_handler w).
  { apply fueled_same. unfold wp, set_handler.
    destruct (sigaction_error w); cbn; [discriminate|repeat split]. }
  eapply wp_mono; [exact Hh| |auto]. cbv beta. intros _ w1 H1.
  apply wp_bind.
  assert (Hint : fueled
    (match argv with
     | _ :: arg :: _ =>
         interval <- parse_argument_for_interval arg;;
         read_one_second interval;; ret interval
     | _ =>
         r <- is_regular STDIN_FILENO "stdin";;
         (if r : bool
          then eprint "Interval *must* be given if reading from ";;
               eprint ("a regular file!!" ++ newline);; exit 1
          else estimate_input_rate fuel)
     end)%prog w1).
  { assert (Hno : fueled (r <- is_regular STDIN_FILENO "stdin";;
         (if r : bool
          then eprint "Interval *must* be given if reading from ";;
               eprint ("a regular file!!" ++ newline);; exit 1
          else estimate_input_rate fuel))%prog w1).
    { apply fueled_bind.
      - apply fueled_same. unfold wp.
        destruct (is_regular_cases STDIN_FILENO "stdin" w1) as [(e & _ & ->)|(r & _ & ->)];
          [discriminate|repeat split].
      - intros [|] w2 H2; [unfold fueled, wp; cbn; discriminate|].
        unfold estimate_input_rate. apply fueled_bind.
        + eapply wp_mono; [apply estimate_window_progress| |intros ? ? []]; auto.
          unfold in_flight in *. lia.
        + intros n w3 H3. apply fueled_same.
          unfold estimate_result, wp, bind. cbn [get_signal].
          destruct (negb (received_signal w3) || (n <? 1)); [cbn; discriminate|].
          cbn. unfold assert.
          destruct ((0 <? n) || errno_EINTR w3); [|discriminate].
          cbn. destruct (999999 <? n); cbn; [discriminate|repeat split]. }
    destruct argv as [|a0 [|arg rest]]; try exact Hno.
    apply fueled_bind.
    - apply fueled_same. unfold parse_argument_for_interval.
      destruct (Libc.strtoll arg) as [rv rest'].
      destruct ((rv <? 0) || (999999 <? rv) || negb (rest' =? EmptyString)%string); repeat split.
    - intros interval w2 H2. apply fueled_bind.
      + unfold read_one_second. apply fueled_bind.
        * apply fueled_same. unfold wp, assert.
          destruct (0 <? interval); [repeat split|discriminate].
        * intros _ w3 H3. apply fueled_bind.
          -- apply fueled_same. unfold wp, assert.
             destruct (Fp.ltb _ _); [repeat split|discriminate].
          -- intros _ w4 H4.
             eapply wp_mono; [apply read_loop_progress| |intros ? ? []]; auto.
      + intros _ w3 H3. unfold fueled, wp, ret. lia. }
  eapply wp_mono; [exact Hint| |auto]. cbv beta. intros interval w2 H2.
  apply wp_bind.
  eapply wp_mono; [apply stream_data_progress| |].
  - unfold in_flight in *. lia.
  - cbv beta. intros _ w3 _. exact I.
  - intros s w3 [[-> _]|[-> _]]; discriminate.
Qed.


Local Open Scope string_scope.
Local Open Scope Z_scope.

(** ** Rate estimation *)

(** The three ends of the estimator after its loop. *)
Lemma estimate_result_low n w :
  received_signal w = false \/ n < 1 ->
  estimate_result n w =
  Stop (Exited 1) (with_stderr (stderr_data w ++ low_msg) w).
Proof.
  intros H. unfold estimate_result, bind. cbn [get_signal].
  assert (E : negb (received_signal w) || (n <? 1) = true).
  { destruct H as [->|H]; [reflexivity|].
    apply Z.ltb_lt in H. rewrite H. apply orb_true_r. }
  rewrite E. reflexivity.
Qed.

Lemma estimate_result_high n w :
  received_signal w = true -> 999999 < n ->
  estimate_result n w =
  Stop (Exited 1)
       (with_stderr (stderr_data w ++ high_msg) (with_signal false w)).
Proof.
  intros Hs Hn. unfold estimate_result, bind. cbn [get_signal]. rewrite Hs.
  assert (E1 : (n <? 1) = false) by (apply Z.ltb_ge; lia).
  assert (E2 : (0 <? n) = true) by (apply Z.ltb_lt; lia).
  assert (E3 : (999999 <? n) = true) by (apply Z.ltb_lt; lia).
  rewrite E1. cbn. unfold assert. rewrite E2. cbn. rewrite E3. reflexivity.
Qed.

Lemma estimate_result_ok n w :
  received_signal w = true -> 1 <= n <= 999999 ->
  estimate_result n w = Ret (1000000 / n) (with_signal false w).
Proof.
  intros Hs Hn. unfold estimate_result, bind. cbn [get_signal]. rewrite Hs.
  assert (E1 : (n <? 1) = false) by (apply Z.ltb_ge; lia).
  assert (E2 : (0 <? n) = true) by (apply Z.ltb_lt; lia).
  assert (E3 : (999999 <? n) = false) by (apply Z.ltb_ge; lia).
  rewrite E1. cbn. unfold assert. rewrite E2. cbn. rewrite E3. cbn.
  unfold ret. rewrite div_1e6_floor by lia. reflexivity.
Qed.

Lemma append_inj_l (s a b : string) : s ++ a = s ++ b -> a = b.
Proof. induction s as [|c s IH]; cbn; intros H; [exact H|]. injection H. exact IH. Qed.

(** The loop of the estimator counts what it appends to the queue. *)
Lemma estimate_loop_counts fuel : forall n w r w',
  estimate_loop fuel n w = Ret r w' ->
  exists rest, ring w' = (ring w ++ rest)%list /\
               r mod SIZE_MOD = (n + Z.of_nat (List.length rest)) mod SIZE_MOD /\
               itimer w' = itimer w.
Proof.
  induction fuel as [|fuel IH]; intros n w r w' H; [discriminate|].
  cbn [estimate_loop] in H. unfold bind at 1 in H.
  pose proof (getchar_progress w) as G. unfold wp in G.
  destruct (getchar w) as [c w1|]; [|contradiction].
  destruct G as (_ & Ht1 & Hr1 & _).
  destruct c as [b|].
  - unfold bind at 1, rb_xpush in H. apply IH in H.
    destruct H as (rest & E1 & E2 & E3). cbn in E1, E3.
    exists (b :: rest). rewrite E1, Hr1, <- app_assoc. split; [reflexivity|].
    split; [|congruence].
    rewrite E2. cbn [List.length]. rewrite Nat2Z.inj_succ.
    rewrite Zplus_mod_idemp_l. f_equal. lia.
  - injection H as <- <-. exists []. rewrite app_nil_r. repeat split; auto.
    cbn. now rewrite Z.add_0_r.
Qed.

Lemma estimate_loop_range fuel : forall n w r w',
  0 <= n < SIZE_MOD ->
  estimate_loop fuel n w = Ret r w' -> 0 <= r < SIZE_MOD.
Proof.
  induction fuel as [|fuel IH]; intros n w r w' Hn H; [discriminate|].
  cbn [estimate_loop] in H. unfold bind at 1 in H.
  destruct (getchar w) as [[b|] w1|]; try discriminate.
  - unfold bind at 1, rb_xpush in H. eapply IH; [|exact H].
    apply Z.mod_pos_bound. reflexivity.
  - injection H as <- <-. exact Hn.
Qed.

Lemma estimate_window_counts fuel w n w1 :
  estimate_window fuel w = Ret n w1 ->
  exists first rest,
    ring w1 = (ring w ++ first ++ rest)%list /\ (List.length first <= 1)%nat /\
    n = Z.of_nat (List.length rest) mod SIZE_MOD /\
    itimer w1 = (itimer w ++ [(999999, 0)])%list.
Proof.
  unfold estimate_window. unfold bind at 1.
  pose proof (getchar_progress w) as G. unfold wp in G.
  destruct (getchar w) as [c w0|]; [|contradiction].
  destruct G as (_ & Ht0 & Hr0 & _).
  intros H. unfold bind at 1 in H.
  assert (Hp : exists w2, (match c with Some b => rb_xpush b | None => ret tt end) w0 = Ret tt w2 /\
                 ring w2 = (ring w ++ opt_list c)%list /\ itimer w2 = itimer w).
  { destruct c as [b|]; eexists; (split; [reflexivity|]); cbn; rewrite ?app_nil_r; auto.
    now rewrite Hr0. }
  destruct Hp as (w2 & Ep & Er2 & Et2). rewrite Ep in H.
  unfold bind at 1, set_timer, setitimer in H.
  unfold bind at 1, clear_errno in H.
  assert (Hrange : 0 <= n < SIZE_MOD).
  { eapply estimate_loop_range; [|exact H]. split; [lia|reflexivity]. }
  apply estimate_loop_counts in H. destruct H as (rest & E1 & E2 & E3).
  cbn in E1, E3. exists (opt_list c), rest.
  rewrite E1, Er2, <- app_assoc. split; [reflexivity|].
  split; [destruct c; cbn; lia|]. split.
  - rewrite Z.mod_small in E2 by exact Hrange. exact E2.
  - rewrite E3, Et2. reflexivity.
Qed.

(** ** The argument *)

Lemma string_app_assoc (a b c : string) : (a ++ b) ++ c = a ++ (b ++ c).
Proof. induction a as [|x a IH]; cbn; [reflexivity|now rewrite IH]. Qed.

Lemma string_app_nil_r (a : string) : a ++ EmptyString = a.
Proof. induction a as [|x a IH]; cbn; [reflexivity|now rewrite IH]. Qed.

Lemma with_stderr_same w : with_stderr (stderr_data w) w = w.
Proof. destruct w; reflexivity. Qed.

Lemma print_lines_spec m : forall w,
  print_lines m w = Ret tt (with_stderr (stderr_data w ++ lines_text m) w).
Proof.
  induction m as [|l m IH]; intros w; cbn [print_lines lines_text].
  - unfold ret. now rewrite string_app_nil_r, with_stderr_same.
  - unfold bind at 1, eprint at 1. unfold bind at 1, eprint at 1.
    rewrite IH. cbn [stderr_data with_stderr].
    rewrite !string_app_assoc. reflexivity.
Qed.

(** The parser returns what [strtoll] parsed, after the usage text if the
    value is negative or above 999999 or something follows the number. *)
Lemma parse_argument_spec arg w :
  parse_argument_for_interval arg w =
  let rv := fst (Libc.strtoll arg) in
  let rest := snd (Libc.strtoll arg) in
  if (rv <? 0) || (999999 <? rv) || negb (rest =? EmptyString)%string
  then Ret rv (with_stderr (stderr_data w ++ usage_text) w)
  else Ret rv w.
Proof.
  unfold parse_argument_for_interval.
  destruct (Libc.strtoll arg) as [rv rest]. cbn [fst snd].
  destruct ((rv <? 0) || (999999 <? rv) || negb (rest =? EmptyString)%string);
    [|reflexivity].
  unfold bind at 1. unfold bind at 1, eprint at 1.
  rewrite print_lines_spec. cbn [stderr_data with_stderr].
  unfold ret, usage_text. rewrite string_app_assoc. reflexivity.
Qed.

(** ** A whole run on a regular file *)

Lemma read_loop_env count : forall w,
  wp (read_loop count)
     (fun _ w' => same_env w w' /\ itimer w' = itimer w)
     (fun _ _ => False) w.
Proof.
  induction count as [|count IH]; intros w; [repeat split|].
  cbn [read_loop]. apply wp_bind.
  eapply wp_mono; [apply getchar_progress| |intros ? ? []]. cbv beta.
  intros c w1 ([Hs1 Hp1] & Ht1 & _).
  destruct c as [b|]; [|repeat split; assumption].
  apply wp_bind. unfold wp at 1, rb_xpush.
  eapply wp_mono; [apply IH| |auto]. cbv beta.
  intros _ w2 ([Hs2 Hp2] & Ht2). cbn in Hs2, Hp2, Ht2.
  repeat split; congruence.
Qed.

(** The part of [main] before [stream_data], for a valid argument and a
    regular file: the bytes read ahead are in the queue, nothing else
    changed. *)
Lemma prefill_regular fuel arg interval w :
  Libc.strtoll arg = (interval, EmptyString) -> 1 <= interval <= 999999 ->
  stdin_stat w = FstatMode true -> sigaction_error w = None ->
  (pending_reads w < fuel)%nat ->
  (List.length (stdout_data w) + List.length (stdin_data w) < pauses w)%nat ->
  exists w1,
    (interval0 <- parse_argument_for_interval arg ;;
     read_one_second interval0 ;; ret interval0)%prog (with_ring [] w)
    = Ret interval w1 /\
    regular w1 /\ itimer w1 = itimer w /\
    (pending_reads w1 + List.length (ring w1) < fuel)%nat /\
    (List.length (ring w1) + List.length (stdin_data w1) < pauses w1)%nat.
Proof.
  intros Harg Hi Hs Ha Hf Hp.
  unfold bind at 1. rewrite parse_argument_spec, Harg. cbn [fst snd].
  assert (E1 : (interval <? 0) = false) by (apply Z.ltb_ge; lia).
  assert (E2 : (999999 <? interval) = false) by (apply Z.ltb_ge; lia).
  rewrite E1, E2. cbn [orb negb String.eqb].
  unfold bind at 1, read_one_second. unfold bind at 1, assert.
  assert (E3 : (0 <? interval) = true) by (apply Z.ltb_lt; lia).
  rewrite E3. unfold bind at 1. rewrite lt_1e6.
  assert (E4 : (interval <? 1000000) = true) by (apply Z.ltb_lt; lia).
  rewrite E4.
  set (count := Z.to_nat _). set (w0 := with_ring [] w).
  pose proof (read_loop_env count w0) as He.
  pose proof (read_loop_progress count w0) as Hfl.
  pose proof (keeps_read_loop (stdout_data w ++ stdin_data w)%list count w0 eq_refl) as Hk.
  unfold wp in He, Hfl, Hk.
  destruct (read_loop count w0) as [[] w1|]; [|contradiction].
  destruct He as ([Hs1 Hp1] & Ht1).
  unfold w0 in Hs1, Hp1, Ht1.
  cbn [stdin_stat pauses itimer with_ring] in Hs1, Hp1, Ht1.
  exists w1. split; [reflexivity|]. split; [unfold regular; congruence|].
  split; [exact Ht1|]. split.
  - unfold in_flight, pending_reads in *. cbn in Hfl. lia.
  - rewrite Hp1.
    unfold inv in Hk. apply (f_equal (@List.length byte)) in Hk.
    rewrite !List.length_app in Hk. lia.
Qed.

(** ** Rescaling and the control loop *)

(** A setting in canonical form is taken and leaves [errno] alone; the
    setting 1000000 is refused. *)
Lemma accepted_usec n : 0 <= n <= 999999 -> accepted (n, n) = true.
Proof.
  intros H. unfold accepted, canonical_usec. cbn [fst snd].
  assert (E1 : (0 <=? n) = true) by (apply Z.leb_le; lia).
  assert (E2 : (n <=? 999999) = true) by (apply Z.leb_le; lia).
  now rewrite E1, E2.
Qed.

Lemma refused_usec n : 999999 < n -> accepted (n, n) = false.
Proof.
  intros H. unfold accepted, canonical_usec. cbn [fst snd].
  assert (E2 : (n <=? 999999) = false) by (apply Z.leb_gt; lia).
  rewrite E2. now rewrite andb_false_r.
Qed.

Lemma armed_snoc (l : list (Z * Z)) (call : Z * Z) :
  armed (l ++ [call]) = (armed l ++ if accepted call then [call] else [])%list.
Proof.
  unfold armed. rewrite filter_app. cbn [filter].
  destruct (accepted call); reflexivity.
Qed.

Lemma with_errno_same (l : list (Z * Z)) w :
  with_errno (errno_EINTR w) (with_itimer l w) = with_itimer l w.
Proof. reflexivity. Qed.

(** The three ways a rescale of a live source ends. *)
Lemma reset_timer_live interval f w :
  stdin_stat w = FstatMode false ->
  reset_timer interval f w =
  if scaled interval f <? 10
  then Stop (Exited 1) (with_stderr (stderr_data w ++ fast_msg) w)
  else if 1000000 <? scaled interval f
       then Stop (Exited 1) (with_stderr (stderr_data w ++ slow_msg) w)
       else Ret (scaled interval f)
                (with_errno
                   (if accepted (scaled interval f, scaled interval f)
                    then errno_EINTR w else false)
                   (with_itimer
                      (itimer w ++ [(scaled interval f, scaled interval f)]) w)).
Proof.
  intros Hs. unfold reset_timer, bind, is_regular. rewrite Hs.
  rewrite gt_1e6.
  destruct (scaled interval f <? 10); [reflexivity|].
  destruct (1000000 <? scaled interval f); reflexivity.
Qed.

(** A rescale that returns either did nothing (regular file) or called
    [set_timer] with the truncated product, which is in [10, 1000000]. *)
Lemma reset_timer_ret interval f w r w' :
  reset_timer interval f w = Ret r w' ->
  (stdin_stat w = FstatMode true /\ r = interval /\ w' = w) \/
  (stdin_stat w = FstatMode false /\ r = scaled interval f /\
   10 <= r <= 1000000 /\
   w' = with_errno (if accepted (r, r) then errno_EINTR w else false)
          (with_itimer (itimer w ++ [(r, r)]) w)).
Proof.
  destruct (stdin_stat w) as [e|[|]] eqn:Es.
  - unfold reset_timer, bind, is_regular. rewrite Es. discriminate.
  - rewrite (reset_timer_regular _ _ _ Es). intros E. injection E as <- <-. auto.
  - rewrite (reset_timer_live _ _ _ Es).
    destruct (scaled interval f <? 10) eqn:E1; [discriminate|].
    destruct (1000000 <? scaled interval f) eqn:E2; [discriminate|].
    intros E. injection E as <- <-. right.
    apply Z.ltb_ge in E1, E2. auto.
Qed.

(** Symbolic execution of one turn of the loop: case analysis on the
    signal flag, the queue, the byte read, each threshold test and the
    outcome of each rescale. *)
Ltac run_body H :=
  unfold stream_body, bind, get_signal, rb_pop, rb_xpush, putchar_flush,
    set_signal, clear_errno, ret in H;
  repeat first
    [ match type of H with
      | context [match reset_timer ?i ?f ?w0 with _ => _ end] =>
          let R := fresh "R" in
          let i' := fresh "i" in
          let w' := fresh "w" in
          destruct (reset_timer i f w0) as [i' w'|? ?] eqn:R;
          [apply reset_timer_ret in R; cbn [stdin_stat itimer with_ring with_stdout
             with_signal with_errno with_itimer] in R
          |discriminate H]
      end
    | match type of H with
      | context [if ?b <? ?d then _ else _] =>
          let E := fresh "E" in
          destruct (b <? d) eqn:E;
          [apply Z.ltb_lt in E|apply Z.ltb_ge in E]
      end ].

(** ** The timer during estimation *)

Lemma estimate_loop_itimer fuel : forall n w,
  itimer (final (estimate_loop fuel n w)) = itimer w.
Proof.
  induction fuel as [|fuel IH]; intros n w; [reflexivity|].
  cbn [estimate_loop]. unfold bind at 1.
  pose proof (getchar_progress w) as G. unfold wp in G.
  destruct (getchar w) as [c w1|]; [|contradiction].
  destruct G as (_ & Ht1 & _).
  destruct c as [b|]; [|exact Ht1].
  unfold bind at 1, rb_xpush. rewrite IH. exact Ht1.
Qed.

Lemma estimate_window_itimer fuel w :
  itimer (final (estimate_window fuel w)) = (itimer w ++ [(999999, 0)])%list.
Proof.
  unfold estimate_window. unfold bind at 1.
  pose proof (getchar_progress w) as G. unfold wp in G.
  destruct (getchar w) as [c w1|]; [|contradiction].
  destruct G as (_ & Ht1 & _).
  unfold bind at 1.
  assert (Hp : exists w2, (match c with Some b => rb_xpush b | None => ret tt end) w1 = Ret tt w2 /\
                 itimer w2 = itimer w).
  { destruct c as [b|]; eexists; (split; [reflexivity|]); exact Ht1. }
  destruct Hp as (w2 & -> & Et2).
  unfold bind at 1, set_timer, setitimer.
  unfold bind at 1, clear_errno.
  rewrite estimate_loop_itimer. cbn. now rewrite Et2.
Qed.

Lemma estimate_result_itimer n w :
  itimer (final (estimate_result n w)) = itimer w.
Proof.
  unfold estimate_result, bind. cbn [get_signal].
  destruct (negb (received_signal w) || (n <? 1)); [reflexivity|].
  cbn. unfold assert.
  destruct ((0 <? n) || errno_EINTR w); [|reflexivity].
  cbn. destruct (999999 <? n); reflexivity.
Qed.

(** The estimator is its sampling loop followed by its checks. *)
Lemma estimate_input_rate_eq fuel w n w1 :
  estimate_window fuel w = Ret n w1 ->
  estimate_input_rate fuel w = estimate_result n w1.
Proof. intros H. unfold estimate_input_rate, bind. now rewrite H. Qed.

(** The usage text is three lines. *)
Lemma usage_text_lines :
  List.length (filter (Ascii.eqb (ascii_of_nat 10)) (list_ascii_of_string usage_text))
  = 3%nat.
Proof. vm_compute. reflexivity. Qed.


End Facts.

(* ================================================================== *)
(** ** The behaviour of the program *)
(* ================================================================== *)

Import Sys StreamBuffer Spec FpFacts Facts.
Local Open Scope string_scope.
Local Open Scope Z_scope.

(** C1, as stated, fails: a live source that delivers a single byte and
    then ends makes the estimator exit with status 1, and the byte read
    is never written. *)
Lemma short_live_input_is_dropped :
  main 4 ["stream-buffer"] (start_world [x61] (FstatMode false) [] 4) =
  Stop (Exited 1)
       (World [] (FstatMode false) None [] 4 [] low_msg [(999999, 0)]
              false false [x61]) /\
  stdout_data (final (main 4 ["stream-buffer"]
                        (start_world [x61] (FstatMode false) [] 4)))
  <> stdin_data (start_world [x61] (FstatMode false) [] 4).
Proof. split; [vm_compute; reflexivity|vm_compute; discriminate]. Qed.

(** C1 (amended): whatever the input, the arguments and the timing of the
    signals, the bytes written to standard output are a prefix of the
    input, in order; when [main] returns (exit status 0) they are the whole
    input.  With more fuel than there are reads to come the model never
    stops for lack of fuel. *)
Theorem output_is_input_in_order (fuel : nat) (argv : list string) (w : world) :
  (forall status w', main fuel argv w = Ret status w' ->
     stdout_data w' = (stdout_data w ++ stdin_data w)%list) /\
  (exists rest,
     (stdout_data (final (main fuel argv w)) ++ rest)%list =
     (stdout_data w ++ stdin_data w)%list) /\
  ((pending_reads w < fuel)%nat ->
   forall w', main fuel argv w <> Stop OutOfFuel w').
Proof.
  pose proof (main_spec (stdout_data w ++ stdin_data w)%list fuel argv w eq_refl) as H.
  unfold wp in H. split; [|split].
  - intros status w' E. rewrite E in H. exact H.
  - destruct (main fuel argv w) as [r w'|s w']; cbn [final].
    + exists []. rewrite app_nil_r. exact H.
    + exact H.
  - intros Hf w' E. pose proof (main_fueled fuel argv w Hf) as F.
    unfold wp in F. rewrite E in F. now apply F.
Qed.

(** The theorem above, applied to concrete states. *)
Lemma output_is_input_in_order_witness :
  stdout_data (final (main 20 ["stream-buffer"] paced_live_world)) =
  stdin_data paced_live_world /\
  main 20 ["stream-buffer"] paced_live_world <>
  Stop OutOfFuel paced_live_world.
Proof.
  split.
  - apply (proj1 (output_is_input_in_order 20 ["stream-buffer"] paced_live_world) 0).
    vm_compute. reflexivity.
  - apply (proj2 (proj2 (output_is_input_in_order 20 ["stream-buffer"]
                           paced_live_world))).
    vm_compute. lia.
Defined.

(** ** Rescaling *)

(** C2 fails on the code at its upper end.  [reset_timer] tests
    [new_interval > 1e6] where the limit is 999999: a new interval of
    1000000 (952381 rescaled by 1.05) is returned, and [set_timer] is
    called with it, a setting the kernel refuses, so the timer stays as it
    was while the program goes on with 1000000.  Everywhere else the
    rescale is as claimed: a new interval below 10 or above 1000000 ends
    the process with status 1, one in [10, 999999] is returned and armed,
    and no value outside [10, 1000000] is ever returned. *)
Theorem one_million_passes_the_rescale_bound (w : world) :
  stdin_stat w = FstatMode false ->
  (scaled 952381 factor_1_05 = 1000000 /\ 999999 < 1000000 /\
   forall interval f,
     scaled interval f = 1000000 ->
     reset_timer interval f w =
     Ret 1000000
         (with_errno false
            (with_itimer (itimer w ++ [(1000000, 1000000)]) w)) /\
     armed (itimer w ++ [(1000000, 1000000)]) = armed (itimer w)) /\
  (forall interval f,
     (scaled interval f < 10 ->
      reset_timer interval f w =
      Stop (Exited 1) (with_stderr (stderr_data w ++ fast_msg) w)) /\
     (1000000 < scaled interval f ->
      reset_timer interval f w =
      Stop (Exited 1) (with_stderr (stderr_data w ++ slow_msg) w)) /\
     (10 <= scaled interval f <= 999999 ->
      reset_timer interval f w =
      Ret (scaled interval f)
          (with_itimer
             (itimer w ++ [(scaled interval f, scaled interval f)]) w) /\
      armed (itimer w ++ [(scaled interval f, scaled interval f)]) =
      (armed (itimer w) ++ [(scaled interval f, scaled interval f)])%list) /\
     (forall n w', reset_timer interval f w = Ret n w' ->
      n = scaled interval f /\ 10 <= n <= 1000000)).
Proof.
  intros Hs. split.
  - split; [vm_compute; reflexivity|]. split; [lia|].
    intros interval f E. rewrite (reset_timer_live _ _ _ Hs), E.
    split; [reflexivity|]. unfold armed. rewrite filter_app. cbn.
    apply app_nil_r.
  - intros interval f. rewrite (reset_timer_live _ _ _ Hs).
    destruct (scaled interval f <? 10) eqn:E1;
      [apply Z.ltb_lt in E1|apply Z.ltb_ge in E1].
    { repeat split; try reflexivity; try lia; intros; discriminate. }
    destruct (1000000 <? scaled interval f) eqn:E2;
      [apply Z.ltb_lt in E2|apply Z.ltb_ge in E2].
    { repeat split; try reflexivity; try lia; intros; discriminate. }
    split; [lia|]. split; [lia|]. split.
    + intros H. rewrite (accepted_usec (scaled interval f)) by lia.
      split; [reflexivity|].
      unfold armed. rewrite filter_app. cbn [filter].
      now rewrite (accepted_usec (scaled interval f)) by lia.
    + intros n w' E. injection E as <- _. lia.
Qed.

(** The theorem above, applied to concrete states. *)
Lemma one_million_passes_the_rescale_bound_witness :
  reset_timer 952381 factor_1_05 live_world =
  Ret 1000000
      (with_errno false
         (with_itimer (itimer live_world ++ [(1000000, 1000000)]) live_world)) /\
  armed (itimer live_world ++ [(1000000, 1000000)]) = armed (itimer live_world) /\
  reset_timer 10 factor_0_95 live_world =
  Stop (Exited 1) (with_stderr (stderr_data live_world ++ fast_msg) live_world) /\
  reset_timer 999999 factor_1_05 live_world =
  Stop (Exited 1) (with_stderr (stderr_data live_world ++ slow_msg) live_world) /\
  reset_timer 1000 factor_1_05 live_world =
  Ret (scaled 1000 factor_1_05)
      (with_itimer
         (itimer live_world ++ [(scaled 1000 factor_1_05, scaled 1000 factor_1_05)])
         live_world).
Proof.
  split; [|split; [|split; [|split]]].
  - apply (proj2 (proj2 (proj1 (one_million_passes_the_rescale_bound live_world
                                   eq_refl)))
             952381 factor_1_05).
    vm_compute. reflexivity.
  - apply (proj2 (proj2 (proj1 (one_million_passes_the_rescale_bound live_world
                                   eq_refl)))
             952381 factor_1_05).
    vm_compute. reflexivity.
  - apply (proj1 (proj2 (one_million_passes_the_rescale_bound live_world eq_refl)
                    10 factor_0_95)).
    vm_compute. reflexivity.
  - apply (proj1 (proj2 (proj2 (one_million_passes_the_rescale_bound live_world
                                   eq_refl) 999999 factor_1_05))).
    vm_compute. reflexivity.
  - apply (proj1 (proj2 (proj2 (proj2 (one_million_passes_the_rescale_bound
                                          live_world eq_refl) 1000 factor_1_05)))).
    vm_compute. split; discriminate.
Defined.

(** C3: with a regular file on standard input a rescale returns the
    interval it was given and leaves the world, hence the timer, as it is;
    a whole run of [stream_data] arms the timer once, with the interval it
    was called with, and returns when the ticks outlast the bytes; so does
    a run of [main] given a valid interval as its argument. *)
Theorem regular_source_is_never_rescaled :
  (forall interval f w,
     stdin_stat w = FstatMode true -> reset_timer interval f w = Ret interval w) /\
  (forall fuel interval w,
     stdin_stat w = FstatMode true ->
     itimer (final (stream_data fuel interval w)) =
     (itimer w ++ [(interval, interval)])%list /\
     ((pending_reads w + List.length (ring w) < fuel)%nat ->
      (List.length (ring w) + List.length (stdin_data w) < pauses w)%nat ->
      exists w', stream_data fuel interval w = Ret tt w')) /\
  (forall fuel prog arg more interval w,
     Libc.strtoll arg = (interval, EmptyString) -> 1 <= interval <= 999999 ->
     stdin_stat w = FstatMode true -> sigaction_error w = None ->
     (pending_reads w < fuel)%nat ->
     (List.length (stdout_data w) + List.length (stdin_data w) < pauses w)%nat ->
     exists w',
       main fuel (prog :: arg :: more) w = Ret 0 w' /\
       itimer w' = (itimer w ++ [(interval, interval)])%list).
Proof.
  split; [|split].
  - intros interval f w Hs. apply reset_timer_regular. exact Hs.
  - intros fuel interval w Hs. split.
    + apply stream_data_itimer. exact Hs.
    + intros Hf Hp. pose proof (stream_data_progress fuel interval w Hf) as H.
      unfold wp in H. destruct (stream_data fuel interval w) as [[] w'|s w'].
      * eexists. reflexivity.
      * destruct H as [[_ Hn]|[_ Hb]]; [contradiction|lia].
  - intros fuel prog arg more interval w Harg Hi Hs Ha Hf Hp.
    destruct (prefill_regular fuel arg interval w Harg Hi Hs Ha Hf Hp)
      as (w1 & E1 & R1 & T1 & F1 & P1).
    pose proof (stream_data_progress fuel interval w1 F1) as H.
    pose proof (stream_data_itimer fuel interval w1 R1) as Ht.
    unfold wp in H. unfold main.
    unfold bind at 1, rb_create. unfold bind at 1, set_handler.
    cbn [sigaction_error with_ring]. rewrite Ha.
    unfold bind at 1. rewrite E1.
    unfold bind at 1.
    destruct (stream_data fuel interval w1) as [[] w2|s w2]; cbn [final] in Ht.
    + exists w2. split; [reflexivity|]. now rewrite Ht, T1.
    + destruct H as [[_ Hn]|[_ Hb]]; [contradiction|lia].
Qed.

(** The theorem above, applied to concrete states. *)
Lemma regular_source_is_never_rescaled_witness :
  reset_timer 10 factor_0_95 regular_world = Ret 10 regular_world /\
  itimer (final (stream_data 6 1000 regular_world)) = [(1000, 1000)] /\
  (exists w', stream_data 6 1000 regular_world = Ret tt w') /\
  exists w', main 8 ["stream-buffer"; "1000"] regular_world = Ret 0 w' /\
             itimer w' = [(1000, 1000)].
Proof.
  split; [|split; [|split]].
  - apply (proj1 regular_source_is_never_rescaled). reflexivity.
  - apply (proj1 (proj1 (proj2 regular_source_is_never_rescaled) 6%nat 1000
                    regular_world eq_refl)).
  - apply (proj2 (proj1 (proj2 regular_source_is_never_rescaled) 6%nat 1000
                    regular_world eq_refl)); vm_compute; lia.
  - apply (proj2 (proj2 regular_source_is_never_rescaled) 8%nat
             "stream-buffer" "1000" [] 1000 regular_world);
      try reflexivity; vm_compute; try lia. split; discriminate.
Defined.

(** ** Rate estimation *)

(** C4: when the window expired and [bytes_read] lies in [1, 999999], the
    estimator returns the integer quotient of 1000000 by [bytes_read],
    where [bytes_read] counts the bytes queued after the first, untimed
    one; 500000 bytes give an interval of 2. *)
Theorem estimated_interval_is_quotient :
  (forall fuel w bytes_read w1,
     estimate_window fuel w = Ret bytes_read w1 ->
     received_signal w1 = true ->
     1 <= bytes_read <= 999999 ->
     estimate_input_rate fuel w =
     Ret (1000000 / bytes_read) (with_signal false w1) /\
     exists first rest,
       ring w1 = (ring w ++ first ++ rest)%list /\
       (List.length first <= 1)%nat /\
       bytes_read = Z.of_nat (List.length rest) mod SIZE_MOD) /\
  (forall w, received_signal w = true ->
     estimate_result 500000 w = Ret 2 (with_signal false w)).
Proof.
  split.
  - intros fuel w n w1 Hw Hs Hn. split.
    + unfold estimate_input_rate, bind. rewrite Hw.
      apply estimate_result_ok; assumption.
    + destruct (estimate_window_counts _ _ _ _ Hw) as (first & rest & E1 & E2 & E3 & _).
      exists first, rest. auto.
  - intros w Hs. apply (estimate_result_ok 500000 w Hs). lia.
Qed.

(** The theorem above, applied to concrete states. *)
Lemma estimated_interval_is_quotient_witness :
  estimate_input_rate 8 sampled_world =
  Ret 500000 (with_signal false (final (estimate_window 8 sampled_world))) /\
  estimate_result 500000 (with_signal true sampled_world) =
  Ret 2 (with_signal false (with_signal true sampled_world)).
Proof.
  split.
  - change 500000 with (1000000 / 2).
    apply (proj1 estimated_interval_is_quotient 8%nat sampled_world 2
             (final (estimate_window 8 sampled_world))).
    + vm_compute. reflexivity.
    + vm_compute. reflexivity.
    + lia.
  - apply (proj2 estimated_interval_is_quotient). reflexivity.
Defined.

(** C5, as stated, fails: with 1000000 bytes read but no window expiry,
    the message is the one for too little input, not the one for too high
    a rate. *)
Lemma fast_source_without_expiry_is_reported_short :
  999999 < 1000000 /\
  estimate_result 1000000 (start_world [] (FstatMode false) [] 0) =
  Stop (Exited 1)
       (with_stderr low_msg (start_world [] (FstatMode false) [] 0)) /\
  ~ fatal_with high_msg (start_world [] (FstatMode false) [] 0)
      (estimate_result 1000000 (start_world [] (FstatMode false) [] 0)).
Proof.
  split; [reflexivity|]. split; [reflexivity|].
  intros (w' & E & H). vm_compute in E. injection E as <-.
  vm_compute in H. discriminate H.
Qed.

(** C5 (amended): the estimator exits with "not enough input to estimate
    data rate" exactly when the window never expired or fewer than 1 byte
    was counted; with "input data rate is too high" exactly when the
    window expired and more than 999999 bytes were counted; and returns
    an interval, the quotient, exactly in the remaining cases.  Here [n]
    and [w] are [bytes_read] and the state at the end of the sampling
    loop. *)
Theorem estimate_failures (n : Z) (w : world) :
  ((fatal_with low_msg w (estimate_result n w) <->
    received_signal w = false \/ n < 1) /\
   (fatal_with high_msg w (estimate_result n w) <->
    received_signal w = true /\ 999999 < n) /\
   ((exists r w', estimate_result n w = Ret r w') <->
    received_signal w = true /\ 1 <= n <= 999999) /\
   (forall r w', estimate_result n w = Ret r w' -> r = 1000000 / n)) /\
  (forall fuel w0,
     estimate_window fuel w0 = Ret n w ->
     estimate_input_rate fuel w0 = estimate_result n w).
Proof.
  split; [|intros fuel w0 H; apply estimate_input_rate_eq, H].
  assert (Hne : low_msg <> high_msg) by (vm_compute; discriminate).
  assert (Hcases :
    (received_signal w = false \/ n < 1) \/
    (received_signal w = true /\ 999999 < n) \/
    (received_signal w = true /\ 1 <= n <= 999999)).
  { destruct (received_signal w); [|auto].
    destruct (Z_lt_le_dec n 1); [auto|].
    destruct (Z_lt_le_dec 999999 n); auto. }
  destruct Hcases as [Hc|[[Hs Hc]|[Hs Hc]]];
    [rewrite (estimate_result_low n w Hc)
    |rewrite (estimate_result_high n w Hs Hc)
    |rewrite (estimate_result_ok n w Hs Hc)];
    unfold fatal_with;
    repeat match goal with |- _ /\ _ => split | |- _ <-> _ => split end;
    intros;
    repeat match goal with
           | H : exists _, _ |- _ => destruct H
           | H : _ /\ _ |- _ => destruct H
           | H : Stop _ _ = Stop _ _ |- _ => injection H as <-
           | H : Ret _ _ = Ret _ _ |- _ => injection H as <- <-
           | H : stderr_data _ = _ |- _ =>
               cbn in H; apply append_inj_l in H; congruence
           end;
    try discriminate;
    repeat match goal with H : _ \/ _ |- _ => destruct H end;
    try congruence;
    first [ reflexivity | lia | tauto
          | eexists; split; reflexivity
          | do 2 eexists; reflexivity ].
Qed.

(** The theorem above, applied to concrete states. *)
Lemma estimate_failures_witness :
  fatal_with low_msg (start_world [] (FstatMode false) [] 0)
    (estimate_result 7 (start_world [] (FstatMode false) [] 0)) /\
  fatal_with high_msg (with_signal true (start_world [] (FstatMode false) [] 0))
    (estimate_result 1000000
       (with_signal true (start_world [] (FstatMode false) [] 0))) /\
  (exists r w', estimate_result 7
                  (with_signal true (start_world [] (FstatMode false) [] 0)) =
                Ret r w') /\
  estimate_input_rate 8 sampled_world =
  estimate_result 2 (final (estimate_window 8 sampled_world)).
Proof.
  split; [|split; [|split]].
  - apply (proj1 (proj1 (estimate_failures 7
             (start_world [] (FstatMode false) [] 0)))).
    left. reflexivity.
  - apply (proj1 (proj2 (proj1 (estimate_failures 1000000
             (with_signal true (start_world [] (FstatMode false) [] 0)))))).
    split; [reflexivity|lia].
  - apply (proj1 (proj2 (proj2 (proj1 (estimate_failures 7
             (with_signal true (start_world [] (FstatMode false) [] 0))))))).
    split; [reflexivity|lia].
  - apply (proj2 (estimate_failures 2 (final (estimate_window 8 sampled_world)))).
    vm_compute. reflexivity.
Defined.

(** C6, as stated, fails: the window the estimator arms is 999999
    microseconds, not 1000000. *)
Lemma estimator_window_is_not_a_million :
  itimer (final (estimate_input_rate 8 sampled_world)) = [(999999, 0)] /\
  itimer (final (estimate_input_rate 8 sampled_world)) <> [(1000000, 0)].
Proof. split; [vm_compute; reflexivity|vm_compute; discriminate]. Qed.

(** C6 (amended): the estimator arms the timer exactly once, as a
    one-shot of 999999 microseconds with no period, and does so after its
    first, untimed read (whose byte, if any, is already queued). *)
Theorem estimator_arms_one_shot_window :
  (forall fuel w,
     itimer (final (estimate_input_rate fuel w)) =
     (itimer w ++ [(999999, 0)])%list) /\
  (forall fuel w b w1,
     getchar w = Ret (Some b) w1 ->
     estimate_window fuel w =
     (set_timer 999999 0 ;; clear_errno ;; estimate_loop fuel 0)%prog
       (with_ring (ring w1 ++ [b]) w1)) /\
  (forall fuel w w1,
     getchar w = Ret None w1 ->
     estimate_window fuel w =
     (set_timer 999999 0 ;; clear_errno ;; estimate_loop fuel 0)%prog w1).
Proof.
  split; [|split].
  - intros fuel w. unfold estimate_input_rate, bind.
    pose proof (estimate_window_itimer fuel w) as H.
    destruct (estimate_window fuel w) as [n w1|s w1]; cbn [final] in H.
    + rewrite estimate_result_itimer. exact H.
    + exact H.
  - intros fuel w b w1 E. unfold estimate_window. unfold bind at 1. rewrite E.
    reflexivity.
  - intros fuel w w1 E. unfold estimate_window. unfold bind at 1. rewrite E.
    reflexivity.
Qed.

(** The theorem above, applied to concrete states. *)
Lemma estimator_arms_one_shot_window_witness :
  estimate_window 8 sampled_world =
  (set_timer 999999 0 ;; clear_errno ;; estimate_loop 8 0)%prog
    (with_ring [x61]
       (start_world [x62; x63; x64] (FstatMode false)
                    [Quiet; Quiet; Interrupted] 0)) /\
  estimate_window 8 (start_world [] (FstatMode false) [] 0) =
  (set_timer 999999 0 ;; clear_errno ;; estimate_loop 8 0)%prog
    (start_world [] (FstatMode false) [] 0).
Proof.
  split.
  - apply (proj1 (proj2 estimator_arms_one_shot_window) 8%nat sampled_world x61
             (start_world [x62; x63; x64] (FstatMode false)
                          [Quiet; Quiet; Interrupted] 0)).
    reflexivity.
  - apply (proj2 (proj2 estimator_arms_one_shot_window)). reflexivity.
Defined.

(** C10: the interval the estimator returns is the quotient, anywhere in
    [1, 1000000] and so possibly below 10 (2 for 500000 bytes); [main]
    passes it to [stream_data], which calls [set_timer] with it
    unchecked. *)
Theorem estimated_interval_is_not_range_checked :
  (forall n w,
     received_signal w = true -> 1 <= n <= 999999 ->
     estimate_result n w = Ret (1000000 / n) (with_signal false w) /\
     1 <= 1000000 / n <= 1000000) /\
  (forall w,
     received_signal w = true ->
     estimate_result 500000 w = Ret 2 (with_signal false w) /\ 2 < 10) /\
  (forall fuel prog w n w1,
     sigaction_error w = None -> stdin_stat w = FstatMode false ->
     estimate_window fuel (with_ring [] w) = Ret n w1 ->
     received_signal w1 = true -> 1 <= n <= 999999 ->
     main fuel [prog] w =
     (stream_data fuel (1000000 / n) ;; ret 0)%prog (with_signal false w1)) /\
  (forall fuel interval w,
     stream_data fuel interval w =
     (clear_errno ;; stream_loop fuel interval 0 ;; clear_errno ;;
      drain_loop fuel)%prog
       (with_itimer (itimer w ++ [(interval, interval)]) w)).
Proof.
  split; [|split; [|split]].
  - intros n w Hs Hn. split; [apply estimate_result_ok; assumption|].
    split.
    + apply Z.div_le_lower_bound; lia.
    + apply Z.div_le_upper_bound; lia.
  - intros w Hs. split; [|lia]. apply (estimate_result_ok 500000 w Hs). lia.
  - intros fuel prog w n w1 Ha Hs Hw Hsig Hn.
    unfold main. unfold bind at 1, rb_create.
    unfold bind at 1, set_handler. cbn [sigaction_error with_ring]. rewrite Ha.
    unfold bind at 1. unfold bind at 1, is_regular. cbn [stdin_stat with_ring].
    rewrite Hs. unfold estimate_input_rate. unfold bind at 1. rewrite Hw.
    rewrite (estimate_result_ok n w1 Hsig Hn). reflexivity.
  - intros fuel interval w. reflexivity.
Qed.

(** The theorem above, applied to concrete states. *)
Lemma estimated_interval_is_not_range_checked_witness :
  estimate_result 500000 (with_signal true sampled_world) =
  Ret 2 (with_signal false (with_signal true sampled_world)) /\
  main 8 ["stream-buffer"] sampled_world =
  (stream_data 8 (1000000 / 2) ;; ret 0)%prog
    (with_signal false (final (estimate_window 8 (with_ring [] sampled_world)))).
Proof.
  split.
  - apply (proj1 (proj1 (proj2 estimated_interval_is_not_range_checked)
                    (with_signal true sampled_world) eq_refl)).
  - apply (proj1 (proj2 (proj2 estimated_interval_is_not_range_checked))).
    + reflexivity.
    + reflexivity.
    + vm_compute. reflexivity.
    + vm_compute. reflexivity.
    + lia.
Defined.

(** ** The control loop *)

(** C8, as stated, fails: a tick on an empty queue rescales (the timer is
    re-armed with 1050 in place of 1000) and leaves the drift counter at
    -1, not at 0. *)
Lemma underrun_keeps_drift_counter :
  stream_body None 1000 0 (with_signal true live_world) =
  Ret (1050, -1) (with_itimer [(1050, 1050)] live_world) /\
  snd (1050, -1) <> 0.
Proof. split; [vm_compute; reflexivity|discriminate]. Qed.

(** C8 (amended): after one turn of the loop the drift counter is 0 when
    its updated value crossed +1024 or -1024 (the two rescales that reset
    it), and keeps its updated value otherwise -- also when the turn
    rescaled because the tick found the queue empty. *)
Theorem drift_counter_reset_on_thresholds_only
  (c : option byte) (interval bytes_buffered : Z) (w : world)
  (r : Z * Z) (w' : world) :
  stream_body c interval bytes_buffered w = Ret r w' ->
  let updated :=
    bytes_buffered - (if received_signal w then 1 else 0)
    + Z.of_nat (List.length (opt_list c)) in
  (DELAY_SIZE < updated \/ updated < - DELAY_SIZE -> snd r = 0) /\
  (- DELAY_SIZE <= updated <= DELAY_SIZE -> snd r = updated) /\
  (stdin_stat w = FstatMode false -> received_signal w = true ->
   ring w = [] -> - DELAY_SIZE <= updated <= DELAY_SIZE ->
   fst r = scaled interval factor_1_05 /\
   itimer w' = (itimer w ++ [(fst r, fst r)])%list).
Proof.
  intros H updated. unfold updated, DELAY_SIZE in *. clear updated.
  destruct (received_signal w) eqn:Hsig; destruct (ring w) as [|b0 l0] eqn:Er;
    destruct c as [b|]; cbn [opt_list List.length];
    change (Z.of_nat 1) with 1; change (Z.of_nat 0) with 0;
    run_body H; rewrite ?Hsig, ?Er in H; run_body H;
    injection H as <- <-; cbn [fst snd];
    repeat match goal with
           | R : _ \/ _ |- _ => destruct R as [(? & ? & ?)|(? & ? & ? & ?)]
           end; subst; unfold DELAY_SIZE in *;
    repeat split; intros; try lia; try congruence;
    cbn [itimer with_ring with_stdout with_signal with_errno with_itimer];
    try reflexivity.
Qed.

(** The theorem above, applied to concrete states. *)
Lemma drift_counter_reset_on_thresholds_only_witness :
  snd (950, 0) = 0 /\
  snd (1050, -1) = 0 - 1 + 0 /\
  fst (1050, -1) = scaled 1000 factor_1_05 /\
  itimer (with_itimer [(1050, 1050)] live_world) =
  (itimer (with_signal true live_world) ++ [(fst (1050, -1), fst (1050, -1))])%list.
Proof.
  split; [|split].
  - apply (proj1 (drift_counter_reset_on_thresholds_only
             (Some x61) 1000 1024 live_world (950, 0)
             (with_itimer [(950, 950)] (with_ring [x61] live_world))
             ltac:(vm_compute; reflexivity))).
    left. vm_compute. reflexivity.
  - apply (proj1 (proj2 (drift_counter_reset_on_thresholds_only
             None 1000 0 (with_signal true live_world) (1050, -1)
             (with_itimer [(1050, 1050)] live_world)
             ltac:(vm_compute; reflexivity)))).
    vm_compute. split; discriminate.
  - apply (proj2 (proj2 (drift_counter_reset_on_thresholds_only
             None 1000 0 (with_signal true live_world) (1050, -1)
             (with_itimer [(1050, 1050)] live_world)
             ltac:(vm_compute; reflexivity)))).
    + reflexivity.
    + reflexivity.
    + reflexivity.
    + vm_compute. split; discriminate.
Defined.

(** C7, as stated, fails twice.  The product is truncated, not rounded:
    15 rescaled by 1.05 is 15, where rounding gives 16, and a tick on an
    empty queue at interval 15 arms 15 again.  And the factors are the
    other way round for the drift counter: when it passes +1024 the
    interval is rescaled by 0.95 (1000 becomes 950). *)
Lemma rescale_truncates_and_speeds_up_on_positive_drift :
  scaled 15 factor_1_05 = 15 /\
  spec_rescale 15 factor_1_05 = 16 /\
  (2 * (21 * 15) + 20) / (2 * 20) = 16 /\
  stream_body None 15 0 (with_signal true live_world) =
  Ret (15, -1) (with_itimer [(15, 15)] live_world) /\
  stream_body (Some x61) 1000 1024 live_world =
  Ret (950, 0) (with_itimer [(950, 950)] (with_ring [x61] live_world)) /\
  scaled 1000 factor_1_05 <> 950.
Proof. repeat split; try (vm_compute; reflexivity). vm_compute. discriminate. Qed.

(** C7 (amended): on a live source a rescale computes the new interval as
    the single-precision product of the interval and the factor, truncated
    toward zero; for intervals in [1, 1000000] that is at most the exact
    product (21/20 or 19/20 of the interval) and less than 2 below it.
    The value goes to [set_timer], which the kernel takes up to 999999
    and refuses at 1000000.
    The factor is 1.05 on a tick that finds the queue empty and when the
    drift counter falls below -1024, and 0.95 when it rises above +1024. *)
Theorem rescale_truncates_float_product :
  (forall interval f w n w',
     stdin_stat w = FstatMode false ->
     reset_timer interval f w = Ret n w' ->
     n = Fp.trunc (Fp.mul Fp.prec_float (Fp.of_Z Fp.prec_float interval) f) /\
     w' = (if n <=? 999999
           then with_itimer (itimer w ++ [(n, n)]) w
           else with_errno false (with_itimer (itimer w ++ [(n, n)]) w))) /\
  (forall interval,
     1 <= interval <= 1000000 ->
     20 * scaled interval factor_1_05 <= 21 * interval
       < 20 * (scaled interval factor_1_05 + 2) /\
     20 * scaled interval factor_0_95 <= 19 * interval
       < 20 * (scaled interval factor_0_95 + 2)) /\
  (forall c interval bytes_buffered w r w',
     stdin_stat w = FstatMode false ->
     stream_body c interval bytes_buffered w = Ret r w' ->
     let updated :=
       bytes_buffered - (if received_signal w then 1 else 0)
       + Z.of_nat (List.length (opt_list c)) in
     let underrun :=
       received_signal w && match ring w with [] => true | _ => false end in
     - DELAY_SIZE <= updated <= DELAY_SIZE /\
       fst r = (if underrun then scaled interval factor_1_05 else interval)
     \/ DELAY_SIZE < updated /\
       fst r = scaled (if underrun then scaled interval factor_1_05 else interval)
                      factor_0_95
     \/ updated < - DELAY_SIZE /\
       fst r = scaled (if underrun then scaled interval factor_1_05 else interval)
                      factor_1_05).
Proof.
  split; [|split].
  - intros interval f w n w' Hs H.
    destruct (reset_timer_ret _ _ _ _ _ H) as [(E & _)|(_ & -> & Hn & ->)];
      [congruence|]. split; [reflexivity|].
    destruct (scaled interval f <=? 999999) eqn:E;
      [apply Z.leb_le in E; rewrite (accepted_usec (scaled interval f)) by lia
      |apply Z.leb_gt in E; rewrite (refused_usec (scaled interval f)) by lia];
      reflexivity.
  - intros interval Hi. split.
    + apply scaled_1_05_bounds, Hi.
    + apply scaled_0_95_bounds, Hi.
  - intros c interval bb w r w' Hs H updated underrun.
    unfold updated, underrun, DELAY_SIZE in *. clear updated underrun.
    destruct (received_signal w) eqn:Hsig; destruct (ring w) as [|b0 l0] eqn:Er;
      destruct c as [b|]; cbn [opt_list List.length andb];
      change (Z.of_nat 1) with 1; change (Z.of_nat 0) with 0;
      run_body H; rewrite ?Hsig, ?Er in H; run_body H;
      injection H as <- <-; cbn [fst snd];
      repeat match goal with
             | R : _ \/ _ |- _ => destruct R as [(? & ? & ?)|(? & ? & ? & ?)]
             end; subst; unfold DELAY_SIZE in *;
      cbn [stdin_stat with_ring with_stdout with_signal with_errno with_itimer] in *;
      try congruence;
      first [ left; split; [lia|reflexivity]
            | right; left; split; [lia|reflexivity]
            | right; right; split; [lia|reflexivity]
            | exfalso; lia ].
Qed.

(** The theorem above, applied to concrete states. *)
Lemma rescale_truncates_float_product_witness :
  15 = Fp.trunc (Fp.mul Fp.prec_float (Fp.of_Z Fp.prec_float 15) factor_1_05) /\
  (20 * scaled 15 factor_1_05 <= 21 * 15 < 20 * (scaled 15 factor_1_05 + 2) /\
   20 * scaled 15 factor_0_95 <= 19 * 15 < 20 * (scaled 15 factor_0_95 + 2)) /\
  fst (950, 0) =
  scaled (if received_signal live_world &&
             match ring live_world with [] => true | _ => false end
          then scaled 1000 factor_1_05 else 1000) factor_0_95.
Proof.
  split; [|split].
  - apply (proj1 (proj1 rescale_truncates_float_product
             15 factor_1_05 live_world 15
             (with_itimer [(15, 15)] live_world)
             eq_refl ltac:(vm_compute; reflexivity))).
  - apply (proj1 (proj2 rescale_truncates_float_product) 15). lia.
  - destruct (proj2 (proj2 rescale_truncates_float_product)
                (Some x61) 1000 1024 live_world (950, 0)
                (with_itimer [(950, 950)] (with_ring [x61] live_world))
                eq_refl ltac:(vm_compute; reflexivity))
      as [[H _]|[[_ H]|[H _]]].
    + vm_compute in H. destruct H as [_ H]. exfalso. apply H. reflexivity.
    + exact H.
    + vm_compute in H. discriminate H.
Defined.

(** ** The argument *)

(** C9 fails on the code for the argument 0 (and for an empty argument):
    it is not in (0, 999999], yet the parser prints nothing and returns
    0.  For a negative or too large value, or anything left after the
    number, it does print the usage text and returns the value parsed. *)
Theorem zero_argument_is_accepted_silently :
  (forall w, parse_argument_for_interval "0" w = Ret 0 w) /\
  (forall w, parse_argument_for_interval EmptyString w = Ret 0 w) /\
  (forall arg w,
     fst (Libc.strtoll arg) < 0 \/ 999999 < fst (Libc.strtoll arg) \/
     snd (Libc.strtoll arg) <> EmptyString ->
     parse_argument_for_interval arg w =
     Ret (fst (Libc.strtoll arg))
         (with_stderr (stderr_data w ++ usage_text) w)).
Proof.
  split; [|split].
  - intros w. rewrite parse_argument_spec. reflexivity.
  - intros w. rewrite parse_argument_spec. reflexivity.
  - intros arg w H. rewrite parse_argument_spec. cbv zeta.
    destruct (Libc.strtoll arg) as [rv rest]. cbn [fst snd] in *.
    assert (E : (rv <? 0) || (999999 <? rv) || negb (rest =? EmptyString)%string
                = true).
    { destruct H as [H|[H|H]].
      - apply Z.ltb_lt in H. now rewrite H.
      - apply Z.ltb_lt in H. rewrite H. now rewrite orb_true_r.
      - apply String.eqb_neq in H. rewrite H. now rewrite orb_true_r. }
    now rewrite E.
Qed.

(** The theorem above, applied to concrete states. *)
Lemma zero_argument_is_accepted_silently_witness :
  parse_argument_for_interval "-1" live_world =
  Ret (-1) (with_stderr usage_text live_world) /\
  parse_argument_for_interval "1000000" live_world =
  Ret 1000000 (with_stderr usage_text live_world) /\
  parse_argument_for_interval "12ms" live_world =
  Ret 12 (with_stderr usage_text live_world).
Proof.
  split; [|split].
  - apply (proj2 (proj2 zero_argument_is_accepted_silently) "-1" live_world).
    left. vm_compute. reflexivity.
  - apply (proj2 (proj2 zero_argument_is_accepted_silently) "1000000" live_world).
    right. left. vm_compute. reflexivity.
  - apply (proj2 (proj2 zero_argument_is_accepted_silently) "12ms" live_world).
    right. right. vm_compute. discriminate.
Defined.

(* ================================================================== *)
(** ** Further facts on the functions *)
(* ================================================================== *)

Module MoreFacts.

Import Fp Sys StreamBuffer Spec Props FpFacts Facts.
Local Open Scope string_scope.
Local Open Scope Z_scope.

(** ** Pacing *)

(** [paced] is a preorder, and holds where the signals and stdout are as
    they were. *)
Lemma paced_refl w : paced w w.
Proof. unfold paced. lia. Qed.

Lemma paced_trans w1 w2 w3 : paced w1 w2 -> paced w2 w3 -> paced w1 w3.
Proof. unfold paced. lia. Qed.

Lemma frame_paced w w' : frame w w' -> paced w w'.
Proof.
  intros (E1 & E2 & E3 & E4 & E5 & E6 & E7 & E8).
  unfold paced, ticks_left, signals_to_come. rewrite E3, E4, E5, E6. lia.
Qed.

(** [getchar] may turn a signal to come into the flag; it writes nothing. *)
Lemma getchar_paced w :
  wp getchar (fun _ w' => paced w w' /\ stdout_data w' = stdout_data w)
     (fun _ _ => False) w.
Proof.
  unfold wp, getchar, read_byte, paced, ticks_left, signals_to_come, handle.
  destruct (alarms w) as [|[] l] eqn:Ea; cbn;
    try (destruct (stdin_data w) eqn:Es; cbn; rewrite ?Ea, ?Es; cbn);
    (split; [|reflexivity]); destruct (received_signal w); lia.
Qed.

(** One turn of the first loop writes a byte only when the flag is set,
    and clears the flag. *)
Lemma stream_body_paced c interval bytes_buffered w :
  wp (stream_body c interval bytes_buffered)
     (fun _ w' => paced w w') (fun _ w' => paced w w') w.
Proof.
  unfold stream_body.
  apply wp_bind. unfold wp at 1. cbn [get_signal].
  assert (Hreset : forall i f w0, paced w w0 ->
     wp (reset_timer i f) (fun _ w' => paced w w') (fun _ w' => paced w w') w0).
  { intros i f w0 H0. eapply wp_mono; [apply reset_timer_frame| |]; cbv beta;
      intros ? w' Hf; eapply paced_trans; eauto using frame_paced. }
  apply wp_bind.
  assert (Hfirst :
    wp (if received_signal w
        then d <- rb_pop;;
             interval0 <- match d with
                          | Some b => putchar_flush b;; ret interval
                          | None => reset_timer interval factor_1_05
                          end;;
             set_signal false;; clear_errno;; ret (interval0, bytes_buffered - 1)
        else ret (interval, bytes_buffered))%prog
       (fun _ w' => paced w w') (fun _ w' => paced w w') w).
  { destruct (received_signal w) eqn:Esig; [|apply paced_refl].
    apply wp_bind. unfold wp at 1, rb_pop.
    destruct (ring w) as [|b l] eqn:Er.
    - apply wp_bind.
      eapply wp_mono; [apply reset_timer_frame| |]; cbv beta.
      + intros r w' (E1 & E2 & E3 & E4 & E5 & E6 & E7 & E8).
        unfold wp, paced, ticks_left, signals_to_come. cbn.
        rewrite E3, E4, E5, Esig. lia.
      + intros s w' Hf. apply frame_paced, Hf.
    - unfold wp, paced, ticks_left, signals_to_come. cbn.
      rewrite Esig, List.length_app. cbn. lia. }
  eapply wp_mono; [exact Hfirst| |auto]. cbv beta.
  intros [i1 b1] w1 H1.
  apply wp_bind.
  assert (Hpush :
    wp (match c with
        | Some b => rb_xpush b;; ret (b1 + 1)
        | None => ret b1
        end)%prog
       (fun _ w' => paced w w') (fun _ _ => False) w1).
  { destruct c as [b|]; exact H1. }
  eapply wp_mono; [exact Hpush| |intros ? ? []]. cbv beta.
  intros b2 w2 H2.
  apply wp_bind.
  assert (Hup :
    wp (if DELAY_SIZE <? b2
        then interval0 <- reset_timer i1 factor_0_95;; ret (interval0, 0)
        else ret (i1, b2))%prog
       (fun _ w' => paced w w') (fun _ w' => paced w w') w2).
  { destruct (DELAY_SIZE <? b2); [|exact H2].
    apply wp_bind. eapply wp_mono; [apply Hreset, H2| |auto].
    cbv beta. intros; assumption. }
  eapply wp_mono; [exact Hup| |auto]. cbv beta.
  intros [i3 b3] w3 H3.
  destruct (b3 <? - DELAY_SIZE); [|exact H3].
  apply wp_bind. eapply wp_mono; [apply Hreset, H3| |auto].
  cbv beta. intros; assumption.
Qed.

Lemma stream_loop_paced fuel : forall interval bytes_buffered w,
  wp (stream_loop fuel interval bytes_buffered)
     (fun _ w' => paced w w') (fun _ w' => paced w w') w.
Proof.
  induction fuel as [|fuel IH]; intros interval bb w; [apply paced_refl|].
  cbn [stream_loop]. apply wp_bind.
  eapply wp_mono; [apply getchar_paced| |intros ? ? []]. cbv beta.
  intros c w1 [H1 _].
  apply wp_bind. unfold wp at 1. cbn [get_errno_EINTR].
  assert (Hgo :
    wp ('(interval0, bytes_buffered0) <- stream_body c interval bb;;
        stream_loop fuel interval0 bytes_buffered0)%prog
       (fun _ w' => paced w w') (fun _ w' => paced w w') w1).
  { apply wp_bind.
    eapply wp_mono; [apply stream_body_paced| |]; cbv beta.
    - intros [i2 b2] w2 H2.
      eapply wp_mono; [apply IH| |]; cbv beta;
        intros ? w3 H3; eauto using paced_trans.
    - intros s w2 H2. eauto using paced_trans. }
  destruct c as [b|]; [exact Hgo|].
  destruct (errno_EINTR w1); [exact Hgo|exact H1].
Qed.

(** The drain writes one byte per tick it waits for. *)
Lemma drain_loop_paced fuel : forall w,
  wp (drain_loop fuel)
     (fun _ w' => (List.length (stdout_data w') + signals_to_come w' <=
                   List.length (stdout_data w) + signals_to_come w)%nat)
     (fun _ w' => (List.length (stdout_data w') + signals_to_come w' <=
                   List.length (stdout_data w) + signals_to_come w)%nat) w.
Proof.
  induction fuel as [|fuel IH]; intros w; [unfold wp; cbn; lia|].
  cbn [drain_loop]. apply wp_bind. unfold wp at 1, pause.
  destruct (pauses w) as [|n] eqn:Ep; [lia|].
  change (-1 =? 0) with false. cbv iota.
  apply wp_bind. unfold wp at 1. cbn [get_errno_EINTR errno_EINTR with_errno].
  apply wp_bind. unfold wp at 1, rb_pop. cbn [ring handle with_errno with_pauses with_signal].
  destruct (ring w) as [|b l] eqn:Er.
  - unfold wp, ret, signals_to_come. cbn. rewrite Ep. lia.
  - apply wp_bind. unfold wp at 1, putchar_flush.
    eapply wp_mono; [apply IH| |]; cbv beta; intros _ w' H;
      unfold signals_to_come in *; cbn in H; rewrite List.length_app in H;
      cbn in H; rewrite Ep; lia.
Qed.

Lemma stream_data_paced fuel interval w :
  wp (stream_data fuel interval)
     (fun _ w' => (List.length (stdout_data w') + signals_to_come w' <=
                   List.length (stdout_data w) + ticks_left w)%nat)
     (fun _ w' => (List.length (stdout_data w') + signals_to_come w' <=
                   List.length (stdout_data w) + ticks_left w)%nat) w.
Proof.
  unfold stream_data.
  apply wp_bind. unfold wp at 1, set_timer, setitimer.
  apply wp_bind. unfold wp at 1, clear_errno.
  apply wp_bind.
  eapply wp_mono; [apply stream_loop_paced| |]; cbv beta.
  - intros _ w1 H1. apply wp_bind. unfold wp at 1, clear_errno.
    eapply wp_mono; [apply drain_loop_paced| |]; cbv beta; intros _ w2 H2;
      unfold paced, ticks_left, signals_to_come in *; cbn in *; lia.
  - intros _ w1 H1. unfold paced, ticks_left, signals_to_come in *; cbn in *; lia.
Qed.

(** What runs before [stream_data] writes nothing to stdout. *)
Lemma read_loop_paced count : forall w,
  wp (read_loop count) (fun _ w' => paced w w') (fun _ _ => False) w.
Proof.
  induction count as [|count IH]; intros w; [apply paced_refl|].
  cbn [read_loop]. apply wp_bind.
  eapply wp_mono; [apply getchar_paced| |intros ? ? []]. cbv beta.
  intros [b|] w1 [H1 _]; [|exact H1].
  apply wp_bind. unfold wp at 1, rb_xpush.
  eapply wp_mono; [apply IH| |auto]. cbv beta.
  intros _ w2 H2. eapply paced_trans; [exact H1|exact H2].
Qed.

Lemma estimate_loop_paced fuel : forall n w,
  wp (estimate_loop fuel n) (fun _ w' => paced w w') (fun _ w' => paced w w') w.
Proof.
  induction fuel as [|fuel IH]; intros n w; [apply paced_refl|].
  cbn [estimate_loop]. apply wp_bind.
  eapply wp_mono; [apply getchar_paced| |intros ? ? []]. cbv beta.
  intros [b|] w1 [H1 _]; [|exact H1].
  apply wp_bind. unfold wp at 1, rb_xpush.
  eapply wp_mono; [apply IH| |]; cbv beta;
    intros ? w2 H2; (eapply paced_trans; [exact H1|exact H2]).
Qed.

(** Clearing the flag spends a tick. *)
Lemma same_ticks_paced w w' :
  alarms w' = alarms w -> pauses w' = pauses w -> stdout_data w' = stdout_data w ->
  (received_signal w' = received_signal w \/ received_signal w' = false) ->
  paced w w'.
Proof.
  intros E1 E2 E3 E4. unfold paced, ticks_left, signals_to_come.
  rewrite E1, E2, E3. destruct E4 as [->| ->]; [lia|].
  destruct (received_signal w); lia.
Qed.

Lemma estimate_input_rate_paced fuel w :
  wp (estimate_input_rate fuel) (fun _ w' => paced w w') (fun _ w' => paced w w') w.
Proof.
  unfold estimate_input_rate, estimate_window.
  apply wp_bind. apply wp_bind.
  eapply wp_mono; [apply getchar_paced| |intros ? ? []]. cbv beta.
  intros c w1 [H1 _]. apply wp_bind.
  assert (Hpush : wp (match c with Some b => rb_xpush b | None => ret tt end)
                     (fun _ w' => paced w w') (fun _ _ => False) w1).
  { destruct c as [b|]; exact H1. }
  eapply wp_mono; [exact Hpush| |intros ? ? []]. cbv beta.
  intros _ w2 H2.
  apply wp_bind. unfold wp at 1, set_timer, setitimer.
  apply wp_bind. unfold wp at 1, clear_errno.
  eapply wp_mono; [apply estimate_loop_paced| |]; cbv beta.
  - intros n w3 H3.
    assert (H3' : paced w w3) by (eapply paced_trans; [exact H2|exact H3]).
    unfold estimate_result, wp, bind. cbn [get_signal].
    destruct (negb (received_signal w3) || (n <? 1)).
    { cbn. eapply paced_trans; [exact H3'|]. apply same_ticks_paced; auto. }
    cbn. unfold assert.
    destruct ((0 <? n) || errno_EINTR w3).
    2:{ exact H3'. }
    cbn. destruct (999999 <? n); cbn;
      (eapply paced_trans; [exact H3'|]); apply same_ticks_paced; auto.
  - intros s w3 H3. eapply paced_trans; [exact H2|exact H3].
Qed.

Lemma paced_bound w w' :
  paced w w' ->
  (List.length (stdout_data w') + signals_to_come w' <=
   List.length (stdout_data w) + ticks_left w)%nat.
Proof. unfold paced, ticks_left. lia. Qed.

(** The whole program: the bytes written never outnumber the signals
    delivered, counting the flag as found at the start. *)
Lemma main_paced fuel argv w :
  wp (main fuel argv)
     (fun _ w' => (List.length (stdout_data w') + signals_to_come w' <=
                   List.length (stdout_data w) + ticks_left w)%nat)
     (fun _ w' => (List.length (stdout_data w') + signals_to_come w' <=
                   List.length (stdout_data w) + ticks_left w)%nat) w.
Proof.
  unfold main.
  apply wp_bind. unfold wp at 1, rb_create.
  assert (H0 : paced w (with_ring [] w)) by (apply same_ticks_paced; auto).
  revert H0. generalize (with_ring [] w). intros w0 H0.
  apply wp_bind.
  assert (Hh : wp set_handler (fun _ w' => paced w w') (fun _ w' => paced w w') w0).
  { unfold wp, set_handler. destruct (sigaction_error w0); exact H0. }
  eapply wp_mono; [exact Hh| |intros ? ?; apply paced_bound]. cbv beta.
  intros _ w1 H1. apply wp_bind.
  assert (Hint : wp
    (match argv with
     | _ :: arg :: _ =>
         interval <- parse_argument_for_interval arg;;
         read_one_second interval;; ret interval
     | _ =>
         r <- is_regular STDIN_FILENO "stdin";;
         (if r : bool
          then eprint "Interval *must* be given if reading from ";;
               eprint ("a regular file!!" ++ newline);; exit 1
          else estimate_input_rate fuel)
     end)%prog (fun _ w' => paced w w') (fun _ w' => paced w w') w1).
  { assert (Hno : wp (r <- is_regular STDIN_FILENO "stdin";;
         (if r : bool
          then eprint "Interval *must* be given if reading from ";;
               eprint ("a regular file!!" ++ newline);; exit 1
          else estimate_input_rate fuel))%prog
          (fun _ w' => paced w w') (fun _ w' => paced w w') w1).
    { apply wp_bind. unfold wp at 1.
      destruct (is_regular_cases STDIN_FILENO "stdin" w1) as [(e & _ & ->)|(r & _ & ->)];
        [exact H1|].
      destruct r; [exact H1|].
      eapply wp_mono; [apply estimate_input_rate_paced| |]; cbv beta;
        intros ? w2 H2; (eapply paced_trans; [exact H1|exact H2]). }
    destruct argv as [|a0 [|arg rest]]; try exact Hno.
    assert (Hrest : forall rv w2, paced w w2 ->
      wp (read_one_second rv;; ret rv)%prog
         (fun _ w' => paced w w') (fun _ w' => paced w w') w2).
    { intros rv w2 H2. apply wp_bind. unfold read_one_second.
      apply wp_bind. unfold wp at 1, assert.
      destruct (0 <? rv); [|exact H2].
      apply wp_bind. unfold wp at 1.
      destruct (Fp.ltb _ _); [|exact H2].
      eapply wp_mono; [apply read_loop_paced| |intros ? ? []]. cbv beta.
      intros _ w3 H3. unfold wp, ret. eapply paced_trans; [exact H2|exact H3]. }
    apply wp_bind. unfold wp at 1. rewrite parse_argument_spec. cbv zeta.
    destruct (_ || _); apply Hrest; exact H1. }
  eapply wp_mono; [exact Hint| |intros ? ?; apply paced_bound]. cbv beta.
  intros interval w2 H2.
  apply wp_bind.
  eapply wp_mono; [apply stream_data_paced| |]; cbv beta;
    intros ? w3 H3; unfold wp, ret, paced in *; lia.
Qed.

(** ** The count of [read_one_second] *)

Lemma div_1e6_rnd (n : Z) :
  1 <= n <= 1000000 ->
  div prec_double double_1e6 (of_Z prec_double n) = rnd 53 1000000 n.
Proof.
  intros Hn. unfold prec_double.
  assert (Hlog : Z.log2 n < 20) by (apply Z.log2_lt_pow2; lia).
  pose proof (Z.log2_nonneg n) as Hlog0.
  rewrite double_1e6_eq, of_Z_small by lia.
  unfold div. cbn [mant expo].
  set (s := 53 - 1 - Z.log2 n).
  pose proof (Z.pow_pos_nonneg 2 s ltac:(unfold s; lia) ltac:(unfold s; lia)) as Hs.
  rewrite Z.abs_eq, Z.sgn_pos by nia.
  assert (Es : scale (1000000 * 2 ^ 33) (n * 2 ^ s) (Z.log2 n - (53 - 1) - -33)
               = (1000000 * 2 ^ s, n * 2 ^ s)).
  { unfold scale. destruct (0 <=? Z.log2 n - (53 - 1) - -33) eqn:E0.
    - apply Z.leb_le in E0. assert (Z.log2 n = 19) as -> by lia.
      assert (s = 33) as -> by (unfold s; lia).
      change (2 ^ (19 - (53 - 1) - -33)) with 1. f_equal. ring.
    - apply Z.leb_gt in E0. f_equal.
      rewrite <- Z.mul_assoc, <- Z.pow_add_r by lia.
      do 2 f_equal. unfold s. ring. }
  rewrite Es. rewrite Z.mul_1_l.
  apply rnd_scale2; unfold s; lia.
Qed.
(** [1e06 / interval + 1] converted to an integer. *)
Lemma count_1e6 (n : Z) :
  1 <= n <= 1000000 ->
  trunc (add prec_double (div prec_double double_1e6 (of_Z prec_double n))
             (of_Z prec_double 1)) = 1000000 / n + 1.
Proof.
  intros Hn.
  pose proof (div_1e6_floor n Hn) as HQ.
  rewrite div_1e6_rnd in * by exact Hn.
  unfold prec_double.
  pose proof (ilog2_spec 1000000 n ltac:(lia)) as (Hl0 & Hl1 & Hl2).
  set (l := ilog2 1000000 n) in *.
  assert (Hl : l < 20).
  { apply (Z.pow_lt_mono_r_iff 2); [lia|lia|].
    pose proof (Z.pow_pos_nonneg 2 l ltac:(lia) ltac:(lia)).
    change (2 ^ 20) with 1048576. nia. }
  rewrite rnd_pos in * by lia. fold l in HQ |- *.
  rewrite scale_neg in * by lia. cbn [fst snd] in *.
  replace (- (l - (53 - 1))) with (52 - l) in * by ring.
  set (m := div_nearest_even (1000000 * 2 ^ (52 - l)) n) in *.
  pose proof (dne_bounds (1000000 * 2 ^ (52 - l)) n ltac:(lia)) as Hm. fold m in Hm.
  pose proof (Z.pow_pos_nonneg 2 (52 - l) ltac:(lia) ltac:(lia)) as HP.
  assert (Hm0 : 0 <= m) by (apply dne_nonneg; nia).
  assert (E1 : of_Z 53 1 = Dy (2 ^ 52) (-52)) by (vm_compute; reflexivity).
  rewrite E1.
  (* the quotient, truncated *)
  assert (HQ' : m / 2 ^ (52 - l) = 1000000 / n).
  { rewrite <- HQ. unfold trunc. cbn [mant expo].
    destruct (0 <=? l - (53 - 1)) eqn:E; [apply Z.leb_le in E; lia|].
    replace (- (l - (53 - 1))) with (52 - l) by ring.
    symmetry. apply Z.quot_div_nonneg; lia. }
  set (Q := 1000000 / n) in *.
  pose proof (Z.mul_div_le m (2 ^ (52 - l)) HP) as HQ1. rewrite HQ' in HQ1.
  pose proof (Z.div_mod 1000000 n ltac:(lia)) as HD. fold Q in HD.
  pose proof (Z.mod_pos_bound 1000000 n ltac:(lia)) as HR.
  (* the sum *)
  unfold add. cbn [mant expo].
  rewrite Z.min_r by lia.
  replace (l - (53 - 1) - -52) with l by ring.
  replace (-52 - -52) with 0 by ring. change (2 ^ 0) with 1.
  rewrite Z.mul_1_r. change (- -52) with 52.
  rewrite scale_nonneg by lia. rewrite Z.mul_1_l.
  set (s := m * 2 ^ l + 2 ^ 52).
  pose proof (Z.pow_pos_nonneg 2 l ltac:(lia) ltac:(lia)) as HL.
  assert (EP : 2 ^ (52 - l) * 2 ^ l = 2 ^ 52).
  { rewrite <- Z.pow_add_r by lia. f_equal. ring. }
  assert (HL' : 2 ^ l <= 1000000) by nia.
  change (2 ^ 52) with 4503599627370496 in *.
  set (L := 2 ^ l) in *. set (P := 2 ^ (52 - l)) in *.
  assert (Hs0 : 4503599627370496 <= s) by (unfold s; nia).
  assert (Hmn : m * L * n <= (n * Q + (n - 1)) * 4503599627370496 + n * L).
  { assert (2 * (m * n) <= 2 * (1000000 * P) + n) by lia.
    assert (2 * (m * n) * L <= (2 * (1000000 * P) + n) * L) by nia.
    nia. }
  assert (Hs1 : s * n < (n * Q + 2 * n) * 4503599627370496) by (unfold s; nia).
  pose proof (trunc_rnd 53 s 4503599627370496 ltac:(lia)) as H.
  change (2 ^ (53 - 1)) with 4503599627370496 in H.
  assert (Hs2 : s < 4503599627370496 * 4503599627370496) by nia.
  specialize (H Hs2 ltac:(lia)). cbv zeta in H.
  destruct H as (Ht & HN0 & Hlo & Hhi).
  pose proof (ilog2_spec s 4503599627370496 ltac:(lia)) as (Hk0 & Hk1 & _).
  set (k := ilog2 s 4503599627370496) in *.
  assert (Hk : k < 21).
  { apply (Z.pow_lt_mono_r_iff 2); [lia|lia|].
    pose proof (Z.pow_pos_nonneg 2 k ltac:(lia) ltac:(lia)).
    change (2 ^ 21) with 2097152. nia. }
  assert (HT : 2 ^ 32 <= 2 ^ (53 - 1 - k)) by (apply Z.pow_le_mono_r; lia).
  change (2 ^ 32) with 4294967296 in HT.
  set (T := 2 ^ (53 - 1 - k)) in *.
  set (N := trunc (rnd 53 s 4503599627370496)) in *.
  assert (Lo : Q < N).
  { assert (H1 : s < (N + 1) * 4503599627370496).
    { clear - Hhi HT. nia. }
    assert (H2 : Q * 4503599627370496 <= m * L).
    { rewrite <- EP. clear - HQ1 HL. nia. }
    unfold s in H1. clear - H1 H2. lia. }
  assert (Up : N < Q + 2).
  { assert (H1 : N * 4503599627370496 - s <= 524288).
    { clear - Hlo HT. nia. }
    assert (H2 : n * L <= 1000000 * 1000000).
    { clear - Hn HL HL'. nia. }
    assert (H3 : (N * 4503599627370496 - s) * n <= 524288 * n).
    { apply Z.mul_le_mono_nonneg_r; lia. }
    assert (H4 : N * (n * 4503599627370496) < (Q + 2) * (n * 4503599627370496)).
    { unfold s in H3. clear - H3 H2 Hmn Hn. lia. }
    apply Z.mul_lt_mono_pos_r in H4; lia. }
  lia.
Qed.

(** ** The drain *)

Lemma drain_loop_exact fuel : forall w,
  (List.length (ring w) < fuel)%nat ->
  wp (drain_loop fuel)
     (fun _ w' =>
        (List.length (ring w) < pauses w)%nat /\
        stdout_data w' = (stdout_data w ++ ring w)%list /\ ring w' = [] /\
        pauses w' = (pauses w - List.length (ring w) - 1)%nat /\
        stdin_data w' = stdin_data w /\ itimer w' = itimer w /\
        stderr_data w' = stderr_data w)
     (fun s w' =>
        s = Blocked /\ (pauses w <= List.length (ring w))%nat /\
        stdout_data w' = (stdout_data w ++ firstn (pauses w) (ring w))%list /\
        ring w' = skipn (pauses w) (ring w) /\
        stdin_data w' = stdin_data w /\ itimer w' = itimer w /\
        stderr_data w' = stderr_data w) w.
Proof.
  induction fuel as [|fuel IH]; intros w Hf; [lia|].
  cbn [drain_loop]. apply wp_bind. unfold wp at 1, pause.
  destruct (pauses w) as [|n] eqn:Ep.
  { cbn. rewrite app_nil_r. repeat split; lia. }
  change (-1 =? 0) with false. cbv iota.
  apply wp_bind. unfold wp at 1. cbn [get_errno_EINTR errno_EINTR with_errno].
  apply wp_bind. unfold wp at 1, rb_pop. cbn [ring handle with_errno with_pauses with_signal].
  destruct (ring w) as [|b l] eqn:Er.
  - unfold wp, ret. cbn. rewrite app_nil_r. repeat split; auto; lia.
  - apply wp_bind. unfold wp at 1, putchar_flush.
    eapply wp_mono; [apply IH| |]; cbn in *; try lia.
    + intros _ w' (H1 & H2 & H3 & H4 & H5 & H6 & H7).
      rewrite H2, <- app_assoc. repeat split; auto; lia.
    + intros s w' (H1 & H2 & H3 & H4 & H5 & H6 & H7).
      rewrite H3, <- app_assoc. repeat split; auto; lia.
Qed.

(** ** Reading ahead *)

Lemma getchar_cases w :
  (exists b bs a l, stdin_data w = b :: bs /\ alarms w = a :: l /\
     a <> Interrupted /\
     getchar w = Ret (Some b)
       (with_stdin bs (if is_tick a then handle (with_alarms l w)
                       else with_alarms l w))) \/
  (exists b bs, stdin_data w = b :: bs /\ alarms w = [] /\
     getchar w = Ret (Some b) (with_stdin bs w)) \/
  (exists l, alarms w = Interrupted :: l /\
     getchar w = Ret None (with_errno true (handle (with_alarms l w)))) \/
  (exists w', stdin_data w = [] /\ getchar w = Ret None w' /\
     stdin_data w' = [] /\ alarms w' = tl (alarms w) /\ ring w' = ring w /\
     stdout_data w' = stdout_data w /\ stderr_data w' = stderr_data w /\
     itimer w' = itimer w /\ errno_EINTR w' = errno_EINTR w /\
     hd Quiet (alarms w) <> Interrupted).
Proof.
  unfold getchar, read_byte.
  destruct (alarms w) as [|[] l] eqn:Ea; destruct (stdin_data w) as [|b bs] eqn:Es;
    cbn; rewrite ?Es.
  all: try (right; right; left; eexists; split; reflexivity).
  all: try (right; left; do 2 eexists; repeat split; reflexivity).
  all: try (left; do 4 eexists; repeat split; try reflexivity; discriminate).
  all: right; right; right; eexists; repeat split; cbn; rewrite ?Ea, ?Es;
    try reflexivity; discriminate.
Qed.

(** The loop of [read_one_second] moves bytes from the input to the tail
    of the queue: at most [count], and exactly the first [count] when no
    read is interrupted. *)
Lemma read_loop_takes count : forall w,
  exists taken w',
    read_loop count w = Ret tt w' /\
    stdin_data w = (taken ++ stdin_data w')%list /\
    ring w' = (ring w ++ taken)%list /\
    stdout_data w' = stdout_data w /\ stderr_data w' = stderr_data w /\
    itimer w' = itimer w /\
    (List.length taken <= count)%nat /\
    (uninterrupted (alarms w) = true -> taken = firstn count (stdin_data w)).
Proof.
  induction count as [|count IH]; intros w.
  { exists [], w. cbn. rewrite app_nil_r. repeat split; auto. }
  cbn [read_loop]. unfold bind at 1.
  destruct (getchar_cases w) as
    [(b & bs & a & l & Es & Ea & Hna & ->)
    |[(b & bs & Es & Ea & ->)
    |[(l & Ea & ->)
    |(w1 & Es & -> & Es1 & Ea1 & Er1 & Eo1 & Ee1 & Et1 & _)]]].
  - unfold bind at 1, rb_xpush.
    match goal with |- context [read_loop count ?w0] =>
      destruct (IH w0) as (taken & w' & E & H1 & H2 & H3 & H4 & H5 & H6 & H7) end.
    rewrite E. exists (b :: taken), w'.
    assert (Hw : forall w0 : world, (if is_tick a then handle w0 else w0) = w0 \/
                                   (if is_tick a then handle w0 else w0) = handle w0)
      by (intros; destruct (is_tick a); auto).
    destruct (Hw (with_alarms l w)) as [Ew|Ew]; rewrite Ew in *; cbn in *;
      rewrite Es, Ea, H2, <- app_assoc; cbn; repeat split; auto; try lia;
      try (f_equal; exact H1);
      intros Hu; f_equal; apply H7;
      destruct a; try discriminate; cbn in Hu; auto; congruence.
  - unfold bind at 1, rb_xpush.
    match goal with |- context [read_loop count ?w0] =>
      destruct (IH w0) as (taken & w' & E & H1 & H2 & H3 & H4 & H5 & H6 & H7) end.
    rewrite E. exists (b :: taken), w'. cbn in *.
    rewrite Es, H2, <- app_assoc. cbn. repeat split; auto; try lia.
    + f_equal. exact H1.
    + intros _. f_equal. apply H7. rewrite Ea. reflexivity.
  - exists [], (with_errno true (handle (with_alarms l w))). cbn.
    rewrite app_nil_r, Ea. repeat split; auto; try lia. discriminate.
  - exists [], w1. cbn. rewrite app_nil_r, Es, Es1. repeat split; auto. lia.
Qed.

(** [read_one_second] for an interval it accepts. *)
Lemma read_one_second_eq interval w :
  1 <= interval <= 999999 ->
  read_one_second interval w =
  read_loop (Z.to_nat (1000000 / interval + 1)) w.
Proof.
  intros Hi. unfold read_one_second.
  rewrite count_1e6 by lia. rewrite lt_1e6.
  assert (E1 : (0 <? interval) = true) by (apply Z.ltb_lt; lia).
  assert (E2 : (interval <? 1000000) = true) by (apply Z.ltb_lt; lia).
  unfold bind, assert. rewrite E1, E2. reflexivity.
Qed.

(** [read_one_second] for an interval it refuses. *)
Lemma read_one_second_abort interval w :
  interval <= 0 \/ 1000000 <= interval ->
  read_one_second interval w = Stop Aborted w.
Proof.
  intros Hi. unfold read_one_second. rewrite lt_1e6. unfold bind, assert.
  destruct (0 <? interval) eqn:E1; [|reflexivity].
  apply Z.ltb_lt in E1.
  assert (E2 : (interval <? 1000000) = false) by (apply Z.ltb_ge; lia).
  rewrite E2. reflexivity.
Qed.

(** ** The steps of a rescale *)

(** Checking a property of every integer of a range by evaluation. *)
Lemma range_forallb (P : Z -> bool) (lo : Z) (n : nat) :
  forallb P (map (fun k => lo + Z.of_nat k) (seq 0 n)) = true ->
  forall i, lo <= i < lo + Z.of_nat n -> P i = true.
Proof.
  intros H i Hi. rewrite forallb_forall in H. apply H.
  apply in_map_iff. exists (Z.to_nat (i - lo)). split; [lia|].
  apply in_seq. lia.
Qed.

(** Slowing down: the truncated product by 1.05. *)
Lemma scaled_1_05_steps (i : Z) :
  1 <= i <= 1000000 ->
  (i <= 19 -> scaled i factor_1_05 = i) /\
  (20 <= i -> i < scaled i factor_1_05) /\
  (i <= 952380 -> scaled i factor_1_05 <= 999999) /\
  (i <= 952381 -> scaled i factor_1_05 <= 1000000) /\
  (952382 <= i -> 1000000 < scaled i factor_1_05).
Proof.
  intros Hi. pose proof (scaled_1_05_bounds i Hi) as Hb.
  split; [|split; [|split; [lia|split]]].
  - intros H.
    apply Z.eqb_eq.
    apply (range_forallb (fun i => scaled i factor_1_05 =? i) 1 19);
      [vm_compute; reflexivity|lia].
  - intros H. destruct (Z_lt_le_dec i 40) as [Hs|Hl]; [|lia].
    apply Z.ltb_lt.
    apply (range_forallb (fun i => i <? scaled i factor_1_05) 20 20);
      [vm_compute; reflexivity|lia].
  - lia.
  - intros H. destruct (Z.eq_dec i 952382) as [->|]; [vm_compute; reflexivity|lia].
Qed.

(** Speeding up: the truncated product by 0.95. *)
Lemma scaled_0_95_steps (i : Z) :
  1 <= i <= 1000000 ->
  scaled i factor_0_95 < i /\
  (i <= 10 -> scaled i factor_0_95 < 10) /\
  (11 <= i -> 10 <= scaled i factor_0_95).
Proof.
  intros Hi. pose proof (scaled_0_95_bounds i Hi) as Hb.
  split; [lia|]. split; [lia|].
  intros H. destruct (Z_lt_le_dec i 13) as [Hs|Hl]; [|lia].
  apply Z.leb_le.
  apply (range_forallb (fun i => 10 <=? scaled i factor_0_95) 11 2);
    [vm_compute; reflexivity|lia].
Qed.

(** ** The timer calls of a run *)

Lemma last_nonempty {A} (l : list A) : forall x d d',
  last (x :: l) d = last (x :: l) d'.
Proof.
  induction l as [|y l IH]; intros x d d'; [reflexivity|].
  change (last (y :: l) d = last (y :: l) d'). apply IH.
Qed.

(** The interval in force along a chain. *)
Lemma last_interval_cons i a b l :
  last_interval i ((a, b) :: l) = last_interval a l.
Proof.
  unfold last_interval. cbn [map fst].
  destruct (map fst l) as [|z zs]; [reflexivity|].
  change (last (z :: zs) i = last (z :: zs) a). apply last_nonempty.
Qed.

Lemma last_interval_app i l1 l2 :
  last_interval i (l1 ++ l2) = last_interval (last_interval i l1) l2.
Proof.
  revert i. induction l1 as [|[a b] l1 IH]; intros i; [reflexivity|].
  cbn [app]. rewrite !last_interval_cons. apply IH.
Qed.

(** Chains compose, and every setting of a chain is in range. *)
Lemma rescale_chain_app l1 : forall i l2,
  rescale_chain i (l1 ++ l2) =
  rescale_chain i l1 && rescale_chain (last_interval i l1) l2.
Proof.
  induction l1 as [|[a b] l1 IH]; intros i l2; [reflexivity|].
  cbn [app rescale_chain]. rewrite IH.
  rewrite last_interval_cons. now rewrite !andb_assoc.
Qed.

Lemma rescale_chain_range l : forall i,
  rescale_chain i l = true ->
  Forall (fun p => fst p = snd p /\ 10 <= fst p <= 1000000) l.
Proof.
  induction l as [|[a b] l IH]; intros i H; [constructor|].
  cbn [rescale_chain] in H.
  apply andb_prop in H as [H H5]. apply andb_prop in H as [H H4].
  apply andb_prop in H as [H H3]. apply andb_prop in H as [H1 H2].
  constructor; [|eapply IH; exact H5].
  cbn [fst snd]. apply Z.eqb_eq in H1. apply Z.leb_le in H3, H4. lia.
Qed.

(** One rescale adds at most one setting, and none when it exits. *)
Lemma reset_timer_chain interval f w :
  f = factor_1_05 \/ f = factor_0_95 ->
  wp (reset_timer interval f)
     (fun r w' => exists l, itimer w' = (itimer w ++ l)%list /\
                            rescale_chain interval l = true /\
                            r = last_interval interval l)
     (fun _ w' => itimer w' = itimer w) w.
Proof.
  intros Hf. unfold wp.
  destruct (is_regular_cases STDIN_FILENO "stdin" w) as [(e & Es & E)|([|] & Es & E)].
  - unfold reset_timer, bind. rewrite E. reflexivity.
  - rewrite (reset_timer_regular _ _ _ Es). exists [].
    rewrite app_nil_r. repeat split.
  - rewrite (reset_timer_live _ _ _ Es).
    destruct (scaled interval f <? 10) eqn:E1; [reflexivity|].
    destruct (1000000 <? scaled interval f) eqn:E2; [reflexivity|].
    exists [(scaled interval f, scaled interval f)]. cbn.
    split; [reflexivity|]. split; [|reflexivity].
    apply Z.ltb_ge in E1, E2.
    rewrite Z.eqb_refl, andb_true_r. cbn [andb].
    assert (E3 : (10 <=? scaled interval f) = true) by (apply Z.leb_le; lia).
    assert (E4 : (scaled interval f <=? 1000000) = true) by (apply Z.leb_le; lia).
    rewrite E3, E4, !andb_true_r.
    destruct Hf as [->| ->]; rewrite Z.eqb_refl; [reflexivity|apply orb_true_r].
Qed.

(** One turn of the loop, the loop and the whole of [stream_data] extend
    the chain, also when they stop. *)
Lemma stream_body_chain c interval bytes_buffered w :
  wp (stream_body c interval bytes_buffered)
     (fun r w' => exists l, itimer w' = (itimer w ++ l)%list /\
                            rescale_chain interval l = true /\
                            fst r = last_interval interval l)
     (fun _ w' => exists l, itimer w' = (itimer w ++ l)%list /\
                            rescale_chain interval l = true) w.
Proof.
  unfold stream_body.
  apply wp_bind. unfold wp at 1. cbn [get_signal].
  (* a rescale from the interval in force extends the chain *)
  assert (Hreset : forall f l0 w0,
     f = factor_1_05 \/ f = factor_0_95 ->
     itimer w0 = (itimer w ++ l0)%list -> rescale_chain interval l0 = true ->
     wp (reset_timer (last_interval interval l0) f)
        (fun r w' => exists l, itimer w' = (itimer w ++ l)%list /\
                               rescale_chain interval l = true /\
                               r = last_interval interval l)
        (fun _ w' => exists l, itimer w' = (itimer w ++ l)%list /\
                               rescale_chain interval l = true) w0).
  { intros f l0 w0 Hf H0 C0.
    eapply wp_mono; [apply reset_timer_chain, Hf| |]; cbv beta.
    - intros r w' (l & E & C & ->). exists (l0 ++ l)%list.
      rewrite E, H0, <- app_assoc, rescale_chain_app, C0, C.
      repeat split. now rewrite last_interval_app.
    - intros _ w' E. exists l0. rewrite E. auto. }
  apply wp_bind.
  assert (Hfirst :
    wp (if received_signal w
        then d <- rb_pop;;
             interval0 <- match d with
                          | Some b => putchar_flush b;; ret interval
                          | None => reset_timer interval factor_1_05
                          end;;
             set_signal false;; clear_errno;; ret (interval0, bytes_buffered - 1)
        else ret (interval, bytes_buffered))%prog
       (fun r w' => exists l, itimer w' = (itimer w ++ l)%list /\
                              rescale_chain interval l = true /\
                              fst r = last_interval interval l)
       (fun _ w' => exists l, itimer w' = (itimer w ++ l)%list /\
                              rescale_chain interval l = true) w).
  { destruct (received_signal w).
    2:{ exists []. rewrite app_nil_r. repeat split. }
    apply wp_bind. unfold wp at 1, rb_pop.
    destruct (ring w) as [|b l] eqn:Er.
    - apply wp_bind.
      eapply wp_mono;
        [apply (Hreset factor_1_05 [] w); [auto|now rewrite app_nil_r|reflexivity]| |auto].
      cbv beta. intros r w' (l & E & C & ->). exists l. cbn. auto.
    - exists []. cbn. rewrite app_nil_r. repeat split. }
  eapply wp_mono; [exact Hfirst| |auto]. cbv beta.
  intros [i1 b1] w1 (l1 & E1 & C1 & R1). cbn [fst] in R1. subst i1.
  apply wp_bind.
  assert (Hpush :
    wp (match c with
        | Some b => rb_xpush b;; ret (b1 + 1)
        | None => ret b1
        end)%prog
       (fun _ w' => itimer w' = (itimer w ++ l1)%list) (fun _ _ => False) w1).
  { destruct c as [b|]; exact E1. }
  eapply wp_mono; [exact Hpush| |intros ? ? []]. cbv beta.
  intros b2 w2 E2.
  assert (Hstep : forall l0 b0 w0 f,
     f = factor_1_05 \/ f = factor_0_95 ->
     itimer w0 = (itimer w ++ l0)%list -> rescale_chain interval l0 = true ->
     forall cond : bool,
     wp (if cond
         then interval0 <- reset_timer (last_interval interval l0) f;; ret (interval0, 0)
         else ret (last_interval interval l0, b0))%prog
        (fun r w' => exists l, itimer w' = (itimer w ++ l)%list /\
                               rescale_chain interval l = true /\
                               fst r = last_interval interval l)
        (fun _ w' => exists l, itimer w' = (itimer w ++ l)%list /\
                               rescale_chain interval l = true) w0).
  { intros l0 b0 w0 f Hf H0 C0 [|].
    - apply wp_bind. eapply wp_mono; [apply (Hreset f l0 w0); assumption| |auto].
      cbv beta. intros r w' (l & E & C & ->). exists l. auto.
    - exists l0. auto. }
  apply wp_bind.
  eapply wp_mono; [apply (Hstep l1 b2 w2 factor_0_95); auto| |auto].
  cbv beta. intros [i3 b3] w3 (l3 & E3 & C3 & R3). cbn [fst] in R3. subst i3.
  apply (Hstep l3 b3 w3 factor_1_05); auto.
Qed.

Lemma stream_loop_chain fuel : forall interval bytes_buffered w,
  wp (stream_loop fuel interval bytes_buffered)
     (fun _ w' => exists l, itimer w' = (itimer w ++ l)%list /\
                            rescale_chain interval l = true)
     (fun _ w' => exists l, itimer w' = (itimer w ++ l)%list /\
                            rescale_chain interval l = true) w.
Proof.
  induction fuel as [|fuel IH]; intros interval bb w.
  { exists []. now rewrite app_nil_r. }
  cbn [stream_loop]. apply wp_bind.
  eapply wp_mono; [apply getchar_progress| |intros ? ? []]. cbv beta.
  intros c w1 (_ & Ht1 & _).
  apply wp_bind. unfold wp at 1. cbn [get_errno_EINTR].
  assert (Hgo :
    wp ('(interval0, bytes_buffered0) <- stream_body c interval bb;;
        stream_loop fuel interval0 bytes_buffered0)%prog
       (fun _ w' => exists l, itimer w' = (itimer w ++ l)%list /\
                              rescale_chain interval l = true)
       (fun _ w' => exists l, itimer w' = (itimer w ++ l)%list /\
                              rescale_chain interval l = true) w1).
  { apply wp_bind.
    eapply wp_mono; [apply stream_body_chain| |]; cbv beta.
    - intros [i2 b2] w2 (l2 & E2 & C2 & R2). cbn [fst] in R2. subst i2.
      eapply wp_mono; [apply IH| |]; cbv beta;
        intros ? w3 (l3 & E3 & C3); exists (l2 ++ l3)%list;
        rewrite E3, E2, Ht1, <- app_assoc, rescale_chain_app, C2, C3; auto.
    - intros s w2 (l2 & E2 & C2). exists l2. rewrite E2, Ht1. auto. }
  destruct c as [b|]; [exact Hgo|].
  destruct (errno_EINTR w1); [exact Hgo|].
  exists []. rewrite app_nil_r. auto.
Qed.

Lemma stream_data_chain fuel interval w :
  wp (stream_data fuel interval)
     (fun _ w' => exists l, itimer w' = (itimer w ++ (interval, interval) :: l)%list /\
                            rescale_chain interval l = true)
     (fun _ w' => exists l, itimer w' = (itimer w ++ (interval, interval) :: l)%list /\
                            rescale_chain interval l = true) w.
Proof.
  unfold stream_data.
  apply wp_bind. unfold wp at 1, set_timer, setitimer.
  apply wp_bind. unfold wp at 1, clear_errno.
  apply wp_bind.
  eapply wp_mono; [apply stream_loop_chain| |]; cbv beta.
  - intros _ w1 (l & E & C). cbn in E.
    apply wp_bind. unfold wp at 1, clear_errno.
    pose proof (drain_loop_itimer fuel (with_errno false w1)) as Hd.
    unfold wp. destruct (drain_loop fuel (with_errno false w1)); cbn in Hd;
      exists l; rewrite Hd, E, <- app_assoc; auto.
  - intros _ w1 (l & E & C). cbn in E. exists l. rewrite E, <- app_assoc. auto.
Qed.

(** ** Exits *)

(** Sequencing. *)
Lemma loud_bind {A B} (m : M A) (k : A -> M B) :
  loud m -> (forall a, loud (k a)) -> loud (bind m k).
Proof.
  intros Hm Hk w. apply wp_bind. eapply wp_mono; [apply Hm| |auto].
  cbv beta. intros a w' _. apply Hk.
Qed.

(** What always returns is loud; so is each function of the program but
    [read_one_second]. *)
Lemma loud_total {A} (m : M A) :
  (forall w, exists a w', m w = Ret a w') -> loud m.
Proof. intros H w. unfold wp. destruct (H w) as (a & w' & ->). exact I. Qed.

Lemma loud_ret {A} (a : A) : loud (ret a).
Proof. intros w. exact I. Qed.

Lemma loud_getchar : loud getchar.
Proof.
  intros w. pose proof (getchar_progress w) as H. unfold wp in *.
  destruct (getchar w); [exact I|contradiction].
Qed.

Lemma loud_reset_timer interval f : loud (reset_timer interval f).
Proof.
  intros w. unfold wp.
  destruct (is_regular_cases STDIN_FILENO "stdin" w) as [(e & Es & E)|([|] & Es & E)].
  - unfold reset_timer, bind. rewrite E. split; [reflexivity|].
    do 6 right. exists e. split; [exact Es|]. eexists. reflexivity.
  - now rewrite (reset_timer_regular _ _ _ Es).
  - rewrite (reset_timer_live _ _ _ Es).
    destruct (scaled interval f <? 10).
    { split; [reflexivity|]. do 2 right. left. eexists. reflexivity. }
    destruct (1000000 <? scaled interval f); [|exact I].
    split; [reflexivity|]. do 3 right. left. eexists. reflexivity.
Qed.

Lemma loud_stream_body c interval bytes_buffered :
  loud (stream_body c interval bytes_buffered).
Proof.
  unfold stream_body.
  apply loud_bind; [apply loud_total; intros w; do 2 eexists; reflexivity|intros sig].
  apply loud_bind.
  { destruct sig; [|apply loud_ret].
    apply loud_bind.
    { apply loud_total. intros w. unfold rb_pop. destruct (ring w); do 2 eexists; reflexivity. }
    intros d. apply loud_bind.
    { destruct d; [|apply loud_reset_timer].
      apply loud_total. intros w. do 2 eexists. reflexivity. }
    intros i. apply loud_total. intros w. do 2 eexists. reflexivity. }
  intros [i1 b1]. apply loud_bind.
  { destruct c; apply loud_total; intros w; do 2 eexists; reflexivity. }
  intros b2. apply loud_bind.
  { destruct (DELAY_SIZE <? b2); [|apply loud_ret].
    apply loud_bind; [apply loud_reset_timer|intros; apply loud_ret]. }
  intros [i3 b3].
  destruct (b3 <? - DELAY_SIZE); [|apply loud_ret].
  apply loud_bind; [apply loud_reset_timer|intros; apply loud_ret].
Qed.

Lemma loud_stream_loop fuel : forall interval bytes_buffered,
  loud (stream_loop fuel interval bytes_buffered).
Proof.
  induction fuel as [|fuel IH]; intros interval bb; [intros w; exact I|].
  cbn [stream_loop].
  apply loud_bind; [apply loud_getchar|intros c].
  apply loud_bind; [apply loud_total; intros w; do 2 eexists; reflexivity|intros e].
  assert (Hgo : loud ('(interval0, bytes_buffered0) <- stream_body c interval bb;;
                      stream_loop fuel interval0 bytes_buffered0)%prog).
  { apply loud_bind; [apply loud_stream_body|intros [i2 b2]; apply IH]. }
  destruct c; [exact Hgo|]. destruct e; [exact Hgo|apply loud_ret].
Qed.

Lemma loud_drain_loop fuel : loud (drain_loop fuel).
Proof.
  induction fuel as [|fuel IH]; [intros w; exact I|].
  cbn [drain_loop]. apply loud_bind.
  { intros w. unfold wp, pause. destruct (pauses w); exact I. }
  intros r. destruct (r =? 0); [apply loud_ret|].
  apply loud_bind; [apply loud_total; intros w; do 2 eexists; reflexivity|intros e].
  destruct e; [|apply loud_ret].
  apply loud_bind.
  { apply loud_total. intros w. unfold rb_pop. destruct (ring w); do 2 eexists; reflexivity. }
  intros [b|]; [|apply loud_ret].
  apply loud_bind; [apply loud_total; intros w; do 2 eexists; reflexivity|intros; exact IH].
Qed.

Lemma loud_stream_data fuel interval : loud (stream_data fuel interval).
Proof.
  unfold stream_data.
  apply loud_bind; [apply loud_total; intros w; do 2 eexists; reflexivity|intros _].
  apply loud_bind; [apply loud_total; intros w; do 2 eexists; reflexivity|intros _].
  apply loud_bind; [apply loud_stream_loop|intros _].
  apply loud_bind; [apply loud_total; intros w; do 2 eexists; reflexivity|intros _].
  apply loud_drain_loop.
Qed.

Lemma loud_estimate_loop fuel : forall n, loud (estimate_loop fuel n).
Proof.
  induction fuel as [|fuel IH]; intros n; [intros w; exact I|].
  cbn [estimate_loop]. apply loud_bind; [apply loud_getchar|intros [b|]].
  - apply loud_bind; [apply loud_total; intros w; do 2 eexists; reflexivity|intros _].
    apply IH.
  - apply loud_ret.
Qed.

(** The assert of the estimator cannot fail: it comes after the test
    that [bytes_read] is at least 1. *)
Lemma loud_estimate_result n : loud (estimate_result n).
Proof.
  intros w. unfold estimate_result, wp, bind. cbn [get_signal].
  destruct (negb (received_signal w) || (n <? 1)) eqn:E1.
  { cbn. split; [reflexivity|]. left. eexists. reflexivity. }
  apply orb_false_elim in E1 as [_ E1]. apply Z.ltb_ge in E1.
  cbn. unfold assert.
  assert (E2 : (0 <? n) = true) by (apply Z.ltb_lt; lia).
  rewrite E2. cbn.
  destruct (999999 <? n); cbn; [|exact I].
  split; [reflexivity|]. right. left. eexists. reflexivity.
Qed.

Lemma loud_estimate_input_rate fuel : loud (estimate_input_rate fuel).
Proof.
  unfold estimate_input_rate, estimate_window.
  apply loud_bind; [|apply loud_estimate_result].
  apply loud_bind; [apply loud_getchar|intros c].
  apply loud_bind.
  { destruct c; apply loud_total; intros w; do 2 eexists; reflexivity. }
  intros _.
  apply loud_bind; [apply loud_total; intros w; do 2 eexists; reflexivity|intros _].
  apply loud_bind; [apply loud_total; intros w; do 2 eexists; reflexivity|intros _].
  apply loud_estimate_loop.
Qed.

Lemma loud_set_handler : loud set_handler.
Proof.
  intros w. unfold wp, set_handler. destruct (sigaction_error w) as [e|] eqn:E; [|exact I].
  cbn. split; [reflexivity|]. do 5 right. left. exists e. split; [exact E|].
  eexists. reflexivity.
Qed.

(** The branch of [main] without an argument. *)
Lemma loud_no_argument fuel :
  loud (r <- is_regular STDIN_FILENO "stdin";;
        (if r : bool
         then eprint "Interval *must* be given if reading from ";;
              eprint ("a regular file!!" ++ newline);; exit 1
         else estimate_input_rate fuel))%prog.
Proof.
  apply loud_bind.
  - intros w. unfold wp.
    destruct (is_regular_cases STDIN_FILENO "stdin" w) as [(e & Es & ->)|(r & Es & ->)];
      [|exact I].
    split; [reflexivity|]. do 6 right. exists e. split; [exact Es|].
    eexists. reflexivity.
  - intros [|]; [|apply loud_estimate_input_rate].
    intros w. unfold wp, bind, eprint, exit. cbn.
    split; [reflexivity|]. do 4 right. left. exists (stderr_data w).
    unfold regular_msg. now rewrite string_app_assoc.
Qed.

(** How [main] can stop. *)
Lemma main_stops fuel argv w :
  wp (main fuel argv) (fun _ _ => True)
     (fun s w' =>
        match s with
        | Aborted =>
            exists prog arg more, argv = prog :: arg :: more /\
              (fst (Libc.strtoll arg) <= 0 \/ 1000000 <= fst (Libc.strtoll arg))
        | _ => fatal_ok s w'
        end) w.
Proof.
  assert (Hweak : forall s w', fatal_ok s w' ->
            match s with
            | Aborted =>
                exists prog arg more, argv = prog :: arg :: more /\
                  (fst (Libc.strtoll arg) <= 0 \/ 1000000 <= fst (Libc.strtoll arg))
            | _ => fatal_ok s w'
            end).
  { intros [] w' H; try exact H. contradiction. }
  unfold main.
  apply wp_bind. unfold wp at 1, rb_create.
  apply wp_bind. eapply wp_mono; [apply loud_set_handler| |exact Hweak]. cbv beta.
  intros _ w1 _. apply wp_bind.
  assert (Hrest : forall interval w2,
    wp (stream_data fuel interval;; ret 0)%prog (fun _ _ => True)
       (fun s w' =>
          match s with
          | Aborted =>
              exists prog arg more, argv = prog :: arg :: more /\
                (fst (Libc.strtoll arg) <= 0 \/ 1000000 <= fst (Libc.strtoll arg))
          | _ => fatal_ok s w'
          end) w2).
  { intros interval w2. apply wp_bind.
    eapply wp_mono; [apply loud_stream_data| |exact Hweak]. cbv beta. intros; exact I. }
  destruct argv as [|a0 [|arg rest]].
  1,2: eapply wp_mono; [apply loud_no_argument| |exact Hweak]; cbv beta;
       intros interval w2 _; apply Hrest.
  apply wp_bind. unfold wp at 1. rewrite parse_argument_spec. cbv zeta.
  set (rv := fst (Libc.strtoll arg)).
  assert (Hro : forall w2,
    wp (read_one_second rv;; ret rv)%prog
       (fun interval w3 => wp (stream_data fuel interval;; ret 0)%prog (fun _ _ => True)
          (fun s w' =>
             match s with
             | Aborted =>
                 exists prog arg0 more, a0 :: arg :: rest = prog :: arg0 :: more /\
                   (fst (Libc.strtoll arg0) <= 0 \/ 1000000 <= fst (Libc.strtoll arg0))
             | _ => fatal_ok s w'
             end) w3)
       (fun s w' =>
          match s with
          | Aborted =>
              exists prog arg0 more, a0 :: arg :: rest = prog :: arg0 :: more /\
                (fst (Libc.strtoll arg0) <= 0 \/ 1000000 <= fst (Libc.strtoll arg0))
          | _ => fatal_ok s w'
          end) w2).
  { intros w2. apply wp_bind.
    destruct (Z_le_gt_dec rv 0) as [Hlo|Hlo].
    { unfold wp at 1. rewrite read_one_second_abort by lia.
      exists a0, arg, rest. split; [reflexivity|]. left. exact Hlo. }
    destruct (Z_le_gt_dec 1000000 rv) as [Hhi|Hhi].
    { unfold wp at 1. rewrite read_one_second_abort by lia.
      exists a0, arg, rest. split; [reflexivity|]. right. exact Hhi. }
    unfold wp at 1. rewrite read_one_second_eq by lia.
    destruct (read_loop_takes (Z.to_nat (1000000 / rv + 1)) w2) as (t & w3 & -> & _).
    unfold wp at 1, ret. apply Hrest. }
  destruct (_ || _); apply Hro.
Qed.

(** ** Sampling under a schedule *)

(** The sampling loop reads one byte per schedule entry up to the first
    interruption. *)
Lemma estimate_loop_schedule pre : forall fuel n w more,
  alarms w = (pre ++ Interrupted :: more)%list ->
  uninterrupted pre = true ->
  (List.length pre <= List.length (stdin_data w))%nat ->
  (List.length pre < fuel)%nat ->
  n + Z.of_nat (List.length pre) < SIZE_MOD -> 0 <= n ->
  exists w',
    estimate_loop fuel n w = Ret (n + Z.of_nat (List.length pre)) w' /\
    stdin_data w' = skipn (List.length pre) (stdin_data w) /\
    ring w' = (ring w ++ firstn (List.length pre) (stdin_data w))%list /\
    alarms w' = more /\ received_signal w' = true /\
    itimer w' = itimer w /\ stdout_data w' = stdout_data w /\
    stderr_data w' = stderr_data w /\ pauses w' = pauses w.
Proof.
  induction pre as [|a pre IH]; intros fuel n w more Ea Hu Hl Hf Hn Hn0.
  - destruct fuel as [|fuel]; [cbn in Hf; lia|].
    cbn [estimate_loop]. unfold bind at 1, getchar. cbn in Ea. rewrite Ea.
    eexists. split; [unfold ret; rewrite Z.add_0_r; reflexivity|].
    cbn. rewrite app_nil_r. repeat split.
  - destruct fuel as [|fuel]; [cbn in Hf; lia|].
    cbn [List.length] in *. cbn [uninterrupted forallb] in Hu.
    apply andb_prop in Hu as [Ha Hu].
    destruct (stdin_data w) as [|b bs] eqn:Es; [cbn in Hl; lia|].
    cbn [app] in Ea.
    cbn [estimate_loop]. unfold bind at 1.
    destruct (getchar_cases w) as
      [(b' & bs' & a' & l & Es' & Ea' & Hna & ->)
      |[(b' & bs' & Es' & Ea' & _)
      |[(l & Ea' & _)
      |(w1 & Es' & _)]]]; try congruence.
    2:{ rewrite Ea in Ea'. injection Ea' as -> _. discriminate Ha. }
    rewrite Es in Es'. injection Es' as <- <-.
    rewrite Ea in Ea'. injection Ea' as <- <-.
    unfold bind at 1, rb_xpush.
    assert (Hmod : (n + 1) mod SIZE_MOD = n + 1).
    { apply Z.mod_small. lia. }
    rewrite Hmod.
    match goal with |- context [estimate_loop fuel (n + 1) ?w0] =>
      destruct (IH fuel (n + 1) w0 more) as (w' & E & H1 & H2 & H3 & H4 & H5 & H6 & H7 & H8)
    end.
    + destruct (is_tick a); reflexivity.
    + exact Hu.
    + destruct (is_tick a); cbn in *; lia.
    + lia.
    + lia.
    + lia.
    + exists w'. rewrite E. split; [f_equal; lia|].
      assert (Hw : forall w0 : world, (if is_tick a then handle w0 else w0) = w0 \/
                                     (if is_tick a then handle w0 else w0) = handle w0)
        by (intros; destruct (is_tick a); auto).
      destruct (Hw (with_alarms (pre ++ Interrupted :: more) w)) as [Ew|Ew];
        rewrite Ew in *; cbn in *; rewrite H2, <- app_assoc; repeat split; auto.
Qed.

(** ** Numerals *)

Lemma digit_value_char d :
  (d <= 9)%nat -> Libc.digit_value (digit_char d) = Some (Z.of_nat d).
Proof.
  intros H. do 10 (destruct d as [|d]; [reflexivity|]). lia.
Qed.

(** [digits] reads a whole numeral. *)
Lemma digits_numeral base ds : forall acc,
  Forall (fun d => (d <= 9)%nat /\ Z.of_nat d < base) ds ->
  Libc.digits base acc (digits_string ds) =
  (fold_left (fun acc d => acc * base + Z.of_nat d) ds acc, EmptyString).
Proof.
  induction ds as [|d ds IH]; intros acc H; [reflexivity|].
  inversion H as [|? ? [Hd Hb] Hds]; subst.
  cbn [digits_string Libc.digits fold_left].
  rewrite digit_value_char by exact Hd.
  apply Z.ltb_lt in Hb. rewrite Hb. apply IH, Hds.
Qed.

(** A numeral denotes a natural number. *)
Lemma digits_value_bounds base ds :
  0 < base -> 0 <= digits_value base ds.
Proof.
  intros Hb. unfold digits_value.
  assert (H : forall acc, 0 <= acc ->
            0 <= fold_left (fun acc d => acc * base + Z.of_nat d) ds acc).
  { induction ds as [|d ds IH]; intros acc Ha; [exact Ha|].
    cbn [fold_left]. apply IH. nia. }
  apply H. lia.
Qed.

(** [strtoll] on a decimal numeral without a leading zero. *)
Lemma strtoll_decimal d ds :
  (1 <= d <= 9)%nat -> Forall (fun d => (d <= 9)%nat) ds ->
  digits_value 10 (d :: ds) <= Libc.LLONG_MAX ->
  Libc.strtoll (digits_string (d :: ds)) = (digits_value 10 (d :: ds), EmptyString).
Proof.
  intros Hd Hds Hv.
  assert (Hall : Forall (fun d => (d <= 9)%nat /\ Z.of_nat d < 10) (d :: ds)).
  { constructor; [lia|]. eapply Forall_impl; [|exact Hds]. cbv beta. lia. }
  pose proof (digits_numeral 10 (d :: ds) 0 Hall) as Hdig.
  pose proof (digits_value_bounds 10 (d :: ds) ltac:(lia)) as H0.
  unfold digits_value in *.
  assert (E : Libc.strtoll (digits_string (d :: ds)) =
              let '(v, rest) := Libc.digits 10 0 (digits_string (d :: ds)) in
              (Z.max Libc.LLONG_MIN (Z.min Libc.LLONG_MAX v), rest)).
  { cbn [digits_string].
    destruct d as [|d]; [lia|].
    do 9 (destruct d as [|d]; [reflexivity|]). lia. }
  rewrite E, Hdig.
  rewrite Z.min_r by lia. rewrite Z.max_r; [reflexivity|].
  unfold Libc.LLONG_MIN. lia.
Qed.

(** [strtoll] on a numeral with a leading zero reads it in base 8. *)
Lemma strtoll_octal ds :
  Forall (fun d => (d <= 7)%nat) ds ->
  digits_value 8 ds <= Libc.LLONG_MAX ->
  Libc.strtoll (digits_string (0%nat :: ds)) = (digits_value 8 ds, EmptyString).
Proof.
  intros Hds Hv.
  assert (Hall : Forall (fun d => (d <= 9)%nat /\ Z.of_nat d < 8) (0%nat :: ds)).
  { constructor; [lia|]. eapply Forall_impl; [|exact Hds]. cbv beta. lia. }
  pose proof (digits_numeral 8 (0%nat :: ds) 0 Hall) as Hdig.
  pose proof (digits_value_bounds 8 ds ltac:(lia)) as H0.
  unfold digits_value in *.
  assert (E : Libc.strtoll (digits_string (0%nat :: ds)) =
              let '(v, rest) := Libc.digits 8 0 (digits_string (0%nat :: ds)) in
              (Z.max Libc.LLONG_MIN (Z.min Libc.LLONG_MAX v), rest)).
  { destruct ds as [|d1 [|d2 ds]]; [reflexivity| |].
    - inversion Hds as [|? ? H1 _]; subst.
      do 8 (destruct d1 as [|d1]; [reflexivity|]). lia.
    - inversion Hds as [|? ? H1 H2]; subst.
      inversion H2 as [|? ? H3 _]; subst.
      cbn [digits_string].
      do 8 (destruct d1 as [|d1];
            [do 8 (destruct d2 as [|d2]; [reflexivity|]); lia|]). lia. }
  rewrite E, Hdig. cbn [fold_left]. change (0 * 8 + Z.of_nat 0) with 0.
  rewrite Z.min_r by lia. rewrite Z.max_r; [reflexivity|].
  unfold Libc.LLONG_MIN. lia.
Qed.

(** ** A stalled source *)

Lemma slow_down_floor_le i :
  20 <= i <= 1000000 -> slow_down_floor i <= scaled i factor_1_05.
Proof.
  intros Hi. unfold slow_down_floor.
  destruct (scaled_1_05_steps i ltac:(lia)) as (_ & H2 & _).
  specialize (H2 ltac:(lia)).
  pose proof (scaled_1_05_bounds i ltac:(lia)) as [_ Hb].
  apply Z.max_lub; [lia|].
  apply Z.lt_succ_r. apply Z.div_lt_upper_bound; lia.
Qed.

(** The bound grows with the interval, and passes 1000000 within
    [stall_limit] steps from 20. *)
Lemma slow_down_floor_mono i j : i <= j -> slow_down_floor i <= slow_down_floor j.
Proof.
  intros H. unfold slow_down_floor.
  apply Z.max_le_compat; [lia|]. apply Z.div_le_mono; lia.
Qed.

Lemma slow_down_floor_limit :
  1000000 < Nat.iter stall_limit slow_down_floor 20.
Proof. vm_compute. reflexivity. Qed.

(** One turn of the loop on a tick that finds the queue empty and no
    byte read: the interval grows, or the process exits. *)
Lemma stall_turn interval bytes_buffered w :
  stdin_stat w = FstatMode false -> ring w = [] -> received_signal w = true ->
  20 <= interval <= 1000000 -> bytes_buffered <= 0 ->
  (exists w', stream_body None interval bytes_buffered w = Stop (Exited 1) w' /\
              stderr_data w' = stderr_data w ++ slow_msg /\
              stdout_data w' = stdout_data w) \/
  (exists i' b' w', stream_body None interval bytes_buffered w = Ret (i', b') w' /\
      slow_down_floor interval <= i' <= 1000000 /\ b' <= 0 /\
      stdin_stat w' = FstatMode false /\ ring w' = [] /\
      alarms w' = alarms w /\ stderr_data w' = stderr_data w /\
      stdout_data w' = stdout_data w).
Proof.
  intros Hs Er Hsig Hi Hb.
  pose proof (slow_down_floor_le interval Hi) as Hfl.
  assert (Hup : interval + 1 <= slow_down_floor interval)
    by (unfold slow_down_floor; lia).
  unfold stream_body, bind, get_signal, rb_pop, rb_xpush, putchar_flush,
    set_signal, clear_errno, ret.
  rewrite Hsig, Er. rewrite (reset_timer_live _ _ _ Hs).
  assert (E1 : (scaled interval factor_1_05 <? 10) = false) by (apply Z.ltb_ge; lia).
  rewrite E1.
  destruct (1000000 <? scaled interval factor_1_05) eqn:E2.
  { left. eexists. split; [reflexivity|]. split; reflexivity. }
  apply Z.ltb_ge in E2.
  set (i1 := scaled interval factor_1_05) in *.
  assert (E3 : (DELAY_SIZE <? bytes_buffered - 1) = false)
    by (apply Z.ltb_ge; unfold DELAY_SIZE; lia).
  rewrite E3.
  destruct (bytes_buffered - 1 <? - DELAY_SIZE) eqn:E4.
  2:{ right. do 3 eexists. split; [reflexivity|].
  cbn [stdin_stat ring alarms stderr_data stdout_data with_itimer with_signal
       with_errno with_stderr with_ring].
      repeat split; auto; lia. }
  match goal with |- context [reset_timer i1 factor_1_05 ?w0] =>
    rewrite (reset_timer_live i1 factor_1_05 w0 Hs) end.
  pose proof (slow_down_floor_le i1 ltac:(lia)) as Hfl1.
  assert (Hup1 : i1 + 1 <= slow_down_floor i1) by (unfold slow_down_floor; lia).
  assert (E5 : (scaled i1 factor_1_05 <? 10) = false) by (apply Z.ltb_ge; lia).
  rewrite E5.
  destruct (1000000 <? scaled i1 factor_1_05) eqn:E6.
  { left. eexists. split; [reflexivity|]. split; reflexivity. }
  apply Z.ltb_ge in E6.
  right. do 3 eexists. split; [reflexivity|].
  cbn [stdin_stat ring alarms stderr_data stdout_data with_itimer with_signal
       with_errno with_stderr with_ring].
  repeat split; auto; lia.
Qed.

(** [n] interrupted reads in a row, [j] already done: the interval is
    past the [j]-th bound, so the process exits before the reads are used
    up. *)
Lemma stall_loop n : forall j fuel interval bytes_buffered w more,
  (j + n = stall_limit)%nat ->
  Nat.iter j slow_down_floor 20 <= interval -> 20 <= interval <= 1000000 ->
  stdin_stat w = FstatMode false -> ring w = [] -> bytes_buffered <= 0 ->
  alarms w = (repeat Interrupted n ++ more)%list -> (n < fuel)%nat ->
  exists w', stream_loop fuel interval bytes_buffered w = Stop (Exited 1) w' /\
             stderr_data w' = stderr_data w ++ slow_msg /\
             stdout_data w' = stdout_data w.
Proof.
  induction n as [|n IH]; intros j fuel interval bb w more Hj HL Hi Hs Er Hb Ea Hf.
  { exfalso. pose proof slow_down_floor_limit as Hlim.
    replace j with stall_limit in HL by lia. lia. }
  destruct fuel as [|fuel]; [lia|].
  cbn [repeat app] in Ea.
  cbn [stream_loop]. unfold bind at 1, getchar. rewrite Ea.
  unfold bind at 1. cbn [get_errno_EINTR errno_EINTR with_errno].
  set (w1 := with_errno true (handle (with_alarms (repeat Interrupted n ++ more) w))).
  destruct (stall_turn interval bb w1 Hs Er eq_refl Hi Hb)
    as [(w' & E & H1 & H2)|(i' & b' & w' & E & Hi' & Hb' & Hs' & Er' & Ea' & H1 & H2)].
  - exists w'. unfold bind at 1. rewrite E. rewrite H1, H2. repeat split.
  - unfold bind at 1. rewrite E.
    assert (H20 : interval + 1 <= slow_down_floor interval)
      by (unfold slow_down_floor; lia).
    destruct (IH (S j) fuel i' b' w' more) as (w2 & E2 & H3 & H4); auto; try lia.
    + cbn [Nat.iter]. etransitivity; [apply slow_down_floor_mono, HL|lia].
    + exists w2. split; [exact E2|]. rewrite H3, H4, H1, H2. split; reflexivity.
Qed.

(** ** The drift counter and the queue *)

(** One turn of the loop keeps the drift counter at or below the number
    of bytes queued. *)
Lemma stream_body_backlog c interval bytes_buffered w r w' :
  stream_body c interval bytes_buffered w = Ret r w' ->
  bytes_buffered <= Z.of_nat (List.length (ring w)) ->
  snd r <= Z.of_nat (List.length (ring w')) /\
  (DELAY_SIZE <
   bytes_buffered - (if received_signal w then 1 else 0)
   + Z.of_nat (List.length (opt_list c)) ->
   DELAY_SIZE < Z.of_nat (List.length (ring w'))).
Proof.
  intros H Hb. unfold DELAY_SIZE in *.
  destruct (received_signal w) eqn:Hsig; destruct (ring w) as [|b0 l0] eqn:Er;
    destruct c as [b|]; cbn [opt_list List.length] in *;
    change (Z.of_nat 1) with 1; change (Z.of_nat 0) with 0;
    run_body H; rewrite ?Hsig, ?Er in H; run_body H;
    injection H as <- <-; cbn [fst snd];
    repeat match goal with
           | R : _ \/ _ |- _ => destruct R as [(? & ? & ?)|(? & ? & ? & ?)]
           end; subst; unfold DELAY_SIZE in *;
    cbn [ring with_ring with_stdout with_signal with_errno with_itimer] in *;
    rewrite ?Er; cbn [List.length app]; rewrite ?List.length_app;
    cbn [List.length]; split; lia.
Qed.

(** The invariant holds around the whole loop. *)
Lemma stream_loop_backlog fuel : forall interval bytes_buffered w r w',
  stream_loop fuel interval bytes_buffered w = Ret r w' ->
  bytes_buffered <= Z.of_nat (List.length (ring w)) ->
  snd r <= Z.of_nat (List.length (ring w')).
Proof.
  induction fuel as [|fuel IH]; intros interval bb w r w' H Hb; [discriminate|].
  cbn [stream_loop] in H. unfold bind at 1 in H.
  pose proof (getchar_progress w) as G. unfold wp in G.
  destruct (getchar w) as [c w1|]; [|contradiction].
  destruct G as (_ & _ & Hr1 & _).
  unfold bind at 1 in H. cbn [get_errno_EINTR] in H.
  assert (Hgo : ('(interval0, bytes_buffered0) <- stream_body c interval bb;;
                 stream_loop fuel interval0 bytes_buffered0)%prog w1 = Ret r w' ->
                snd r <= Z.of_nat (List.length (ring w'))).
  { intros H'. unfold bind at 1 in H'.
    destruct (stream_body c interval bb w1) as [[i2 b2] w2|] eqn:Eb; [|discriminate].
    eapply IH; [exact H'|].
    apply (stream_body_backlog _ _ _ _ _ _ Eb). now rewrite Hr1. }
  destruct c as [b|]; [exact (Hgo H)|].
  destruct (errno_EINTR w1); [exact (Hgo H)|].
  injection H as <- <-. cbn [snd]. now rewrite Hr1.
Qed.

(** ** A run from the queue *)

(** With no signal to come the loop of [read_one_second] changes nothing
    but the input and the queue. *)
Lemma read_loop_quiet count : forall w,
  alarms w = [] ->
  read_loop count w =
  Ret tt (with_ring (ring w ++ firstn count (stdin_data w))
            (with_stdin (skipn count (stdin_data w)) w)).
Proof.
  induction count as [|count IH]; intros w Ea.
  { cbn. rewrite app_nil_r. destruct w; reflexivity. }
  cbn [read_loop]. unfold bind at 1, getchar, read_byte. rewrite Ea.
  destruct (stdin_data w) as [|b bs] eqn:Es.
  - cbn. rewrite app_nil_r. destruct w; cbn in *; subst; reflexivity.
  - unfold bind at 1, rb_xpush. rewrite IH by exact Ea.
    cbn. rewrite <- app_assoc. reflexivity.
Qed.

(** ** Turns that do not rescale *)

(** One turn of the loop on a byte read along with a tick, the queue not
    empty: the head of the queue is written, the byte queued, and neither
    the interval nor the drift counter changes. *)
Lemma steady_turn b interval bytes_buffered w q qs :
  received_signal w = true -> ring w = q :: qs ->
  - DELAY_SIZE <= bytes_buffered <= DELAY_SIZE ->
  stream_body (Some b) interval bytes_buffered w =
  Ret (interval, bytes_buffered)
      (with_ring (qs ++ [b])
         (with_errno false
            (with_signal false (with_stdout (stdout_data w ++ [q]) w)))).
Proof.
  intros Hsig Er Hb.
  unfold stream_body, bind, get_signal, rb_pop, rb_xpush, putchar_flush,
    set_signal, clear_errno, ret.
  rewrite Hsig, Er.
  replace (bytes_buffered - 1 + 1) with bytes_buffered by ring.
  assert (E1 : (DELAY_SIZE <? bytes_buffered) = false) by (apply Z.ltb_ge; lia).
  assert (E2 : (bytes_buffered <? - DELAY_SIZE) = false) by (apply Z.ltb_ge; lia).
  rewrite E1, E2. reflexivity.
Qed.

(** One turn of the loop on a byte read with no tick: the byte is queued
    and counted. *)
Lemma quiet_turn b interval bytes_buffered w :
  received_signal w = false ->
  - DELAY_SIZE <= bytes_buffered + 1 <= DELAY_SIZE ->
  stream_body (Some b) interval bytes_buffered w =
  Ret (interval, bytes_buffered + 1) (with_ring (ring w ++ [b]) w).
Proof.
  intros Hsig Hb.
  unfold stream_body, bind, get_signal, rb_pop, rb_xpush, putchar_flush,
    set_signal, clear_errno, ret.
  rewrite Hsig.
  assert (E1 : (DELAY_SIZE <? bytes_buffered + 1) = false) by (apply Z.ltb_ge; lia).
  assert (E2 : (bytes_buffered + 1 <? - DELAY_SIZE) = false) by (apply Z.ltb_ge; lia).
  rewrite E1, E2. reflexivity.
Qed.

(** The loop over an input [bs] whose every byte comes with a tick. *)
Lemma steady_loop bs : forall fuel interval bytes_buffered w,
  stdin_data w = bs -> alarms w = repeat Pending (List.length bs) ->
  ring w <> [] -> errno_EINTR w = false ->
  - DELAY_SIZE <= bytes_buffered <= DELAY_SIZE ->
  (List.length bs < fuel)%nat ->
  exists w',
    stream_loop fuel interval bytes_buffered w = Ret (interval, bytes_buffered) w' /\
    stdout_data w' =
      (stdout_data w ++ firstn (List.length bs) (ring w ++ bs))%list /\
    ring w' = skipn (List.length bs) (ring w ++ bs) /\
    stdin_data w' = [] /\ itimer w' = itimer w /\ stderr_data w' = stderr_data w.
Proof.
  induction bs as [|b bs IH]; intros fuel interval bb w Es Ea Er He Hb Hf.
  - destruct fuel as [|fuel]; [cbn in Hf; lia|].
    cbn [List.length repeat] in Ea.
    assert (G : getchar w = Ret None w)
      by (unfold getchar, read_byte; rewrite Ea, Es; reflexivity).
    cbn [stream_loop]. unfold bind at 1. rewrite G.
    unfold bind at 1. cbn [get_errno_EINTR]. rewrite He.
    exists w. cbn. rewrite !app_nil_r. repeat split; auto.
  - destruct fuel as [|fuel]; [cbn in Hf; lia|].
    cbn [List.length repeat] in Ea, Hf.
    assert (G : getchar w =
                Ret (Some b) (with_stdin bs (handle (with_alarms
                                (repeat Pending (List.length bs)) w))))
      by (unfold getchar, read_byte; rewrite Ea; cbn; rewrite Es; reflexivity).
    cbn [stream_loop]. unfold bind at 1. rewrite G.
    unfold bind at 1. cbn [get_errno_EINTR]. unfold bind at 1.
    destruct (ring w) as [|q qs] eqn:Eq; [contradiction|].
    rewrite (steady_turn b interval bb _ q qs); [|reflexivity|exact Eq|exact Hb].
    match goal with |- context [stream_loop fuel interval bb ?w0] =>
      destruct (IH fuel interval bb w0) as (w' & E & H1 & H2 & H3 & H4 & H5) end;
      try reflexivity; auto.
    + cbn. destruct qs; discriminate.
    + lia.
    + exists w'. split; [exact E|]. cbn in H1, H2, H4, H5.
      rewrite H1, H2. cbn [List.length firstn skipn app].
      rewrite <- !app_assoc. cbn [app]. repeat split; auto.
Qed.

(** The loop over an input [bs] read with no tick. *)
Lemma burst_loop bs : forall fuel interval bytes_buffered w,
  stdin_data w = bs -> alarms w = [] ->
  received_signal w = false -> errno_EINTR w = false ->
  - DELAY_SIZE <= bytes_buffered ->
  bytes_buffered + Z.of_nat (List.length bs) <= DELAY_SIZE ->
  (List.length bs < fuel)%nat ->
  stream_loop fuel interval bytes_buffered w =
  Ret (interval, bytes_buffered + Z.of_nat (List.length bs))
      (with_ring (ring w ++ bs) (with_stdin [] w)).
Proof.
  induction bs as [|b bs IH]; intros fuel interval bb w Es Ea Hsig He Hb Hn Hf.
  - destruct fuel as [|fuel]; [cbn in Hf; lia|].
    assert (G : getchar w = Ret None w)
      by (unfold getchar, read_byte; rewrite Ea, Es; reflexivity).
    cbn [stream_loop]. unfold bind at 1. rewrite G.
    unfold bind at 1. cbn [get_errno_EINTR]. rewrite He.
    unfold ret. cbn. rewrite Z.add_0_r, app_nil_r.
    f_equal. destruct w; cbn in *; subst; reflexivity.
  - destruct fuel as [|fuel]; [cbn in Hf; lia|].
    cbn [List.length] in Hn, Hf. rewrite Nat2Z.inj_succ in Hn.
    assert (G : getchar w = Ret (Some b) (with_stdin bs w))
      by (unfold getchar, read_byte; rewrite Ea, Es; reflexivity).
    cbn [stream_loop]. unfold bind at 1. rewrite G.
    unfold bind at 1. cbn [get_errno_EINTR]. unfold bind at 1.
    rewrite quiet_turn; [|exact Hsig|lia].
    rewrite IH; try reflexivity; auto; try lia.
    cbn [List.length]. rewrite Nat2Z.inj_succ.
    cbn. rewrite <- app_assoc. cbn [app]. f_equal. f_equal. lia.
Qed.

(** ** Sampling with no tick *)

(** A read with no tick in the schedule. *)
Lemma getchar_no_tick w :
  filter is_tick (alarms w) = [] ->
  exists l,
    filter is_tick l = [] /\
    getchar w =
    match stdin_data w with
    | b :: bs => Ret (Some b) (with_stdin bs (with_alarms l w))
    | [] => Ret None (with_alarms l w)
    end.
Proof.
  intros H. unfold getchar, read_byte.
  destruct (alarms w) as [|[] l] eqn:Ea; cbn in H; try discriminate.
  - exists []. split; [reflexivity|].
    destruct (stdin_data w); f_equal; destruct w; cbn in *; subst; reflexivity.
  - exists l. split; [exact H|].
    cbn. destruct (stdin_data w); reflexivity.
Qed.

(** The sampling loop with no tick reads the input to its end; the flag
    stays as it is. *)
Lemma estimate_loop_no_tick bs : forall fuel n w,
  stdin_data w = bs -> filter is_tick (alarms w) = [] ->
  (List.length bs < fuel)%nat ->
  exists r w',
    estimate_loop fuel n w = Ret r w' /\
    stdin_data w' = [] /\ ring w' = (ring w ++ bs)%list /\
    received_signal w' = received_signal w /\
    stdout_data w' = stdout_data w /\ stderr_data w' = stderr_data w /\
    itimer w' = itimer w.
Proof.
  induction bs as [|b bs IH]; intros fuel n w Es Ea Hf;
    (destruct fuel as [|fuel]; [cbn in Hf; lia|]);
    destruct (getchar_no_tick w Ea) as (l & El & G); rewrite Es in G;
    cbn [estimate_loop]; unfold bind at 1; rewrite G.
  - do 2 eexists. split; [reflexivity|]. cbn. rewrite app_nil_r. repeat split; auto.
  - unfold bind at 1, rb_xpush.
    match goal with |- context [estimate_loop fuel ?n0 ?w0] =>
      destruct (IH fuel n0 w0) as (r & w' & E & H1 & H2 & H3 & H4 & H5 & H6) end;
      try reflexivity; auto.
    + cbn in Hf. lia.
    + exists r, w'. split; [exact E|]. cbn in *.
      rewrite H2, <- app_assoc. repeat split; auto.
Qed.

End MoreFacts.

(* ================================================================== *)
(** ** Further behaviour of the program *)
(* ================================================================== *)

Import Props MoreFacts.

(** X1: however [main] is run, the bytes written to standard output never
    outnumber the signals delivered: what is written plus the signals
    still to come is at most what was written before plus the signals to
    come at the start, plus one if the flag was already set. *)
Theorem at_most_one_byte_per_tick (fuel : nat) (argv : list string) (w : world) :
  (List.length (stdout_data (final (main fuel argv w))) +
   signals_to_come (final (main fuel argv w)) <=
   List.length (stdout_data w) + signals_to_come w +
   (if received_signal w then 1 else 0))%nat.
Proof.
  pose proof (main_paced fuel argv w) as H. unfold wp, ticks_left in H.
  destruct (main fuel argv w); cbn [final]; lia.
Qed.

(** X2: once the input has ended, the second loop of [stream_data] writes
    the queue in order, one byte per tick.  With more ticks than bytes
    queued it returns with the whole queue on stdout, having waited for one
    tick more than there were bytes; with fewer, it has written the first
    [pauses w] bytes when the ticks end. *)
Theorem drain_emits_one_byte_per_tick (fuel : nat) (w : world) :
  (List.length (ring w) < fuel)%nat ->
  ((List.length (ring w) < pauses w)%nat ->
   exists w',
     drain_loop fuel w = Ret tt w' /\
     stdout_data w' = (stdout_data w ++ ring w)%list /\ ring w' = [] /\
     pauses w' = (pauses w - List.length (ring w) - 1)%nat) /\
  ((pauses w <= List.length (ring w))%nat ->
   exists w',
     drain_loop fuel w = Stop Blocked w' /\
     stdout_data w' = (stdout_data w ++ firstn (pauses w) (ring w))%list /\
     ring w' = skipn (pauses w) (ring w)).
Proof.
  intros Hf. pose proof (drain_loop_exact fuel w Hf) as H. unfold wp in H.
  destruct (drain_loop fuel w) as [[] w'|s w'].
  - destruct H as (H1 & H2 & H3 & H4 & _). split.
    + intros _. exists w'. auto.
    + intros Hp. lia.
  - destruct H as (-> & H1 & H2 & H3 & _). split.
    + intros Hp. lia.
    + intros _. exists w'. auto.
Qed.

(** The theorem above, applied to concrete states. *)
Lemma drain_emits_one_byte_per_tick_witness :
  (exists w',
     drain_loop 3 (with_ring [x61; x62] (start_world [] (FstatMode false) [] 3))
     = Ret tt w' /\
     stdout_data w' = [x61; x62] /\ ring w' = [] /\ pauses w' = 0%nat) /\
  (exists w',
     drain_loop 3 (with_ring [x61; x62] (start_world [] (FstatMode false) [] 1))
     = Stop Blocked w' /\
     stdout_data w' = [x61] /\ ring w' = [x62]).
Proof.
  split.
  - apply (proj1 (drain_emits_one_byte_per_tick 3
             (with_ring [x61; x62] (start_world [] (FstatMode false) [] 3))
             ltac:(vm_compute; lia))).
    vm_compute. lia.
  - apply (proj2 (drain_emits_one_byte_per_tick 3
             (with_ring [x61; x62] (start_world [] (FstatMode false) [] 1))
             ltac:(vm_compute; lia))).
    vm_compute. lia.
Defined.

(** X3: for an interval in [1, 999999], [read_one_second] returns, having
    moved a prefix of the input of at most [1000000 / interval + 1] bytes
    to the tail of the queue -- exactly that many, or the whole input if it
    is shorter, when no read is interrupted.  It writes nothing and leaves
    the timer alone. *)
Theorem read_one_second_prefills (interval : Z) (w : world) :
  1 <= interval <= 999999 ->
  exists taken w',
    read_one_second interval w = Ret tt w' /\
    stdin_data w = (taken ++ stdin_data w')%list /\
    ring w' = (ring w ++ taken)%list /\
    stdout_data w' = stdout_data w /\ stderr_data w' = stderr_data w /\
    itimer w' = itimer w /\
    Z.of_nat (List.length taken) <= 1000000 / interval + 1 /\
    (uninterrupted (alarms w) = true ->
     taken = firstn (Z.to_nat (1000000 / interval + 1)) (stdin_data w)).
Proof.
  intros Hi. rewrite read_one_second_eq by exact Hi.
  destruct (read_loop_takes (Z.to_nat (1000000 / interval + 1)) w)
    as (taken & w' & E & H1 & H2 & H3 & H4 & H5 & H6 & H7).
  exists taken, w'. repeat split; auto.
  assert (0 <= 1000000 / interval) by (apply Z.div_pos; lia). lia.
Qed.

(** The theorem above, applied to concrete states. *)
Lemma read_one_second_prefills_witness :
  exists taken w',
    read_one_second 400000 (start_world [x61; x62; x63; x64; x65] (FstatMode true) [] 0)
    = Ret tt w' /\
    [x61; x62; x63; x64; x65] = (taken ++ stdin_data w')%list /\
    ring w' = taken /\ stdout_data w' = [] /\ stderr_data w' = EmptyString /\
    itimer w' = [] /\
    Z.of_nat (List.length taken) <= 1000000 / 400000 + 1 /\
    (true = true -> taken = [x61; x62; x63]).
Proof.
  apply (read_one_second_prefills 400000
           (start_world [x61; x62; x63; x64; x65] (FstatMode true) [] 0)).
  lia.
Defined.

(** X4: an interval argument whose value is 0 or less, or 1000000 or more,
    makes [main] stop on a failed assert of [read_one_second], before any
    byte is read or the timer armed; by then the parser has printed the
    usage text unless the value is 0, and nothing for a plain 0. *)
Theorem out_of_range_argument_aborts
  (fuel : nat) (prog arg : string) (more : list string) (w : world) :
  sigaction_error w = None ->
  fst (Libc.strtoll arg) <= 0 \/ 1000000 <= fst (Libc.strtoll arg) ->
  exists w',
    main fuel (prog :: arg :: more) w = Stop Aborted w' /\
    stdin_data w' = stdin_data w /\ stdout_data w' = stdout_data w /\
    itimer w' = itimer w /\
    (fst (Libc.strtoll arg) <> 0 ->
     stderr_data w' = stderr_data w ++ usage_text) /\
    (Libc.strtoll arg = (0, EmptyString) -> stderr_data w' = stderr_data w).
Proof.
  intros Ha Hr. unfold main.
  unfold bind at 1, rb_create. unfold bind at 1, set_handler.
  cbn [sigaction_error with_ring]. rewrite Ha.
  unfold bind at 1. unfold bind at 1. rewrite parse_argument_spec. cbv zeta.
  destruct (Libc.strtoll arg) as [rv rest]. cbn [fst snd] in *.
  destruct ((rv <? 0) || (999999 <? rv) || negb (rest =? EmptyString)%string) eqn:E;
    unfold bind at 1; rewrite read_one_second_abort by exact Hr;
    eexists; (split; [reflexivity|]); cbn; repeat split; auto.
  - intros H. injection H as -> ->. discriminate E.
  - intros H. exfalso. apply orb_false_elim in E as [E _].
    apply orb_false_elim in E as [E1 E2]. apply Z.ltb_ge in E1, E2. lia.
Qed.

(** The theorem above, applied to concrete states. *)
Lemma out_of_range_argument_aborts_witness :
  (exists w',
     main 4 ["stream-buffer"; "0"] regular_world = Stop Aborted w' /\
     stdin_data w' = stdin_data regular_world /\
     stdout_data w' = stdout_data regular_world /\
     itimer w' = itimer regular_world /\
     (fst (Libc.strtoll "0") <> 0 ->
      stderr_data w' = stderr_data regular_world ++ usage_text) /\
     (Libc.strtoll "0" = (0, EmptyString) ->
      stderr_data w' = stderr_data regular_world)) /\
  (exists w',
     main 4 ["stream-buffer"; "1000000"] regular_world = Stop Aborted w' /\
     stdin_data w' = stdin_data regular_world /\
     stdout_data w' = stdout_data regular_world /\
     itimer w' = itimer regular_world /\
     (fst (Libc.strtoll "1000000") <> 0 ->
      stderr_data w' = stderr_data regular_world ++ usage_text) /\
     (Libc.strtoll "1000000" = (0, EmptyString) ->
      stderr_data w' = stderr_data regular_world)).
Proof.
  split.
  - apply (out_of_range_argument_aborts 4 "stream-buffer" "0" [] regular_world).
    + reflexivity.
    + left. vm_compute. discriminate.
  - apply (out_of_range_argument_aborts 4 "stream-buffer" "1000000" [] regular_world).
    + reflexivity.
    + right. vm_compute. discriminate.
Defined.

(** X5: an argument with text left after a number in [1, 999999] makes the
    parser print the usage text, and [main] then runs with that number as
    the interval: it reads ahead and streams as for a well-formed
    argument. *)
Theorem malformed_argument_only_warns
  (fuel : nat) (prog arg : string) (more : list string) (w : world) :
  sigaction_error w = None ->
  1 <= fst (Libc.strtoll arg) <= 999999 ->
  snd (Libc.strtoll arg) <> EmptyString ->
  main fuel (prog :: arg :: more) w =
  (read_loop (Z.to_nat (1000000 / fst (Libc.strtoll arg) + 1)) ;;
   stream_data fuel (fst (Libc.strtoll arg)) ;; ret 0)%prog
    (with_stderr (stderr_data w ++ usage_text) (with_ring [] w)).
Proof.
  intros Ha Hr Hs. unfold main.
  unfold bind at 1, rb_create. unfold bind at 1, set_handler.
  cbn [sigaction_error with_ring]. rewrite Ha.
  unfold bind at 1. unfold bind at 1. rewrite parse_argument_spec. cbv zeta.
  destruct (Libc.strtoll arg) as [rv rest]. cbn [fst snd] in *.
  apply String.eqb_neq in Hs. rewrite Hs. cbn [negb]. rewrite orb_true_r.
  unfold bind, ret. rewrite read_one_second_eq by exact Hr.
  destruct (read_loop _ _); reflexivity.
Qed.

(** The theorem above, applied to concrete states. *)
Lemma malformed_argument_only_warns_witness :
  main 8 ["stream-buffer"; "12ms"] regular_world =
  (read_loop (Z.to_nat (1000000 / fst (Libc.strtoll "12ms") + 1)) ;;
   stream_data 8 (fst (Libc.strtoll "12ms")) ;; ret 0)%prog
    (with_stderr (stderr_data regular_world ++ usage_text)
                 (with_ring [] regular_world)).
Proof.
  apply (malformed_argument_only_warns 8 "stream-buffer" "12ms" [] regular_world).
  - reflexivity.
  - vm_compute. split; discriminate.
  - vm_compute. discriminate.
Defined.

(** X6: when [sigaction] fails, [main] exits with status 1 after
    [perror]'s line, whatever the arguments, before reading anything. *)
Theorem sigaction_failure_is_fatal
  (fuel : nat) (argv : list string) (w : world) (e : string) :
  sigaction_error w = Some e ->
  main fuel argv w =
  Stop (Exited 1)
       (with_stderr (stderr_data w ++ "sigaction: " ++ e ++ newline)
                    (with_ring [] w)).
Proof.
  intros Ha. unfold main.
  unfold bind at 1, rb_create. unfold bind at 1, set_handler.
  cbn [sigaction_error with_ring]. rewrite Ha. reflexivity.
Qed.

(** The theorem above, applied to concrete states. *)
Lemma sigaction_failure_is_fatal_witness :
  main 8 ["stream-buffer"; "1000"]
       (World [x61] (FstatMode true) (Some "Invalid argument") [] 2 []
              EmptyString [] false false []) =
  Stop (Exited 1)
       (World [x61] (FstatMode true) (Some "Invalid argument") [] 2 []
              ("sigaction: Invalid argument" ++ newline) [] false false []).
Proof.
  apply (sigaction_failure_is_fatal 8 ["stream-buffer"; "1000"]
           (World [x61] (FstatMode true) (Some "Invalid argument") [] 2 []
                  EmptyString [] false false []) "Invalid argument").
  reflexivity.
Defined.

(** X7: without an interval argument [main] looks at standard input first:
    on a regular file it exits with status 1 after the message that the
    interval must be given, on a failed [fstat] after [perror]'s line, and
    otherwise it samples the input rate and streams at the interval
    found. *)
Theorem stdin_is_checked_before_sampling
  (fuel : nat) (argv : list string) (w : world) :
  sigaction_error w = None -> (List.length argv <= 1)%nat ->
  (stdin_stat w = FstatMode true ->
   main fuel argv w =
   Stop (Exited 1) (with_stderr (stderr_data w ++ regular_msg) (with_ring [] w))) /\
  (forall e, stdin_stat w = FstatError e ->
   main fuel argv w =
   Stop (Exited 1)
        (with_stderr (stderr_data w ++ "stdin: " ++ e ++ newline) (with_ring [] w))) /\
  (stdin_stat w = FstatMode false ->
   main fuel argv w =
   (interval <- estimate_input_rate fuel ;; stream_data fuel interval ;; ret 0)%prog
     (with_ring [] w)).
Proof.
  intros Ha Hn.
  assert (E : main fuel argv w =
    (interval <- (r <- is_regular STDIN_FILENO "stdin";;
                  (if r : bool
                   then eprint "Interval *must* be given if reading from ";;
                        eprint ("a regular file!!" ++ newline);; exit 1
                   else estimate_input_rate fuel));;
     stream_data fuel interval;; ret 0)%prog (with_ring [] w)).
  { unfold main. unfold bind at 1, rb_create. unfold bind at 1, set_handler.
    cbn [sigaction_error with_ring]. rewrite Ha.
    destruct argv as [|a0 [|arg rest]]; [reflexivity|reflexivity|cbn in Hn; lia]. }
  rewrite E. clear E.
  split; [|split]; [intros Hs|intros e Hs|intros Hs];
    unfold bind at 1; unfold bind at 1; unfold is_regular;
    cbn [stdin_stat with_ring]; rewrite Hs.
  - unfold bind, eprint, exit. cbn. unfold regular_msg.
    now rewrite string_app_assoc.
  - reflexivity.
  - reflexivity.
Qed.

(** The theorem above, applied to concrete states. *)
Lemma stdin_is_checked_before_sampling_witness :
  main 8 ["stream-buffer"] regular_world =
  Stop (Exited 1)
       (with_stderr (stderr_data regular_world ++ regular_msg)
                    (with_ring [] regular_world)) /\
  main 8 [] (start_world [x61] (FstatError "Bad file descriptor") [] 0) =
  Stop (Exited 1)
       (with_stderr ("stdin: Bad file descriptor" ++ newline)
                    (start_world [x61] (FstatError "Bad file descriptor") [] 0)).
Proof.
  split.
  - apply (proj1 (stdin_is_checked_before_sampling 8 ["stream-buffer"] regular_world
                    eq_refl ltac:(vm_compute; lia))).
    reflexivity.
  - apply (proj1 (proj2 (stdin_is_checked_before_sampling 8 []
                    (start_world [x61] (FstatError "Bad file descriptor") [] 0)
                    eq_refl ltac:(vm_compute; lia)))
             "Bad file descriptor").
    reflexivity.
Defined.

(** X8: the slow-down (factor 1.05) of a live source, for every interval in
    [1, 1000000]: below 10 it exits with the message for too fast an
    output; from 10 to 19 it re-arms the interval unchanged, the truncated
    product being the interval itself; from 20 to 952380 it arms a strictly
    longer interval, of at most 999999; at 952381 it returns 1000000, a
    setting the kernel refuses, so the timer stays as it was; from 952382
    on it exits with the message for too slow an output. *)
Theorem slow_down_steps (interval : Z) (w : world) :
  stdin_stat w = FstatMode false -> 1 <= interval <= 1000000 ->
  (interval <= 9 ->
   reset_timer interval factor_1_05 w =
   Stop (Exited 1) (with_stderr (stderr_data w ++ fast_msg) w)) /\
  (10 <= interval <= 19 ->
   reset_timer interval factor_1_05 w =
   Ret interval (with_itimer (itimer w ++ [(interval, interval)]) w) /\
   armed (itimer w ++ [(interval, interval)]) =
   (armed (itimer w) ++ [(interval, interval)])%list) /\
  (20 <= interval <= 952380 ->
   exists n, interval < n <= 999999 /\
     reset_timer interval factor_1_05 w =
     Ret n (with_itimer (itimer w ++ [(n, n)]) w) /\
     armed (itimer w ++ [(n, n)]) = (armed (itimer w) ++ [(n, n)])%list) /\
  (interval = 952381 ->
   reset_timer interval factor_1_05 w =
   Ret 1000000
       (with_errno false (with_itimer (itimer w ++ [(1000000, 1000000)]) w)) /\
   armed (itimer w ++ [(1000000, 1000000)]) = armed (itimer w)) /\
  (952382 <= interval ->
   reset_timer interval factor_1_05 w =
   Stop (Exited 1) (with_stderr (stderr_data w ++ slow_msg) w)).
Proof.
  intros Hs Hi. rewrite (reset_timer_live _ _ _ Hs).
  destruct (scaled_1_05_steps interval Hi) as (H1 & H2 & H3 & H4 & H5).
  split; [|split; [|split; [|split]]]; intros H.
  - rewrite H1 by lia.
    assert (E : (interval <? 10) = true) by (apply Z.ltb_lt; lia).
    now rewrite E.
  - rewrite H1 by lia.
    assert (E1 : (interval <? 10) = false) by (apply Z.ltb_ge; lia).
    assert (E2 : (1000000 <? interval) = false) by (apply Z.ltb_ge; lia).
    rewrite E1, E2, armed_snoc, (accepted_usec interval) by lia.
    split; reflexivity.
  - exists (scaled interval factor_1_05).
    specialize (H2 ltac:(lia)). specialize (H3 ltac:(lia)).
    split; [lia|].
    assert (E1 : (scaled interval factor_1_05 <? 10) = false) by (apply Z.ltb_ge; lia).
    assert (E2 : (1000000 <? scaled interval factor_1_05) = false)
      by (apply Z.ltb_ge; lia).
    rewrite E1, E2, armed_snoc, (accepted_usec (scaled interval factor_1_05)) by lia.
    split; reflexivity.
  - subst interval.
    assert (E : scaled 952381 factor_1_05 = 1000000) by (vm_compute; reflexivity).
    rewrite E, armed_snoc. split; [reflexivity|]. cbn. apply app_nil_r.
  - specialize (H5 H).
    assert (E1 : (scaled interval factor_1_05 <? 10) = false) by (apply Z.ltb_ge; lia).
    assert (E2 : (1000000 <? scaled interval factor_1_05) = true)
      by (apply Z.ltb_lt; lia).
    now rewrite E1, E2.
Qed.

(** The theorem above, applied to concrete states. *)
Lemma slow_down_steps_witness :
  (reset_timer 15 factor_1_05 live_world =
   Ret 15 (with_itimer (itimer live_world ++ [(15, 15)]) live_world) /\
   armed (itimer live_world ++ [(15, 15)]) =
   (armed (itimer live_world) ++ [(15, 15)])%list) /\
  (exists n, 20 < n <= 999999 /\
     reset_timer 20 factor_1_05 live_world =
     Ret n (with_itimer (itimer live_world ++ [(n, n)]) live_world) /\
     armed (itimer live_world ++ [(n, n)]) =
     (armed (itimer live_world) ++ [(n, n)])%list) /\
  (reset_timer 952381 factor_1_05 live_world =
   Ret 1000000
       (with_errno false
          (with_itimer (itimer live_world ++ [(1000000, 1000000)]) live_world)) /\
   armed (itimer live_world ++ [(1000000, 1000000)]) = armed (itimer live_world)) /\
  reset_timer 952382 factor_1_05 live_world =
  Stop (Exited 1) (with_stderr (stderr_data live_world ++ slow_msg) live_world) /\
  reset_timer 2 factor_1_05 live_world =
  Stop (Exited 1) (with_stderr (stderr_data live_world ++ fast_msg) live_world).
Proof.
  split; [|split; [|split; [|split]]].
  - apply (proj1 (proj2 (slow_down_steps 15 live_world eq_refl ltac:(lia)))). lia.
  - apply (proj1 (proj2 (proj2 (slow_down_steps 20 live_world eq_refl ltac:(lia))))).
    lia.
  - apply (proj1 (proj2 (proj2 (proj2 (slow_down_steps 952381 live_world eq_refl
                                          ltac:(lia)))))).
    reflexivity.
  - apply (proj2 (proj2 (proj2 (proj2 (slow_down_steps 952382 live_world eq_refl
                                          ltac:(lia)))))).
    lia.
  - apply (proj1 (slow_down_steps 2 live_world eq_refl ltac:(lia))). lia.
Defined.

(** X9: the speed-up (factor 0.95) of a live source, for every interval in
    [1, 1000000]: up to 10 it exits with the message for too fast an
    output; from 11 on it arms a strictly shorter interval, of at least
    10. *)
Theorem speed_up_steps (interval : Z) (w : world) :
  stdin_stat w = FstatMode false -> 1 <= interval <= 1000000 ->
  (interval <= 10 ->
   reset_timer interval factor_0_95 w =
   Stop (Exited 1) (with_stderr (stderr_data w ++ fast_msg) w)) /\
  (11 <= interval ->
   exists n, 10 <= n < interval /\
     reset_timer interval factor_0_95 w =
     Ret n (with_itimer (itimer w ++ [(n, n)]) w)).
Proof.
  intros Hs Hi. rewrite (reset_timer_live _ _ _ Hs).
  destruct (scaled_0_95_steps interval Hi) as (H1 & H2 & H3).
  split; intros H.
  - specialize (H2 H).
    assert (E : (scaled interval factor_0_95 <? 10) = true) by (apply Z.ltb_lt; lia).
    now rewrite E.
  - specialize (H3 H). exists (scaled interval factor_0_95). split; [lia|].
    assert (E1 : (scaled interval factor_0_95 <? 10) = false) by (apply Z.ltb_ge; lia).
    assert (E2 : (1000000 <? scaled interval factor_0_95) = false)
      by (apply Z.ltb_ge; lia).
    rewrite E1, E2, (accepted_usec (scaled interval factor_0_95)) by lia.
    reflexivity.
Qed.

(** The theorem above, applied to concrete states. *)
Lemma speed_up_steps_witness :
  reset_timer 10 factor_0_95 live_world =
  Stop (Exited 1) (with_stderr (stderr_data live_world ++ fast_msg) live_world) /\
  (exists n, 10 <= n < 11 /\
     reset_timer 11 factor_0_95 live_world =
     Ret n (with_itimer (itimer live_world ++ [(n, n)]) live_world)).
Proof.
  split.
  - apply (proj1 (speed_up_steps 10 live_world eq_refl ltac:(lia))). lia.
  - apply (proj2 (speed_up_steps 11 live_world eq_refl ltac:(lia))). lia.
Defined.

(** X10: the calls of [setitimer] in a run of [stream_data], however it
    ends: first the interval it was called with, then a chain in which
    every call is periodic, asks for a value in [10, 1000000] and asks for
    the interval the program holds rescaled by 1.05 or by 0.95.  The kernel
    takes the calls of the chain up to 999999 and refuses only a call for
    1000000: every setting the timer takes from the chain is periodic and
    lies in [10, 999999]. *)
Theorem timer_calls_move_in_five_percent_steps
  (fuel : nat) (interval : Z) (w : world) :
  exists l,
    itimer (final (stream_data fuel interval w)) =
    (itimer w ++ (interval, interval) :: l)%list /\
    rescale_chain interval l = true /\
    Forall (fun p => fst p = snd p /\ 10 <= fst p <= 1000000) l /\
    Forall (fun p => fst p = snd p /\ 10 <= fst p <= 999999) (armed l) /\
    (forall p, In p l -> ~ In p (armed l) -> p = (1000000, 1000000)).
Proof.
  pose proof (stream_data_chain fuel interval w) as H. unfold wp in H.
  assert (R : forall l, rescale_chain interval l = true ->
              Forall (fun p => fst p = snd p /\ 10 <= fst p <= 1000000) l /\
              Forall (fun p => fst p = snd p /\ 10 <= fst p <= 999999) (armed l) /\
              (forall p, In p l -> ~ In p (armed l) -> p = (1000000, 1000000))).
  { intros l C. pose proof (rescale_chain_range _ _ C) as F.
    split; [exact F|]. rewrite Forall_forall in F. split.
    - apply Forall_forall. intros p Hp. unfold armed in Hp.
      apply filter_In in Hp. destruct Hp as [Hp Ha].
      destruct (F p Hp) as [E B]. split; [exact E|].
      unfold accepted, canonical_usec in Ha.
      apply andb_prop in Ha. destruct Ha as [Ha _].
      apply andb_prop in Ha. destruct Ha as [_ Ha].
      apply Z.leb_le in Ha. lia.
    - intros p Hp Hn. destruct (F p Hp) as [E B].
      destruct p as [a b]. cbn [fst snd] in E, B. subst b.
      destruct (Z_le_gt_dec a 999999) as [Hle|Hgt].
      + exfalso. apply Hn. unfold armed. apply filter_In. split; [exact Hp|].
        apply accepted_usec. lia.
      + f_equal; lia. }
  destruct (stream_data fuel interval w) as [r w'|s w']; destruct H as (l & E & C);
    exists l; cbn [final]; (split; [exact E|split; [exact C|apply R, C]]).
Qed.

(** X11: a decimal numeral without a leading zero whose value is at most
    999999 is returned as its value, and nothing is printed; a numeral
    with a leading zero is read in base 8, as [strtoll] does for base 0. *)
Theorem numeral_argument_is_read_in_its_base :
  (forall d ds w,
     (1 <= d <= 9)%nat -> Forall (fun d => (d <= 9)%nat) ds ->
     digits_value 10 (d :: ds) <= 999999 ->
     parse_argument_for_interval (digits_string (d :: ds)) w =
     Ret (digits_value 10 (d :: ds)) w) /\
  (forall ds w,
     Forall (fun d => (d <= 7)%nat) ds -> digits_value 8 ds <= 999999 ->
     parse_argument_for_interval (digits_string (0%nat :: ds)) w =
     Ret (digits_value 8 ds) w).
Proof.
  split.
  - intros d ds w Hd Hds Hv. rewrite parse_argument_spec.
    rewrite strtoll_decimal; auto.
    2:{ unfold Libc.LLONG_MAX. lia. }
    cbn [fst snd]. cbv zeta.
    pose proof (digits_value_bounds 10 (d :: ds) ltac:(lia)) as H0.
    assert (E1 : (digits_value 10 (d :: ds) <? 0) = false) by (apply Z.ltb_ge; lia).
    assert (E2 : (999999 <? digits_value 10 (d :: ds)) = false) by (apply Z.ltb_ge; lia).
    now rewrite E1, E2.
  - intros ds w Hds Hv. rewrite parse_argument_spec.
    rewrite strtoll_octal; auto.
    2:{ unfold Libc.LLONG_MAX. lia. }
    cbn [fst snd]. cbv zeta.
    pose proof (digits_value_bounds 8 ds ltac:(lia)) as H0.
    assert (E1 : (digits_value 8 ds <? 0) = false) by (apply Z.ltb_ge; lia).
    assert (E2 : (999999 <? digits_value 8 ds) = false) by (apply Z.ltb_ge; lia).
    now rewrite E1, E2.
Qed.

(** The theorem above, applied to concrete states. *)
Lemma numeral_argument_is_read_in_its_base_witness :
  parse_argument_for_interval "1000" live_world = Ret 1000 live_world /\
  parse_argument_for_interval "0100" live_world = Ret 64 live_world.
Proof.
  split.
  - apply (proj1 numeral_argument_is_read_in_its_base 1%nat [0; 0; 0]%nat live_world).
    + lia.
    + repeat constructor.
    + vm_compute. discriminate.
  - apply (proj2 numeral_argument_is_read_in_its_base [1; 0; 0]%nat live_world).
    + repeat constructor.
    + vm_compute. discriminate.
Defined.

(** X12: whenever [main] stops with an exit status, the status is 1 and
    the last thing written to stderr is one of the diagnostics of the
    program; and it stops on a failed assert only for an interval argument
    outside [1, 999999] -- the assert of [estimate_input_rate] never
    fails. *)
Theorem fatal_exits_are_diagnosed
  (fuel : nat) (argv : list string) (w : world) (s : stop) (w' : world) :
  main fuel argv w = Stop s w' ->
  (forall status, s = Exited status -> status = 1 /\ diagnosed w') /\
  (s = Aborted ->
   exists prog arg more, argv = prog :: arg :: more /\
     (fst (Libc.strtoll arg) <= 0 \/ 1000000 <= fst (Libc.strtoll arg))).
Proof.
  intros E. pose proof (main_stops fuel argv w) as H. unfold wp in H.
  rewrite E in H. split.
  - intros status ->. exact H.
  - intros ->. exact H.
Qed.

(** The theorem above, applied to concrete states. *)
Lemma fatal_exits_are_diagnosed_witness :
  (forall status, Exited 1 = Exited status ->
     status = 1 /\
     diagnosed (World [] (FstatMode false) None [] 4 [] low_msg [(999999, 0)]
                      false false [x61])) /\
  (Aborted = Aborted ->
   exists prog arg more, ["stream-buffer"; "0"] = prog :: arg :: more /\
     (fst (Libc.strtoll arg) <= 0 \/ 1000000 <= fst (Libc.strtoll arg))).
Proof.
  split.
  - apply (proj1 (fatal_exits_are_diagnosed 4 ["stream-buffer"]
                    (start_world [x61] (FstatMode false) [] 4) (Exited 1)
                    (World [] (FstatMode false) None [] 4 [] low_msg [(999999, 0)]
                           false false [x61])
                    ltac:(vm_compute; reflexivity))).
  - apply (proj2 (fatal_exits_are_diagnosed 4 ["stream-buffer"; "0"]
                    regular_world Aborted (with_ring [] regular_world)
                    ltac:(vm_compute; reflexivity))).
Defined.

(** X13: when the first interruption of a read comes after [k >= 2] reads
    that each delivered a byte, the estimator returns [1000000 / (k - 1)]:
    the [k] bytes are queued in order, the one-shot window has been armed,
    the flag is cleared and nothing is written. *)
Theorem estimator_counts_bytes_before_first_interruption
  (fuel : nat) (w : world) (pre more : list alarm) :
  alarms w = (pre ++ Interrupted :: more)%list ->
  uninterrupted pre = true ->
  2 <= Z.of_nat (List.length pre) <= 1000000 ->
  (List.length pre <= List.length (stdin_data w))%nat ->
  (List.length pre < fuel)%nat ->
  exists w',
    estimate_input_rate fuel w =
    Ret (1000000 / (Z.of_nat (List.length pre) - 1)) w' /\
    stdin_data w' = skipn (List.length pre) (stdin_data w) /\
    ring w' = (ring w ++ firstn (List.length pre) (stdin_data w))%list /\
    alarms w' = more /\ received_signal w' = false /\
    itimer w' = (itimer w ++ [(999999, 0)])%list /\
    stdout_data w' = stdout_data w.
Proof.
  intros Ea Hu Hk Hl Hf.
  destruct pre as [|a pre]; [cbn in Hk; lia|].
  cbn [List.length] in *. cbn [uninterrupted forallb] in Hu.
  apply andb_prop in Hu as [Ha Hu]. cbn [app] in Ea.
  destruct (stdin_data w) as [|b bs] eqn:Es; [cbn in Hl; lia|].
  unfold estimate_input_rate, estimate_window.
  unfold bind at 1. unfold bind at 1.
  destruct (getchar_cases w) as
    [(b' & bs' & a' & l & Es' & Ea' & Hna & ->)
    |[(b' & bs' & Es' & Ea' & _)
    |[(l & Ea' & _)
    |(w1 & Es' & _)]]]; try congruence.
  2:{ rewrite Ea in Ea'. injection Ea' as -> _. discriminate Ha. }
  rewrite Es in Es'. injection Es' as <- <-.
  rewrite Ea in Ea'. injection Ea' as <- <-.
  unfold bind at 1, rb_xpush. unfold bind at 1, set_timer, setitimer.
  unfold bind at 1, clear_errno.
  match goal with |- context [estimate_loop fuel 0 ?w0] =>
    destruct (estimate_loop_schedule pre fuel 0 w0 more)
      as (w' & E & H1 & H2 & H3 & H4 & H5 & H6 & H7 & H8)
  end.
  - destruct (is_tick a); reflexivity.
  - exact Hu.
  - destruct (is_tick a); cbn in *; lia.
  - lia.
  - unfold SIZE_MOD. change (2 ^ 64) with 18446744073709551616. lia.
  - lia.
  - rewrite E. rewrite estimate_result_ok; [|exact H4|lia].
    eexists. split; [do 2 f_equal; lia|].
    assert (Hw : forall w0 : world, (if is_tick a then handle w0 else w0) = w0 \/
                                   (if is_tick a then handle w0 else w0) = handle w0)
      by (intros; destruct (is_tick a); auto).
    destruct (Hw (with_alarms (pre ++ Interrupted :: more) w)) as [Ew|Ew];
      rewrite Ew in *; cbn in *; rewrite H2, <- app_assoc; repeat split; auto.
Qed.

(** The theorem above, applied to concrete states. *)
Lemma estimator_counts_bytes_before_first_interruption_witness :
  exists w',
    estimate_input_rate 8 sampled_world = Ret (1000000 / (3 - 1)) w' /\
    stdin_data w' = [x64] /\ ring w' = [x61; x62; x63] /\ alarms w' = [] /\
    received_signal w' = false /\ itimer w' = [(999999, 0)] /\
    stdout_data w' = [].
Proof.
  apply (estimator_counts_bytes_before_first_interruption 8 sampled_world
           [Quiet; Quiet; Quiet] []).
  - reflexivity.
  - reflexivity.
  - vm_compute. split; intros H; discriminate H.
  - vm_compute. lia.
  - vm_compute. lia.
Defined.

(** X14: the drift counter never exceeds the number of bytes queued: one
    turn of the first loop of [stream_data] keeps
    [bytes_buffered <= length of the queue], and so does the whole loop;
    hence the speed-up past +1024 is only taken with more than 1024 bytes
    queued. *)
Theorem speed_up_needs_backlog :
  (forall c interval bytes_buffered w r w',
     stream_body c interval bytes_buffered w = Ret r w' ->
     bytes_buffered <= Z.of_nat (List.length (ring w)) ->
     snd r <= Z.of_nat (List.length (ring w')) /\
     (DELAY_SIZE <
      bytes_buffered - (if received_signal w then 1 else 0)
      + Z.of_nat (List.length (opt_list c)) ->
      DELAY_SIZE < Z.of_nat (List.length (ring w')))) /\
  (forall fuel interval bytes_buffered w r w',
     stream_loop fuel interval bytes_buffered w = Ret r w' ->
     bytes_buffered <= Z.of_nat (List.length (ring w)) ->
     snd r <= Z.of_nat (List.length (ring w'))).
Proof.
  split.
  - apply stream_body_backlog.
  - intros fuel. apply stream_loop_backlog.
Qed.

(** The theorem above, applied to concrete states. *)
Lemma speed_up_needs_backlog_witness :
  snd (950, 0) <=
  Z.of_nat (List.length
              (ring (with_itimer [(950, 950)]
                       (with_ring (repeat x61 1025) live_world)))) /\
  (DELAY_SIZE <
   1024 - (if received_signal (with_ring (repeat x61 1024) live_world)
           then 1 else 0)
   + Z.of_nat (List.length (opt_list (Some x61))) ->
   DELAY_SIZE <
   Z.of_nat (List.length
               (ring (with_itimer [(950, 950)]
                        (with_ring (repeat x61 1025) live_world))))).
Proof.
  apply (proj1 speed_up_needs_backlog (Some x61) 1000 1024
           (with_ring (repeat x61 1024) live_world) (950, 0)
           (with_itimer [(950, 950)] (with_ring (repeat x61 1025) live_world))).
  - vm_compute. reflexivity.
  - vm_compute. discriminate.
Defined.

(** X15: a live source that stalls is fatal.  From an interval in
    [20, 1000000] and with the queue empty, 253 reads in a row that a tick
    interrupts before any byte arrives end the process with status 1 and
    the message for too slow an output; nothing is written to stdout. *)
Theorem stalled_source_is_fatal
  (fuel : nat) (interval bytes_buffered : Z) (w : world) (more : list alarm) :
  stdin_stat w = FstatMode false -> ring w = [] ->
  20 <= interval <= 1000000 -> bytes_buffered <= 0 ->
  alarms w = (repeat Interrupted stall_limit ++ more)%list ->
  (stall_limit < fuel)%nat ->
  exists w',
    stream_loop fuel interval bytes_buffered w = Stop (Exited 1) w' /\
    stderr_data w' = stderr_data w ++ slow_msg /\
    stdout_data w' = stdout_data w.
Proof.
  intros Hs Er Hi Hb Ea Hf.
  apply (stall_loop stall_limit 0 fuel interval bytes_buffered w more); auto.
  change (20 <= interval). lia.
Qed.

(** The theorem above, applied to concrete states. *)
Lemma stalled_source_is_fatal_witness :
  exists w',
    stream_loop 254 500000 0
      (start_world [] (FstatMode false) (repeat Interrupted 253) 0)
    = Stop (Exited 1) w' /\
    stderr_data w' = slow_msg /\ stdout_data w' = [].
Proof.
  apply (stalled_source_is_fatal 254 500000 0
           (start_world [] (FstatMode false) (repeat Interrupted 253) 0) []).
  - reflexivity.
  - reflexivity.
  - lia.
  - lia.
  - vm_compute. reflexivity.
  - vm_compute. lia.
Defined.

(** X16: a whole run on an input short enough to be read ahead whole, with
    a well-formed interval and no signal during the reads: [main] arms the
    timer once, writes the input in order, one byte per tick, and returns
    0 when the ticks outnumber the bytes; with fewer ticks it has written
    one byte per tick when they end. *)
Theorem short_input_is_paced_from_the_queue
  (fuel : nat) (prog arg : string) (more : list string) (interval : Z) (w : world) :
  sigaction_error w = None -> alarms w = [] ->
  Libc.strtoll arg = (interval, EmptyString) -> 1 <= interval <= 999999 ->
  Z.of_nat (List.length (stdin_data w)) <= 1000000 / interval + 1 ->
  (List.length (stdin_data w) < fuel)%nat ->
  ((List.length (stdin_data w) < pauses w)%nat ->
   exists w',
     main fuel (prog :: arg :: more) w = Ret 0 w' /\
     stdout_data w' = (stdout_data w ++ stdin_data w)%list /\
     itimer w' = (itimer w ++ [(interval, interval)])%list /\
     stderr_data w' = stderr_data w /\
     pauses w' = (pauses w - List.length (stdin_data w) - 1)%nat) /\
  ((pauses w <= List.length (stdin_data w))%nat ->
   exists w',
     main fuel (prog :: arg :: more) w = Stop Blocked w' /\
     stdout_data w' = (stdout_data w ++ firstn (pauses w) (stdin_data w))%list /\
     itimer w' = (itimer w ++ [(interval, interval)])%list).
Proof.
  intros Ha Ea Harg Hi Hlen Hf.
  assert (E : main fuel (prog :: arg :: more) w =
    (drain_loop fuel ;; ret 0)%prog
      (with_errno false
         (with_itimer (itimer w ++ [(interval, interval)])
            (with_ring (stdin_data w) (with_stdin [] w))))).
  { unfold main. unfold bind at 1, rb_create. unfold bind at 1, set_handler.
    cbn [sigaction_error with_ring]. rewrite Ha.
    unfold bind at 1. unfold bind at 1. rewrite parse_argument_spec, Harg.
    cbn [fst snd]. cbv zeta.
    assert (E1 : (interval <? 0) = false) by (apply Z.ltb_ge; lia).
    assert (E2 : (999999 <? interval) = false) by (apply Z.ltb_ge; lia).
    rewrite E1, E2. cbn [orb negb String.eqb].
    unfold bind at 1. rewrite read_one_second_eq by exact Hi.
    rewrite read_loop_quiet by exact Ea.
    cbn [ring stdin_data with_ring app].
    rewrite firstn_all2 by lia. rewrite skipn_all2 by lia.
    unfold ret at 1. unfold bind at 1.
    destruct fuel as [|fuel]; [lia|].
    unfold stream_data. unfold bind at 1, set_timer, setitimer.
    unfold bind at 1, clear_errno. unfold bind at 1.
    cbn [stream_loop]. unfold bind at 1, getchar, read_byte.
    cbn [alarms stdin_data with_errno with_itimer with_ring with_stdin].
    rewrite Ea. unfold bind at 1. cbn [get_errno_EINTR errno_EINTR with_errno].
    unfold ret at 1. unfold bind at 1, clear_errno.
    destruct w; reflexivity. }
  rewrite E. clear E.
  set (w0 := with_errno false _).
  pose proof (drain_loop_exact fuel w0) as H. unfold wp in H.
  specialize (H Hf). unfold bind.
  destruct (drain_loop fuel w0) as [[] w'|s w'].
  - destruct H as (H1 & H2 & H3 & H4 & H5 & H6 & H7). cbn in H1, H2, H4, H6, H7.
    split.
    + intros _. exists w'. unfold ret. repeat split; auto.
    + intros Hp. lia.
  - destruct H as (-> & H1 & H2 & H3 & H4 & H5 & H6). cbn in H1, H2, H5. split.
    + intros Hp. lia.
    + intros _. exists w'. auto.
Qed.

(** The theorem above, applied to concrete states. *)
Lemma short_input_is_paced_from_the_queue_witness :
  exists w',
    main 4 ["stream-buffer"; "1000"]
         (start_world [x61; x62; x63] (FstatMode false) [] 4) = Ret 0 w' /\
    stdout_data w' = [x61; x62; x63] /\ itimer w' = [(1000, 1000)] /\
    stderr_data w' = EmptyString /\ pauses w' = 0%nat.
Proof.
  apply (proj1 (short_input_is_paced_from_the_queue 4 "stream-buffer" "1000" [] 1000
                  (start_world [x61; x62; x63] (FstatMode false) [] 4)
                  eq_refl eq_refl eq_refl ltac:(lia)
                  ltac:(vm_compute; discriminate) ltac:(vm_compute; lia))).
  vm_compute. lia.
Defined.

(** X17: a source in step with the timer is stable.  When every read
    delivers a byte along with a tick, the queue is not empty and the drift
    counter lies in [-1024, 1024], the first loop of [stream_data] writes
    one byte per byte read, in order, from the head of the queue; the
    queue keeps its length, the interval and the drift counter keep their
    values, and the timer is left alone. *)
Theorem matched_rate_is_stable
  (fuel : nat) (interval bytes_buffered : Z) (w : world) :
  alarms w = repeat Pending (List.length (stdin_data w)) ->
  ring w <> [] -> errno_EINTR w = false ->
  - DELAY_SIZE <= bytes_buffered <= DELAY_SIZE ->
  (List.length (stdin_data w) < fuel)%nat ->
  exists w',
    stream_loop fuel interval bytes_buffered w = Ret (interval, bytes_buffered) w' /\
    stdout_data w' =
      (stdout_data w ++
       firstn (List.length (stdin_data w)) (ring w ++ stdin_data w))%list /\
    ring w' = skipn (List.length (stdin_data w)) (ring w ++ stdin_data w) /\
    List.length (ring w') = List.length (ring w) /\
    itimer w' = itimer w /\ stderr_data w' = stderr_data w.
Proof.
  intros Ea Er He Hb Hf.
  destruct (steady_loop (stdin_data w) fuel interval bytes_buffered w)
    as (w' & E & H1 & H2 & H3 & H4 & H5); auto.
  exists w'. repeat split; auto.
  rewrite H2, List.length_skipn, List.length_app. lia.
Qed.

(** The theorem above, applied to concrete states. *)
Lemma matched_rate_is_stable_witness :
  exists w',
    stream_loop 4 1000 0
      (with_ring [x61]
         (start_world [x62; x63] (FstatMode false) [Pending; Pending] 0))
    = Ret (1000, 0) w' /\
    stdout_data w' = [x61; x62] /\ ring w' = [x63] /\
    List.length (ring w') = 1%nat /\ itimer w' = [] /\
    stderr_data w' = EmptyString.
Proof.
  apply (matched_rate_is_stable 4 1000 0
           (with_ring [x61]
              (start_world [x62; x63] (FstatMode false) [Pending; Pending] 0))).
  - reflexivity.
  - discriminate.
  - reflexivity.
  - vm_compute. split; discriminate.
  - vm_compute. lia.
Defined.

(** X18: bytes that arrive with no tick are queued and counted, nothing
    more: as long as the drift counter stays in [-1024, 1024], the first
    loop of [stream_data] reads the input to its end, appends it to the
    queue and adds its length to the drift counter; it writes nothing and
    arms no timer. *)
Theorem burst_is_queued_without_rescale
  (fuel : nat) (interval bytes_buffered : Z) (w : world) :
  alarms w = [] -> received_signal w = false -> errno_EINTR w = false ->
  - DELAY_SIZE <= bytes_buffered ->
  bytes_buffered + Z.of_nat (List.length (stdin_data w)) <= DELAY_SIZE ->
  (List.length (stdin_data w) < fuel)%nat ->
  stream_loop fuel interval bytes_buffered w =
  Ret (interval, bytes_buffered + Z.of_nat (List.length (stdin_data w)))
      (with_ring (ring w ++ stdin_data w) (with_stdin [] w)).
Proof.
  intros Ea Hsig He Hb Hn Hf. apply burst_loop; auto.
Qed.

(** The theorem above, applied to concrete states. *)
Lemma burst_is_queued_without_rescale_witness :
  stream_loop 4 1000 0 (start_world [x61; x62] (FstatMode false) [] 0) =
  Ret (1000, 0 + Z.of_nat (List.length [x61; x62]))
      (with_ring ([] ++ [x61; x62])
         (with_stdin [] (start_world [x61; x62] (FstatMode false) [] 0))).
Proof.
  apply (burst_is_queued_without_rescale 4 1000 0
           (start_world [x61; x62] (FstatMode false) [] 0)).
  - reflexivity.
  - reflexivity.
  - reflexivity.
  - vm_compute. discriminate.
  - vm_compute. discriminate.
  - vm_compute. lia.
Defined.

(** X19: an input that ends before any signal arrives is refused.  Without
    an interval argument, on a source that is not a regular file and with
    no tick during the reads, [main] queues the whole input, writes none of
    it, and exits with status 1 after the message for too little input --
    however long the input is. *)
Theorem input_ending_within_the_window_is_refused
  (fuel : nat) (argv : list string) (w : world) :
  sigaction_error w = None -> stdin_stat w = FstatMode false ->
  (List.length argv <= 1)%nat ->
  filter is_tick (alarms w) = [] -> received_signal w = false ->
  (List.length (stdin_data w) < fuel)%nat ->
  exists w',
    main fuel argv w = Stop (Exited 1) w' /\
    stderr_data w' = stderr_data w ++ low_msg /\
    stdout_data w' = stdout_data w /\
    stdin_data w' = [] /\ ring w' = stdin_data w /\
    itimer w' = (itimer w ++ [(999999, 0)])%list.
Proof.
  intros Ha Hs Hn Ea Hsig Hf.
  assert (E : main fuel argv w =
    (interval <- estimate_input_rate fuel ;; stream_data fuel interval ;; ret 0)%prog
      (with_ring [] w)).
  { unfold main. unfold bind at 1, rb_create. unfold bind at 1, set_handler.
    cbn [sigaction_error with_ring]. rewrite Ha.
    assert (E0 : forall k : Z -> M Z,
      bind (r <- is_regular STDIN_FILENO "stdin";;
            (if r : bool
             then eprint "Interval *must* be given if reading from ";;
                  eprint ("a regular file!!" ++ newline);; exit 1
             else estimate_input_rate fuel))%prog k (with_ring [] w) =
      bind (estimate_input_rate fuel) k (with_ring [] w)).
    { intros k. unfold bind at 1. unfold bind at 1. unfold is_regular.
      cbn [stdin_stat with_ring]. rewrite Hs. reflexivity. }
    destruct argv as [|a0 [|arg rest]]; [apply E0|apply E0|cbn in Hn; lia]. }
  rewrite E. clear E.
  unfold bind at 1. unfold estimate_input_rate. unfold bind at 1.
  unfold estimate_window. unfold bind at 1.
  destruct (getchar_no_tick (with_ring [] w) Ea) as (l & El & G).
  rewrite G. cbn [stdin_data with_ring].
  destruct (stdin_data w) as [|b bs] eqn:Es.
  - unfold bind at 1, ret at 1. unfold bind at 1, set_timer, setitimer.
    unfold bind at 1, clear_errno.
    match goal with |- context [estimate_loop fuel 0 ?w0] =>
      destruct (estimate_loop_no_tick [] fuel 0 w0)
        as (r & w' & E & H1 & H2 & H3 & H4 & H5 & H6) end;
      auto.
    rewrite E. rewrite estimate_result_low by (left; rewrite H3; exact Hsig).
    eexists. split; [reflexivity|]. cbn in *.
    rewrite H5, H4, H2, H6. repeat split; auto.
  - unfold bind at 1, rb_xpush. unfold bind at 1, set_timer, setitimer.
    unfold bind at 1, clear_errno.
    match goal with |- context [estimate_loop fuel 0 ?w0] =>
      destruct (estimate_loop_no_tick bs fuel 0 w0)
        as (r & w' & E & H1 & H2 & H3 & H4 & H5 & H6) end;
      auto.
    { cbn in Hf. lia. }
    rewrite E. rewrite estimate_result_low by (left; rewrite H3; exact Hsig).
    eexists. split; [reflexivity|]. cbn in *.
    rewrite H5, H4, H2, H6. repeat split; auto.
Qed.

(** The theorem above, applied to concrete states. *)
Lemma input_ending_within_the_window_is_refused_witness :
  exists w',
    main 4 ["stream-buffer"] (start_world [x61; x62; x63] (FstatMode false) [] 9)
    = Stop (Exited 1) w' /\
    stderr_data w' = low_msg /\ stdout_data w' = [] /\ stdin_data w' = [] /\
    ring w' = [x61; x62; x63] /\ itimer w' = [(999999, 0)].
Proof.
  apply (input_ending_within_the_window_is_refused 4 ["stream-buffer"]
           (start_world [x61; x62; x63] (FstatMode false) [] 9)).
  - reflexivity.
  - reflexivity.
  - vm_compute. lia.
  - reflexivity.
  - reflexivity.
  - vm_compute. lia.
Defined.
